(** * agent-brock: admission and deduplication layer

    A shallow embedding of the bounded-concurrency task queue
    (task-queue.ts), the heartbeat's processed-item cache (heartbeat.ts),
    the cron scheduler (scheduler.ts) and the GitHub webhook entry point
    (webhook-server.ts), followed by the properties proved about them.

    Conventions used throughout:
    - every class becomes a record holding its private fields; a method
      becomes a function from the record to the updated record (and a
      return value where the method has one);
    - a [Map<string, V>] is a [gmap string V]; iteration order of the map
      is not represented;
    - the logger is a list of entries, oldest first; every logger call of
      the source appends one entry;
    - [Date.now()] is passed in as an argument of type [Z]. *)

From Stdlib Require Import Ascii.
From stdpp Require Import base option list gmap strings fin_maps pretty.

Set Warnings "-register-all,-clear-no-such-hyp".
Open Scope Z_scope.

(** ** task-queue.ts *)

Module TaskQueue.
Section task_queue.
(** The task body ([execute: () => Promise<void>]) is opaque to the queue. *)
Context {Body : Type}.

Record QueuedTask := {
  id : string;
  source : string;
  execute : Body;
}.

(** One constructor per logger call of the class. *)
Inductive log_entry :=
| Debug_skipping (task_id task_source : string)
| Info_enqueued (task_id task_source : string) (pending active : nat)
| Info_started (task_id task_source : string)
| Error_failed (task_id : string) (err : string)
| Info_completed (task_id task_source : string) (pending active : nat).

(** A [Map] iterates over its keys in insertion order: [activeTasks] holds
    the entries of the map and [activeOrder] its keys in that order. *)
Record t := {
  queue : list QueuedTask;
  activeTasks : gmap string QueuedTask;
  activeOrder : list string;
  maxConcurrent : Z;
  logger : list log_entry;
  (** Ghost field: the tasks whose [execute()] has been called, in call
      order. *)
  started : list QueuedTask;
}.

(** [constructor(maxConcurrent)] *)
Definition new (maxConcurrent : Z) : t :=
  {| queue := []; activeTasks := ∅; activeOrder := [];
     maxConcurrent := maxConcurrent; logger := []; started := [] |}.

(** What [map.set(k, ..)] does to the order of the keys: a new key goes
    last, a key of the map keeps its place. *)
Definition order_set (k : string) (active : gmap string QueuedTask)
    (order : list string) : list string :=
  if bool_decide (is_Some (active !! k)) then order else order ++ [k].

(** What [map.delete(k)] does to the order of the keys. *)
Definition order_delete (k : string) (order : list string) : list string :=
  filter (λ k', k' ≠ k) order.

Definition pendingCount (s : t) : nat := length (queue s).
Definition activeCount (s : t) : nat := size (activeTasks s).

Definition isActive (taskId : string) (s : t) : bool :=
  bool_decide (is_Some (activeTasks s !! taskId)).

Definition isPending (taskId : string) (s : t) : bool :=
  existsb (λ task, bool_decide (id task = taskId)) (queue s).

Definition log (e : log_entry) (s : t) : t :=
  {| queue := queue s; activeTasks := activeTasks s;
     activeOrder := activeOrder s;
     maxConcurrent := maxConcurrent s; logger := logger s ++ [e];
     started := started s |}.

(** [this.queue.push(task)] *)
Definition push (task : QueuedTask) (s : t) : t :=
  {| queue := queue s ++ [task]; activeTasks := activeTasks s;
     activeOrder := activeOrder s;
     maxConcurrent := maxConcurrent s; logger := logger s;
     started := started s |}.

(** The [while] loop of [drain].  Every iteration shifts one task off the
    queue, so the loop is written by recursion on the queue. *)
Fixpoint drain_loop (max : Z) (q : list QueuedTask)
    (active : gmap string QueuedTask) (order : list string)
    (lg : list log_entry) (st : list QueuedTask) : t :=
  match q with
  | task :: rest =>
      if bool_decide (Z.of_nat (size active) < max) then
        drain_loop max rest (<[id task := task]> active)
          (order_set (id task) active order)
          (lg ++ [Info_started (id task) (source task)]) (st ++ [task])
      else
        {| queue := q; activeTasks := active; activeOrder := order;
           maxConcurrent := max; logger := lg; started := st |}
  | [] =>
      {| queue := []; activeTasks := active; activeOrder := order;
         maxConcurrent := max; logger := lg; started := st |}
  end.

Definition drain (s : t) : t :=
  drain_loop (maxConcurrent s) (queue s) (activeTasks s) (activeOrder s)
    (logger s) (started s).

Definition enqueue (task : QueuedTask) (s : t) : bool * t :=
  if isActive (id task) s || isPending (id task) s then
    (false, log (Debug_skipping (id task) (source task)) s)
  else
    let s1 := push task s in
    let s2 := log (Info_enqueued (id task) (source task)
                     (pendingCount s1) (activeCount s1)) s1 in
    (true, drain s2).

(** How the promise returned by [task.execute()] settles. *)
Inductive outcome :=
| Fulfilled
| Rejected (err : string).

(** [p.catch(h)]: the handler runs on rejection only, and the resulting
    promise is fulfilled when the handler returns. *)
Definition promise_catch (o : outcome) (h : string → t → t) (s : t)
    : outcome * t :=
  match o with
  | Fulfilled => (Fulfilled, s)
  | Rejected err => (Fulfilled, h err s)
  end.

(** [p.finally(f)]: the handler always runs and the settlement of [p] is
    passed through. *)
Definition promise_finally (o : outcome) (f : t → t) (s : t)
    : outcome * t :=
  (o, f s).

(** The callback given to [.catch] in [drain]. *)
Definition on_error (task : QueuedTask) (err : string) (s : t) : t :=
  log (Error_failed (id task) err) s.

(** The callback given to [.finally] in [drain]. *)
Definition on_finally (task : QueuedTask) (s : t) : t :=
  let s1 :=
    {| queue := queue s; activeTasks := delete (id task) (activeTasks s);
       activeOrder := order_delete (id task) (activeOrder s);
       maxConcurrent := maxConcurrent s; logger := logger s;
       started := started s |} in
  let s2 := log (Info_completed (id task) (source task)
                   (pendingCount s1) (activeCount s1)) s1 in
  drain s2.

(** What happens when the body of [task] settles with [o]: the chain
    [task.execute().catch(..).finally(..)] of [drain].  The first
    component is the settlement of the promise at the end of the chain. *)
Definition settle (task : QueuedTask) (o : outcome) (s : t) : outcome * t :=
  let '(o1, s1) := promise_catch o (on_error task) s in
  promise_finally o1 (on_finally task) s1.

(** [getStatus()]: [pending], [active] and [activeIds], the keys of the map
    in its iteration order. *)
Definition getStatus (s : t) : nat * nat * list string :=
  (pendingCount s, activeCount s, activeOrder s).

(** The queue only changes through [enqueue] (called by a producer) and
    through the settlement of a body it started; both run to completion
    without yielding.  The bodies of this repository suspend before they
    touch the queue, so [execute()] itself does not change it.  A
    settlement can only happen for a task that was started; the event lists
    below do not enforce this, so they include every real execution. *)
Inductive event :=
| Enqueue (task : QueuedTask)
| Settle (task : QueuedTask) (o : outcome).

Definition step (s : t) (e : event) : t :=
  match e with
  | Enqueue task => (enqueue task s).2
  | Settle task o => (settle task o s).2
  end.

Definition run (evs : list event) (s : t) : t := foldl step s evs.

(** The tasks offered by the [Enqueue] events of a run, in order. *)
Definition offered (evs : list event) : list QueuedTask :=
  omap (λ e, match e with Enqueue task => Some task | Settle _ _ => None end)
    evs.

(** The tasks for which [enqueue] answers [true] along a run that starts in
    [s], in order. *)
Fixpoint admitted (evs : list event) (s : t) : list QueuedTask :=
  match evs with
  | [] => []
  | Enqueue task :: rest =>
      (if (enqueue task s).1 then [task] else [])
      ++ admitted rest (step s (Enqueue task))
  | e :: rest => admitted rest (step s e)
  end.

(** The invariant of section 4.1, on one state. *)
Definition disjoint_keys (s : t) : Prop :=
  ∀ k, ¬ (isActive k s = true ∧ isPending k s = true).

Definition within_ceiling (s : t) : Prop :=
  Z.of_nat (activeCount s) ≤ maxConcurrent s.

(** The state the proofs carry along: pending keys are pairwise distinct,
    no pending key is active, and the active map is within the ceiling. *)
Record admissible (s : t) : Prop := {
  pending_nodup : NoDup (id <$> queue s);
  pending_inactive :
    ∀ k, k ∈ id <$> queue s → activeTasks s !! k = None;
  active_bounded : Z.of_nat (size (activeTasks s)) ≤ maxConcurrent s;
}.

(** Every active key belongs to a task that has been started. *)
Definition tracked (s : t) : Prop :=
  ∀ k, is_Some (activeTasks s !! k) → k ∈ id <$> started s.

(** The key order agrees with the map: it lists the keys of the map, each
    once, in the order in which their tasks were started. *)
Record ordered (s : t) : Prop := {
  order_nodup : NoDup (activeOrder s);
  order_keys : ∀ k, k ∈ activeOrder s ↔ is_Some (activeTasks s !! k);
  order_started : activeOrder s `sublist_of` id <$> started s;
}.

(** A description of a state of a queue whose ceiling is 1. *)
Record serial_state (s : t) (active : gmap string QueuedTask)
    (q st : list QueuedTask) : Prop := {
  serial_max : maxConcurrent s = 1;
  serial_active : activeTasks s = active;
  serial_queue : queue s = q;
  serial_started : started s = st;
}.
End task_queue.
Global Arguments QueuedTask : clear implicits.
Global Arguments t : clear implicits.
Global Arguments event : clear implicits.

(** The keys of a list of tasks, in order. *)
Abbreviation keys q := (id <$> q).
End TaskQueue.

(** ** JavaScript values read from JSON

  [JSON.parse] results as the loader of scheduler.ts handles them.
  Numbers are kept as integers: the only operation the modelled code
  applies to a number is the truthiness test. *)

Module Js.
Inductive value :=
| Undefined
| Null
| Bool (b : bool)
| Num (n : Z)
| Str (s : string)
| Arr (items : list value)
| Obj (fields : list (string * value)).

(** ToBoolean *)
Definition truthy (v : value) : bool :=
  match v with
  | Undefined | Null => false
  | Bool b => b
  | Num n => negb (bool_decide (n = 0))
  | Str s => negb (bool_decide (s = ""))
  | Arr _ | Obj _ => true
  end.

(** [a || b] *)
Definition or_else (a b : value) : value := if truthy a then a else b.

(** Own property of a parsed object; when the text repeats a key the last
    occurrence wins. *)
Fixpoint assoc (k : string) (fields : list (string * value)) : value :=
  match fields with
  | [] => Undefined
  | (k', v) :: rest =>
      match assoc k rest with
      | Undefined => if bool_decide (k' = k) then v else Undefined
      | w => w
      end
  end.

Inductive completion (A : Type) :=
| Normal (a : A)
| Throw (err : string).
Global Arguments Normal {A} a.
Global Arguments Throw {A} err.

#[global] Instance completion_bind : MBind completion := λ A B f c,
  match c with
  | Normal a => f a
  | Throw err => Throw err
  end.

(** [v.k] for the property names the loader reads ([name], [schedule],
    [prompt], [slackChannel], [workingDirectory]): reading a property of
    [null] or [undefined] throws a TypeError; booleans, numbers, strings
    and arrays have no such property. *)
Definition get (v : value) (k : string) : completion value :=
  match v with
  | Undefined | Null => Throw "TypeError"
  | Obj fields => Normal (assoc k fields)
  | Bool _ | Num _ | Str _ | Arr _ => Normal Undefined
  end.
End Js.

(** ** heartbeat.ts: the processed-item cache *)

Module Heartbeat.
Record TrackedItem := { timestamp : Z }.

Inductive log_entry :=
| Debug_tick
| Debug_cleaned (cleaned : nat).

(** The fields of the class that the cache uses. *)
Record t := {
  processedItems : gmap string TrackedItem;
  itemTtlMs : Z;
  logger : list log_entry;
}.

Definition new : t :=
  {| processedItems := ∅; itemTtlMs := 60 * 60 * 1000; logger := [] |}.

Definition log (e : log_entry) (s : t) : t :=
  {| processedItems := processedItems s; itemTtlMs := itemTtlMs s;
     logger := logger s ++ [e] |}.

Definition isProcessed (key : string) (s : t) : bool :=
  bool_decide (is_Some (processedItems s !! key)).

Definition markProcessed (key : string) (now : Z) (s : t) : t :=
  {| processedItems := <[key := {| timestamp := now |}]> (processedItems s);
     itemTtlMs := itemTtlMs s; logger := logger s |}.

(** An entry is deleted when [now - item.timestamp > this.itemTtlMs]. *)
Definition cleanupProcessedItems (now : Z) (s : t) : t :=
  let kept :=
    filter (λ entry : string * TrackedItem,
              ¬ (itemTtlMs s < now - timestamp entry.2))
      (processedItems s) in
  let cleaned := (size (processedItems s) - size kept)%nat in
  let s1 :=
    {| processedItems := kept; itemTtlMs := itemTtlMs s;
       logger := logger s |} in
  if bool_decide (0 < cleaned)%nat then log (Debug_cleaned cleaned) s1
  else s1.

(** The synchronous start of [tick]. *)
Definition tick (now : Z) (s : t) : t :=
  cleanupProcessedItems now (log Debug_tick s).

(** The guard every [check*] method applies to an item it found:
    [if (this.isProcessed(itemKey)) continue; this.markProcessed(itemKey)].
    The boolean tells whether the item was new. *)
Definition discover (key : string) (now : Z) (s : t) : bool * t :=
  if isProcessed key s then (false, s) else (true, markProcessed key now s).

Inductive event :=
| Tick (now : Z)
| Discover (key : string) (now : Z).

Definition step (s : t) (e : event) : t :=
  match e with
  | Tick now => tick now s
  | Discover key now => (discover key now s).2
  end.

Definition run (evs : list event) (s : t) : t := foldl step s evs.

(** The times at which the sweep runs in a list of events. *)
Definition sweeps (evs : list event) : list Z :=
  omap (λ e, match e with Tick now => Some now | Discover _ _ => None end)
    evs.

(** C7 as stated, for its second half: after [markProcessed], a lookup made
    once the TTL has elapsed answers [false], whatever happened in between. *)
Definition expires_by_time : Prop :=
  ∀ key t0 evs (t : Z),
    Forall (λ now, t0 ≤ now ≤ t) (sweeps evs) →
    itemTtlMs new < t - t0 →
    isProcessed key (run evs (markProcessed key t0 new)) = false.
End Heartbeat.

(** ** scheduler.ts *)

Module Scheduler.
Import Js.

(** What [loadJobs] finds at [configPath]: no file ([existsSync] is false),
    a file that [readFileSync] cannot read, a text that [JSON.parse]
    rejects, or a parsed value. *)
Inductive source :=
| NoFile
| ReadError (err : string)
| SyntaxError (err : string)
| Parsed (v : value).

(** The loader copies the parsed properties without converting them, so a
    field holds whatever value the file had; an absent optional field is
    [Undefined]. *)
Record JobDefinition := {
  name : value;
  schedule : value;
  prompt : value;
  slackChannel : value;
  workingDirectory : value;
}.

(** A task of node-cron: the job its callback closes over, and whether it
    is still scheduled.  [cron.schedule] returns a running task and
    [task.stop()] ends it; a stopped task does not call its callback. *)
Record ScheduledTask := {
  callback_job : JobDefinition;
  running : bool;
}.

Inductive log_entry :=
| Info_reloading
| Debug_cannot_watch
| Info_no_jobs_file
| Warn_not_array
| Warn_invalid_job (job : value)
| Warn_invalid_cron (job_name job_schedule : value)
| Info_loaded (count : nat) (names : list value)
| Error_load_failed (err : string)
| Info_triggered (job_name : value)
| Warn_no_channel (job_name : value).

Section scheduler.
Context {Body : Type}.

(** [cron.validate] of node-cron. *)
Variable cron_validate : value → bool.
(** The string conversion a template literal applies to [job.name].  It
    throws a [TypeError] for a value that has no string form, such as a
    parsed object with a property of its own named [toString]. *)
Variable ToString : value → completion string.
(** [config.github.notifySlackChannel]; empty when not configured. *)
Variable notifySlackChannel : string.
(** The closure built by [enqueueJob] as the task body; it captures the
    resolved channel and the job. *)
Variable job_body : value → JobDefinition → Body.

(** [cronTasks] holds references to node-cron tasks; the tasks themselves
    live in [timers], and a reference is an index into it. *)
Record t := {
  taskQueue : TaskQueue.t Body;
  jobs : list JobDefinition;
  cronTasks : list nat;
  timers : list ScheduledTask;
  (** The number of listeners that [fs.watchFile] has registered for
      [configPath]; every [start()] that succeeds adds one. *)
  listeners : nat;
  logger : list log_entry;
}.

Definition new (taskQueue : TaskQueue.t Body) : t :=
  {| taskQueue := taskQueue; jobs := []; cronTasks := []; timers := [];
     listeners := 0; logger := [] |}.

Definition log (e : log_entry) (s : t) : t :=
  {| taskQueue := taskQueue s; jobs := jobs s; cronTasks := cronTasks s;
     timers := timers s; listeners := listeners s;
     logger := logger s ++ [e] |}.

Definition set_jobs (js : list JobDefinition) (s : t) : t :=
  {| taskQueue := taskQueue s; jobs := js; cronTasks := cronTasks s;
     timers := timers s; listeners := listeners s; logger := logger s |}.

Definition set_listeners (n : nat) (s : t) : t :=
  {| taskQueue := taskQueue s; jobs := jobs s; cronTasks := cronTasks s;
     timers := timers s; listeners := n; logger := logger s |}.

Definition set_taskQueue (q : TaskQueue.t Body) (s : t) : t :=
  {| taskQueue := q; jobs := jobs s; cronTasks := cronTasks s;
     timers := timers s; listeners := listeners s; logger := logger s |}.

(** [task.stop()] on the task referenced by [h]. *)
Definition stop_task (ts : list ScheduledTask) (h : nat)
    : list ScheduledTask :=
  alter (λ task, {| callback_job := callback_job task; running := false |})
    h ts.

Definition stopCronTasks (s : t) : t :=
  {| taskQueue := taskQueue s; jobs := jobs s; cronTasks := [];
     timers := foldl stop_task (timers s) (cronTasks s);
     listeners := listeners s; logger := logger s |}.

(** One iteration of the loop of [scheduleCronTasks]: [cron.schedule]
    creates a running task, whose reference is pushed on [cronTasks]. *)
Definition schedule_job (s : t) (job : JobDefinition) : t :=
  {| taskQueue := taskQueue s; jobs := jobs s;
     cronTasks := cronTasks s ++ [length (timers s)];
     timers := timers s ++ [{| callback_job := job; running := true |}];
     listeners := listeners s; logger := logger s |}.

Definition scheduleCronTasks (s : t) : t := foldl schedule_job s (jobs s).

(** [!job.name || !job.schedule || !job.prompt], evaluated left to right. *)
Definition missing_field (job : value) : completion bool :=
  job_name ← get job "name";
  if negb (truthy job_name) then Normal true else
  job_schedule ← get job "schedule";
  if negb (truthy job_schedule) then Normal true else
  job_prompt ← get job "prompt";
  Normal (negb (truthy job_prompt)).

(** The object literal pushed on [this.jobs]. *)
Definition definition_of (job : value) : completion JobDefinition :=
  job_name ← get job "name";
  job_schedule ← get job "schedule";
  job_prompt ← get job "prompt";
  job_channel ← get job "slackChannel";
  job_directory ← get job "workingDirectory";
  Normal {| name := job_name; schedule := job_schedule; prompt := job_prompt;
            slackChannel := job_channel; workingDirectory := job_directory |}.

(** The body of the [for (const job of parsed)] loop of [loadJobs]. *)
Definition load_entry (job : value) (s : t) : completion t :=
  missing ← missing_field job;
  if (missing : bool) then Normal (log (Warn_invalid_job job) s) else
  job_schedule ← get job "schedule";
  if negb (cron_validate job_schedule) then
    job_name ← get job "name";
    job_schedule' ← get job "schedule";
    Normal (log (Warn_invalid_cron job_name job_schedule') s)
  else
    def ← definition_of job;
    Normal (set_jobs (jobs s ++ [def]) s).

(** The loop itself.  An exception leaves the loop at once; the jobs pushed
    so far stay in [this.jobs]. *)
Fixpoint load_entries (parsed : list value) (s : t) : t * option string :=
  match parsed with
  | [] => (s, None)
  | job :: rest =>
      match load_entry job s with
      | Normal s' => load_entries rest s'
      | Throw err => (s, Some err)
      end
  end.

Definition loadJobs (src : source) (s : t) : t :=
  match src with
  | NoFile => log Info_no_jobs_file s
  | ReadError err => log (Error_load_failed err) s
  | SyntaxError err => log (Error_load_failed err) s
  | Parsed (Arr parsed) =>
      match load_entries parsed (set_jobs [] s) with
      | (s1, None) =>
          scheduleCronTasks
            (log (Info_loaded (length (jobs s1)) (name <$> jobs s1)) s1)
      | (s1, Some err) => log (Error_load_failed err) s1
      end
  | Parsed _ => log Warn_not_array s
  end.

(** The listener that [start] registers with [fs.watchFile]. *)
Definition reload (src : source) (s : t) : t :=
  loadJobs src (stopCronTasks (log Info_reloading s)).

(** [start()]; [watch_throws] tells whether [fs.watchFile] throws.  Each
    call that succeeds registers a listener of its own. *)
Definition start (src : source) (watch_throws : bool) (s : t) : t :=
  let s1 := loadJobs src s in
  if watch_throws then log Debug_cannot_watch s1
  else set_listeners (S (listeners s1)) s1.

(** [stop()]; [fs.unwatchFile(path)] removes every listener of the path. *)
Definition stop (s : t) : t := set_listeners 0 (stopCronTasks s).

(** The key built from the string form of the name and the time;
    [Date.now()] is an integer number of milliseconds, which the template
    prints in decimal. *)
Definition task_key (text : string) (now : Z) : string :=
  "scheduler-" +:+ text +:+ "-" +:+ pretty now.

(** [`scheduler-${job.name}-${Date.now()}`] *)
Definition taskId (job : JobDefinition) (now : Z) : completion string :=
  text ← ToString (name job);
  Normal (task_key text now).

(** [job.slackChannel || config.github.notifySlackChannel || ''] *)
Definition resolve_channel (job : JobDefinition) : value :=
  or_else (or_else (slackChannel job) (Str notifySlackChannel)) (Str "").

(** [enqueueJob(job)]: the key is built first, then the channel is
    resolved. *)
Definition enqueueJob (job : JobDefinition) (now : Z) (s : t)
    : completion t :=
  key ← taskId job now;
  let channel := resolve_channel job in
  if negb (truthy channel) then Normal (log (Warn_no_channel (name job)) s)
  else
    let task :=
      {| TaskQueue.id := key; TaskQueue.source := "scheduler";
         TaskQueue.execute := job_body channel job |} in
    Normal (set_taskQueue (TaskQueue.enqueue task (taskQueue s)).2 s).

(** The callback given to [cron.schedule] for [job].  An exception thrown
    by [enqueueJob] leaves the callback; the fields of the scheduler are
    then as the first log line left them. *)
Definition on_cron (job : JobDefinition) (now : Z) (s : t) : t :=
  let s1 := log (Info_triggered (name job)) s in
  match enqueueJob job now s1 with
  | Normal s2 => s2
  | Throw _ => s1
  end.

(** node-cron reaches a matching time for the task referenced by [h]. *)
Definition fire (h : nat) (now : Z) (s : t) : t :=
  match timers s !! h with
  | Some task => if running task then on_cron (callback_job task) now s else s
  | None => s
  end.

(** What happens to a scheduler.  When the watched file changes, every
    registered listener runs, in the order of registration; [read i] is
    what the [i]-th of them finds at [configPath]. *)
Inductive event :=
| Start (src : source) (watch_throws : bool)
| Change (read : nat → source)
| Stop
| Fire (h : nat) (now : Z)
| Queue (e : TaskQueue.event Body).

Definition step (s : t) (e : event) : t :=
  match e with
  | Start src watch_throws => start src watch_throws s
  | Change read =>
      foldl (λ s' i, reload (read i) s') s (seq 0 (listeners s))
  | Stop => stop s
  | Fire h now => fire h now s
  | Queue e => set_taskQueue (TaskQueue.step (taskQueue s) e) s
  end.

Definition run (evs : list event) (s : t) : t := foldl step s evs.

(** Whether the task referenced by [h] is still scheduled. *)
Definition is_running (s : t) (h : nat) : bool :=
  match timers s !! h with
  | Some task => running task
  | None => false
  end.

(** The jobs of the tasks that are still scheduled, one per task. *)
Definition running_jobs (s : t) : list JobDefinition :=
  callback_job <$> filter (λ task, running task = true) (timers s).

(** *** Notions used to state the properties of the scheduler *)

(** The property [k] of an entry that is neither [null] nor [undefined]. *)
Definition prop (entry : value) (k : string) : value :=
  match entry with
  | Obj fields => assoc k fields
  | _ => Undefined
  end.

(** An entry has no properties to read when it is [null] (or
    [undefined]). *)
Definition nullish (entry : value) : bool :=
  match entry with
  | Undefined | Null => true
  | _ => false
  end.

(** The entries the loop keeps: the three required properties are truthy
    and the schedule is accepted by [cron.validate]. *)
Definition accepted (entry : value) : bool :=
  truthy (prop entry "name") && truthy (prop entry "schedule")
  && truthy (prop entry "prompt") && cron_validate (prop entry "schedule").

Definition job_of (entry : value) : JobDefinition :=
  {| name := prop entry "name"; schedule := prop entry "schedule";
     prompt := prop entry "prompt"; slackChannel := prop entry "slackChannel";
     workingDirectory := prop entry "workingDirectory" |}.

(** The task that [cron.schedule] creates for a job. *)
Definition new_task (job : JobDefinition) : ScheduledTask :=
  {| callback_job := job; running := true |}.

(** [ts'] is a later state of the tasks [ts]: the tasks of [ts] are still
    there with the same callback, and none of them has been restarted. *)
Definition later_timers (ts ts' : list ScheduledTask) : Prop :=
  (length ts ≤ length ts')%nat
  ∧ ∀ h task', (h < length ts)%nat → ts' !! h = Some task' →
      ∃ task, ts !! h = Some task
              ∧ callback_job task' = callback_job task
              ∧ (running task' = true → running task = true).

(** Every task that is still scheduled is referenced from [cronTasks]. *)
Definition timers_tracked (s : t) : Prop :=
  ∀ h task, timers s !! h = Some task → running task = true →
            h ∈ cronTasks s.

(** A string without the character [-]. *)
Fixpoint dash_free (text : string) : Prop :=
  match text with
  | EmptyString => True
  | String c rest => c ≠ "-"%char ∧ dash_free rest
  end.

(** The events that come from outside once the scheduler is set up: a
    matching time of some task, or a change of the watched file. *)
Definition from_outside (e : event) : bool :=
  match e with
  | Fire _ _ | Change _ => true
  | _ => false
  end.

(** The warning the loop logs for an entry it skips, if it skips it. *)
Definition rejection (entry : value) : option log_entry :=
  if accepted entry then None
  else if truthy (prop entry "name") && truthy (prop entry "schedule")
          && truthy (prop entry "prompt")
       then Some (Warn_invalid_cron (prop entry "name")
                    (prop entry "schedule"))
       else Some (Warn_invalid_job entry).

(** The task that [enqueueJob] builds for a firing at [now] of [job],
    whose name has the string form [text]. *)
Definition firing_task (text : string) (job : JobDefinition) (now : Z)
    : TaskQueue.QueuedTask Body :=
  {| TaskQueue.id := task_key text now; TaskQueue.source := "scheduler";
     TaskQueue.execute := job_body (resolve_channel job) job |}.

(** C9 as stated, second half: the key of a work item is unique to its
    firing, so two firings that differ in the job or in the fire time never
    get the same key. *)
Definition key_unique_per_firing : Prop :=
  ∀ job job' (now now' : Z) key,
    (job, now) ≠ (job', now') →
    taskId job now = Normal key → taskId job' now' ≠ Normal key.

(** C5 as stated: a reload that cannot read or parse the source leaves the
    scheduled tasks of the previous load running. *)
Definition last_good_timers_kept : Prop :=
  ∀ q (evs : list event) src err,
    src = ReadError err ∨ src = SyntaxError err →
    running_jobs (reload src (run evs (new q)))
    = running_jobs (run evs (new q)).
End scheduler.
Global Arguments t : clear implicits.
Global Arguments event : clear implicits.
End Scheduler.

(** ** webhook-server.ts: the GitHub route *)

Module WebhookServer.
Import Js.

(** The parts of an incoming request that [handleGithubWebhook] reads: two
    headers and the buffered body. *)
Record Request := {
  x_hub_signature_256 : option string;
  x_github_delivery : option string;
  rawBody : string;
}.

(** [res.writeHead(status, ..); res.end(JSON.stringify({key: text}))] *)
Record Response := {
  status : nat;
  body : string * string;
}.

(** A call of the handler either answers the request or lets an exception
    escape. *)
Inductive reply :=
| Responded (r : Response)
| Uncaught (err : string).

Inductive log_entry :=
| Warn_missing_signature
| Warn_invalid_signature
| Debug_duplicate (deliveryId : string)
| Debug_cleaned (cleaned : nat).

Section webhook_server.
(** [config.github.webhookSecret]; empty when not configured. *)
Variable webhookSecret : string.
(** [crypto.createHmac('sha256', secret).update(body).digest('hex')] *)
Variable hmac_sha256_hex : string → string → string.
(** [JSON.parse]; [None] when it throws. *)
Variable JSON_parse : string → option value.

Record t := {
  recentDeliveries : gmap string Z;
  deduplicationTtlMs : Z;
  (** Whether [setGithubHandler] has installed a handler. *)
  githubHandler : bool;
  (** Ghost field: the calls made to the installed handler, oldest first. *)
  dispatched : list (value * Request);
  logger : list log_entry;
}.

Definition new : t :=
  {| recentDeliveries := ∅; deduplicationTtlMs := 10 * 60 * 1000;
     githubHandler := false; dispatched := []; logger := [] |}.

Definition log (e : log_entry) (s : t) : t :=
  {| recentDeliveries := recentDeliveries s;
     deduplicationTtlMs := deduplicationTtlMs s;
     githubHandler := githubHandler s; dispatched := dispatched s;
     logger := logger s ++ [e] |}.

Definition set_recentDeliveries (m : gmap string Z) (s : t) : t :=
  {| recentDeliveries := m; deduplicationTtlMs := deduplicationTtlMs s;
     githubHandler := githubHandler s; dispatched := dispatched s;
     logger := logger s |}.

Definition setGithubHandler (s : t) : t :=
  {| recentDeliveries := recentDeliveries s;
     deduplicationTtlMs := deduplicationTtlMs s;
     githubHandler := true; dispatched := dispatched s;
     logger := logger s |}.

(** [this.githubHandler(payload, req.headers)] when a handler is set. *)
Definition dispatch (payload : value) (req : Request) (s : t) : t :=
  if githubHandler s then
    {| recentDeliveries := recentDeliveries s;
       deduplicationTtlMs := deduplicationTtlMs s;
       githubHandler := githubHandler s;
       dispatched := dispatched s ++ [(payload, req)];
       logger := logger s |}
  else s.

Definition respond (code : nat) (key text : string) : reply :=
  Responded {| status := code; body := (key, text) |}.

(** The signature check at the head of [handleGithubWebhook]: [None] when
    the request may proceed.  [!signature] holds for an absent header and
    for an empty one.  [crypto.timingSafeEqual] throws when its two buffers
    differ in length. *)
Definition check_signature (req : Request) (s : t) : option (reply * t) :=
  if bool_decide (webhookSecret = "") then None
  else
    let missing :=
      Some (respond 401 "error" "Missing signature",
            log Warn_missing_signature s) in
    match x_hub_signature_256 req with
    | None => missing
    | Some signature =>
        if bool_decide (signature = "") then missing
        else
          let expected :=
            "sha256=" +:+ hmac_sha256_hex webhookSecret (rawBody req) in
          if negb (String.length signature =? String.length expected)%nat
          then Some (Uncaught "RangeError", s)
          else if negb (bool_decide (signature = expected)) then
            Some (respond 401 "error" "Invalid signature",
                  log Warn_invalid_signature s)
          else None
    end.

(** The rest of the handler, from [// Parse and dispatch] on. *)
Definition parse_and_dispatch (req : Request) (s : t) : reply * t :=
  match JSON_parse (rawBody req) with
  | None => (respond 400 "error" "Invalid JSON", s)
  | Some payload => (respond 202 "status" "accepted", dispatch payload req s)
  end.

Definition handleGithubWebhook (req : Request) (now : Z) (s : t)
    : reply * t :=
  match check_signature req s with
  | Some answered => answered
  | None =>
      match x_github_delivery req with
      | Some deliveryId =>
          if bool_decide (deliveryId = "") then parse_and_dispatch req s
          else if bool_decide (is_Some (recentDeliveries s !! deliveryId)) then
            (respond 200 "status" "duplicate",
             log (Debug_duplicate deliveryId) s)
          else
            parse_and_dispatch req
              (set_recentDeliveries
                 (<[deliveryId := now]> (recentDeliveries s)) s)
      | None => parse_and_dispatch req s
      end
  end.

Definition cleanupDeliveries (now : Z) (s : t) : t :=
  let kept :=
    filter (λ entry : string * Z, ¬ (deduplicationTtlMs s < now - entry.2))
      (recentDeliveries s) in
  let cleaned := (size (recentDeliveries s) - size kept)%nat in
  let s1 := set_recentDeliveries kept s in
  if bool_decide (0 < cleaned)%nat then log (Debug_cleaned cleaned) s1
  else s1.

Inductive event :=
| Deliver (req : Request) (now : Z)
| Cleanup (now : Z)
| SetHandler.

Definition step (s : t) (e : event) : t :=
  match e with
  | Deliver req now => (handleGithubWebhook req now s).2
  | Cleanup now => cleanupDeliveries now s
  | SetHandler => setGithubHandler s
  end.

Definition run (evs : list event) (s : t) : t := foldl step s evs.

(** The times at which [cleanupDeliveries] runs in a list of events. *)
Definition cleanups (evs : list event) : list Z :=
  omap (λ e, match e with Cleanup now => Some now | _ => None end) evs.

(** The times at which requests arrive in a list of events. *)
Definition arrivals (evs : list event) : list Z :=
  omap (λ e, match e with Deliver _ now => Some now | _ => None end) evs.

(** A request that gets past the signature check: no secret is configured,
    or the header carries the expected digest. *)
Definition authentic (req : Request) : bool :=
  bool_decide (webhookSecret = "")
  || bool_decide (x_hub_signature_256 req
                  = Some ("sha256="
                          +:+ hmac_sha256_hex webhookSecret (rawBody req))).

(** The calls to the handler that carry the delivery id [deliveryId]. *)
Definition dispatched_for (deliveryId : string)
    (calls : list (value * Request)) : list (value * Request) :=
  filter (λ call, x_github_delivery call.2 = Some deliveryId) calls.
End webhook_server.
End WebhookServer.

(** ** github-handler.ts: pull-request events *)

Module GithubHandler.
Import Js.

Inductive log_entry :=
| Debug_ignoring_action (action repo number : value)
| Debug_skipping_draft (repo number : value).

(** [v === text] for a string literal [text]. *)
Definition is_string (v : value) (text : string) : bool :=
  match v with
  | Str s => bool_decide (s = text)
  | _ => false
  end.

(** [v?.k]: [undefined] when [v] is [null] or [undefined], the property
    otherwise.  As in [Js.get], the names read here ([full_name]) are not
    properties of booleans, numbers, strings or arrays. *)
Definition get_optional (v : value) (k : string) : value :=
  match v with
  | Obj fields => assoc k fields
  | _ => Undefined
  end.

(** The actions [handlePullRequest] acts on. *)
Definition actionable : list string :=
  ["opened"; "reopened"; "ready_for_review"; "synchronize"].

(** [actionable.includes(action)]: strict equality with one of the
    strings. *)
Definition is_actionable (action : value) : bool :=
  existsb (is_string action) actionable.

Section github_handler.
Context {Body : Type}.
(** The string conversion a template literal applies to a value.  It
    throws a [TypeError] for a value that has no string form, such as a
    parsed object with a property of its own named [toString]. *)
Variable ToString : value → completion string.
(** The closure [() => this.reviewPR(repo, number, title, isIncremental)]. *)
Variable review_body : value → value → value → bool → Body.

Record t := {
  taskQueue : TaskQueue.t Body;
  logger : list log_entry;
}.

Definition log (e : log_entry) (s : t) : t :=
  {| taskQueue := taskQueue s; logger := logger s ++ [e] |}.

(** [`github-pr-${repo}-${number}`]; the two values are converted from
    left to right. *)
Definition pr_task_id (repo number : value) : completion string :=
  repo_text ← ToString repo;
  number_text ← ToString number;
  Normal ("github-pr-" +:+ repo_text +:+ "-" +:+ number_text).

(** [handlePullRequest(payload)].  Reading a property of a [null] payload
    throws. *)
Definition handlePullRequest (payload : value) (s : t) : completion t :=
  action ← get payload "action";
  pr ← get payload "pull_request";
  if negb (truthy pr) then Normal s else
  repository ← get payload "repository";
  let repo := get_optional repository "full_name" in
  number ← get pr "number";
  title ← get pr "title";
  if negb (is_actionable action) then
    Normal (log (Debug_ignoring_action action repo number) s)
  else
    draft ← get pr "draft";
    if truthy draft && negb (is_string action "synchronize") then
      Normal (log (Debug_skipping_draft repo number) s)
    else
      taskId ← pr_task_id repo number;
      let isIncremental := is_string action "synchronize" in
      let task :=
        {| TaskQueue.id := taskId;
           TaskQueue.source := "github";
           TaskQueue.execute := review_body repo number title isIncremental |}
      in
      Normal {| taskQueue := (TaskQueue.enqueue task (taskQueue s)).2;
                logger := logger s |}.

(** The pull-request events that get past both filters. *)
Definition reviewable (payload : value) : bool :=
  match payload with
  | Obj fields =>
      truthy (assoc "pull_request" fields)
      && is_actionable (assoc "action" fields)
      && negb (truthy (get_optional (assoc "pull_request" fields) "draft")
               && negb (is_string (assoc "action" fields) "synchronize"))
  | _ => false
  end.

(** The task built for an object payload once its key is known. *)
Definition review_task (key : string) (fields : list (string * value))
    : TaskQueue.QueuedTask Body :=
  {| TaskQueue.id := key;
     TaskQueue.source := "github";
     TaskQueue.execute :=
       review_body
         (get_optional (assoc "repository" fields) "full_name")
         (get_optional (assoc "pull_request" fields) "number")
         (get_optional (assoc "pull_request" fields) "title")
         (is_string (assoc "action" fields) "synchronize") |}.

(** The key of the task built for a payload. *)
Definition pr_key (payload : value) : completion string :=
  pr_task_id
    (get_optional (get_optional payload "repository") "full_name")
    (get_optional (get_optional payload "pull_request") "number").
End github_handler.
Global Arguments t : clear implicits.
End GithubHandler.

(** ** heartbeat.ts: the FreeScout and Planka checks

    The checks use the processed-item cache of [Heartbeat] and the shared
    task queue.  Their error lines are kept in a list of their own. *)

Module HeartbeatChecks.
Import Js.

Inductive log_entry :=
| Error_command_failed (cmd : string)
| Error_checking_freescout (err : string)
| Info_found_pr (repo : string) (number title : value).

Section checks.
Context {Body : Type}.
(** [String(v)], also the conversion a template literal applies.  It
    throws a [TypeError] for a value that has no string form, such as a
    parsed object with a property of its own named [toString]. *)
Variable ToString : value → completion string.
(** [JSON.parse]; [None] when it throws. *)
Variable JSON_parse : string → option value.
(** [config.freescout]: [enabled], [mailboxId], [notifySlackChannel]. *)
Variable freescout_enabled : bool.
Variable freescout_mailboxId : string.
Variable freescout_channel : string.
(** The closure enqueued for a conversation; it captures the channel, the
    conversation and its id. *)
Variable freescout_body : string → value → string → Body.
(** The closure [() => plankaHandler.workOnCard(cardId)]. *)
Variable planka_body : string → Body.
(** [config.github.notifySlackChannel], and the closure enqueued for a pull
    request; it captures the channel, the repository and the pull
    request. *)
Variable github_channel : string.
Variable github_body : string → string → value → Body.

Record t := {
  cache : Heartbeat.t;
  taskQueue : TaskQueue.t Body;
  logger : list log_entry;
}.

Definition log (e : log_entry) (p : t) : t :=
  {| cache := cache p; taskQueue := taskQueue p; logger := logger p ++ [e] |}.

Definition set_cache (c : Heartbeat.t) (p : t) : t :=
  {| cache := c; taskQueue := taskQueue p; logger := logger p |}.

Definition set_taskQueue (q : TaskQueue.t Body) (p : t) : t :=
  {| cache := cache p; taskQueue := q; logger := logger p |}.

(** [execCommand(cmd)]: [outcome] is the trimmed output of the command, or
    [None] when [execSync] throws; the failure is logged and [null] is
    returned. *)
Definition execCommand (cmd : string) (outcome : option string) (p : t)
    : option string * t :=
  match outcome with
  | Some output => (Some output, p)
  | None => (None, log (Error_command_failed cmd) p)
  end.

Definition freescout_item_key (convId : string) : string :=
  "freescout:" +:+ convId.

Definition freescout_task_id (convId : string) : string :=
  "heartbeat-freescout-" +:+ convId.

(** The body of the loop of [checkFreescoutTickets] for one conversation;
    [now] is the value of [Date.now()] when [markProcessed] runs. *)
Definition freescout_conversation (conv : value) (now : Z) (p : t)
    : completion t :=
  conv_id ← get conv "id";
  convId ← ToString conv_id;
  let itemKey := freescout_item_key convId in
  if Heartbeat.isProcessed itemKey (cache p) then Normal p else
  let p1 := set_cache (Heartbeat.markProcessed itemKey now (cache p)) p in
  if bool_decide (freescout_channel = "") then Normal p1 else
  let task :=
    {| TaskQueue.id := freescout_task_id convId;
       TaskQueue.source := "heartbeat";
       TaskQueue.execute := freescout_body freescout_channel conv convId |} in
  Normal (set_taskQueue (TaskQueue.enqueue task (taskQueue p1)).2 p1).

(** The loop; every conversation comes with the time at which the loop
    reaches it.  An exception leaves the loop at once. *)
Fixpoint freescout_loop (convs : list (value * Z)) (p : t)
    : t * option string :=
  match convs with
  | [] => (p, None)
  | (conv, now) :: rest =>
      match freescout_conversation conv now p with
      | Normal p' => freescout_loop rest p'
      | Throw err => (p, Some err)
      end
  end.

(** [checkFreescoutTickets()]: [outcome] is what the [freescout] command
    gives, [clock i] the time at which the loop reaches its [i]-th
    conversation. *)
Definition checkFreescoutTickets (outcome : option string) (clock : nat → Z)
    (p : t) : t :=
  if negb freescout_enabled then p
  else if bool_decide (freescout_mailboxId = "") then p
  else
    let cmd := "freescout conversations --mailbox " +:+ freescout_mailboxId
               +:+ " --status active -j" in
    match execCommand cmd outcome p with
    | (None, p1) => p1
    | (Some result, p1) =>
        if bool_decide (result = "") then p1
        else
          match JSON_parse result with
          | None => log (Error_checking_freescout "SyntaxError") p1
          | Some conversations =>
              let convs :=
                match conversations with
                | Arr items => items
                | _ => []
                end in
              match freescout_loop (imap (λ i conv, (conv, clock i)) convs) p1
              with
              | (p2, None) => p2
              | (p2, Some err) => log (Error_checking_freescout err) p2
              end
          end
    end.

(** The part of the loop of [checkPlankaCards] that runs for one card
    before [await import(..)]: the answer is the card id when the card
    passes both guards, after it has been marked. *)
Definition planka_card_guard (card : value) (now : Z) (p : t)
    : completion (option string * t) :=
  card_id ← get card "id";
  cardId ← ToString card_id;
  let itemKey := "planka-card:" +:+ cardId in
  if Heartbeat.isProcessed itemKey (cache p) then Normal (None, p) else
  if TaskQueue.isActive ("planka-card-" +:+ cardId) (taskQueue p) then
    Normal (None, p)
  else
    Normal (Some cardId,
            set_cache (Heartbeat.markProcessed itemKey now (cache p)) p).

(** The part that runs after the import has resolved. *)
Definition planka_card_enqueue (cardId : string) (p : t) : t :=
  let task :=
    {| TaskQueue.id := "heartbeat-planka-" +:+ cardId;
       TaskQueue.source := "heartbeat";
       TaskQueue.execute := planka_body cardId |} in
  set_taskQueue (TaskQueue.enqueue task (taskQueue p)).2 p.

(** The body of the inner loop of [checkGithubPRs] for one pull request of
    the repository [repo]. *)
Definition github_pr (repo : string) (pr : value) (now : Z) (p : t)
    : completion t :=
  number ← get pr "number";
  number_text ← ToString number;
  let itemKey := "github-pr:" +:+ repo +:+ "/" +:+ number_text in
  if Heartbeat.isProcessed itemKey (cache p) then Normal p else
  let p1 := set_cache (Heartbeat.markProcessed itemKey now (cache p)) p in
  title ← get pr "title";
  let p2 := log (Info_found_pr repo number title) p1 in
  if bool_decide (github_channel = "") then Normal p2 else
  let task :=
    {| TaskQueue.id :=
         "heartbeat-github-pr-" +:+ repo +:+ "-" +:+ number_text;
       TaskQueue.source := "heartbeat";
       TaskQueue.execute := github_body github_channel repo pr |} in
  Normal (set_taskQueue (TaskQueue.enqueue task (taskQueue p2)).2 p2).

(** [String(conv.id)] *)
Definition conversation_id (conv : value) : completion string :=
  conv_id ← get conv "id";
  ToString conv_id.

(** The item keys a list of conversations leads to, up to the first
    conversation whose id cannot be read or converted. *)
Fixpoint keys_reached (convs : list (value * Z)) : list string :=
  match convs with
  | [] => []
  | (conv, _) :: rest =>
      match conversation_id conv with
      | Normal convId => freescout_item_key convId :: keys_reached rest
      | Throw _ => []
      end
  end.
End checks.
Global Arguments t : clear implicits.
End HeartbeatChecks.

(** ** planka-handler.ts: routing of webhook events, branch slugs *)

Module PlankaHandler.
Import Js.

Inductive log_entry :=
| Info_received (eventType : value)
| Debug_ignoring (eventType : value)
| Warn_move_missing_card
| Warn_assignment_missing_card.

(** [a || b], where evaluating [b] may throw. *)
Definition or_read (a : value) (b : completion value) : completion value :=
  if truthy a then Normal a else b.

(** [v?.k] *)
Abbreviation optional := GithubHandler.get_optional.

Section planka_handler.
Context {Body : Type}.
(** [String(v)], also the conversion a template literal applies.  It
    throws a [TypeError] for a value that has no string form, such as a
    parsed object with a property of its own named [toString]. *)
Variable ToString : value → completion string.
(** [config.planka.targetLists] *)
Variable targetLists : list string.
(** The closure [() => this.workOnCard(cardId)]. *)
Variable work_body : value → Body.

Record t := {
  taskQueue : TaskQueue.t Body;
  logger : list log_entry;
}.

Definition log (e : log_entry) (s : t) : t :=
  {| taskQueue := taskQueue s; logger := logger s ++ [e] |}.

(** [payload.data?.listId || payload.card?.listId || payload.listId] *)
Definition list_of (payload : value) : completion value :=
  data ← get payload "data";
  or_read (optional data "listId")
    (card ← get payload "card";
     or_read (optional card "listId") (get payload "listId")).

(** [!!listId && targetLists.includes(String(listId))]: the conversion
    runs for a truthy [listId] only. *)
Definition isCardMoveToTargetList (payload : value) : completion bool :=
  if bool_decide (length targetLists = 0%nat) then Normal false
  else
    listId ← list_of payload;
    if negb (truthy listId) then Normal false
    else
      text ← ToString listId;
      Normal (bool_decide (text ∈ targetLists)).

Definition isCardAssignment (payload : value) : completion bool :=
  type ← get payload "type";
  if GithubHandler.is_string type "cardMembershipCreate" then Normal true
  else
    event ← get payload "event";
    Normal (GithubHandler.is_string event "card_assigned").

(** The task both handlers build, keyed [`planka-card-${cardId}`]; [text]
    is the string form of [cardId]. *)
Definition card_task (text : string) (cardId : value)
    : TaskQueue.QueuedTask Body :=
  {| TaskQueue.id := "planka-card-" +:+ text;
     TaskQueue.source := "planka";
     TaskQueue.execute := work_body cardId |}.

(** The end of both handlers: the key is built, then the task is
    enqueued. *)
Definition enqueue_card (cardId : value) (s : t) : completion t :=
  text ← ToString cardId;
  Normal
    {| taskQueue :=
         (TaskQueue.enqueue (card_task text cardId) (taskQueue s)).2;
       logger := logger s |}.

(** [payload.data?.cardId || payload.card?.id || payload.cardId] *)
Definition moved_card (payload : value) : completion value :=
  data ← get payload "data";
  or_read (optional data "cardId")
    (card ← get payload "card";
     or_read (optional card "id") (get payload "cardId")).

Definition handleCardMove (payload : value) (s : t) : completion t :=
  cardId ← moved_card payload;
  if negb (truthy cardId) then Normal (log Warn_move_missing_card s)
  else enqueue_card cardId s.

(** [payload.data?.cardId || payload.card?.id ||
     payload.cardMembership?.cardId || payload.cardId] *)
Definition assigned_card (payload : value) : completion value :=
  data ← get payload "data";
  or_read (optional data "cardId")
    (card ← get payload "card";
     or_read (optional card "id")
       (membership ← get payload "cardMembership";
        or_read (optional membership "cardId") (get payload "cardId"))).

Definition handleCardAssignment (payload : value) (s : t) : completion t :=
  cardId ← assigned_card payload;
  if negb (truthy cardId) then Normal (log Warn_assignment_missing_card s)
  else enqueue_card cardId s.

(** [handle(payload, _headers)].  The summary of the payload that the first
    log line carries is left out of the entry.  When a conversion throws
    further down, the exception leaves [handle] after that first line has
    been written; the result [Throw] does not record the log. *)
Definition handle (payload : value) (s : t) : completion t :=
  type ← get payload "type";
  eventType ← or_read type (get payload "event");
  let s1 := log (Info_received eventType) s in
  move ← isCardMoveToTargetList payload;
  if move : bool then handleCardMove payload s1
  else
    assignment ← isCardAssignment payload;
    if assignment : bool then handleCardAssignment payload s1
    else Normal (log (Debug_ignoring eventType) s1).
End planka_handler.
Global Arguments t : clear implicits.

(** *** [slugify]

    A string is the list of its UTF-16 code units. *)

Definition dash : N := 45.

(** The class [[a-z0-9]]. *)
Definition is_slug_unit (c : N) : bool :=
  ((97 <=? c) && (c <=? 122) || (48 <=? c) && (c <=? 57))%N.

(** [.replace(/[^a-z0-9]+/g, '-')]: every maximal run of units outside the
    class becomes one dash; [in_run] tells that the previous unit was
    outside the class. *)
Fixpoint replace_runs (in_run : bool) (text : list N) : list N :=
  match text with
  | [] => []
  | c :: rest =>
      if is_slug_unit c then c :: replace_runs false rest
      else if in_run then replace_runs true rest
      else dash :: replace_runs true rest
  end.

(** [.replace(/^-|-$/g, '')]: a dash at the start goes, and so does a dash
    at the end of what is left. *)
Definition strip_first (text : list N) : list N :=
  match text with
  | c :: rest => if bool_decide (c = dash) then rest else text
  | [] => []
  end.

Fixpoint strip_last (text : list N) : list N :=
  match text with
  | [] => []
  | [c] => if bool_decide (c = dash) then [] else [c]
  | c :: rest => c :: strip_last rest
  end.

Section slugify.
(** [String.prototype.toLowerCase] *)
Variable toLowerCase : list N → list N.

Definition slugify (text : list N) : list N :=
  take 50 (strip_last (strip_first (replace_runs false (toLowerCase text)))).
End slugify.

(** The shape of a slug: no dash is followed by a dash, and every unit is
    in the class or a dash. *)
Definition spaced (text : list N) : Prop :=
  ∀ i, text !! i = Some dash → text !! S i ≠ Some dash.

Definition slug_units (text : list N) : Prop :=
  Forall (λ c, is_slug_unit c = true ∨ c = dash) text.

End PlankaHandler.

(** ** Sample data

    Small inputs on which the properties below are instantiated. *)

Module Examples.
Import Js.

Definition task_of (key : string) : TaskQueue.QueuedTask unit :=
  {| TaskQueue.id := key; TaskQueue.source := "heartbeat";
     TaskQueue.execute := () |}.

Definition A := task_of "A".
Definition B := task_of "B".
Definition C := task_of "C".
Definition D := task_of "D".

(** A validator accepting every string but one. *)
Definition validate (v : value) : bool :=
  match v with
  | Str text => negb (bool_decide (text = "every now and then"))
  | _ => false
  end.

(** [String(v)] on parsed values whose numbers are integers of moderate
    size.  An array is the join of its elements, [null] counting as the
    empty string; an object with a property of its own named [toString]
    cannot be converted, since the property is not a function. *)
Fixpoint show (v : value) : completion string :=
  match v with
  | Undefined => Normal "undefined"
  | Null => Normal "null"
  | Bool true => Normal "true"
  | Bool false => Normal "false"
  | Num n => Normal (pretty n)
  | Str text => Normal text
  | Arr items =>
      (fix join (items : list value) : completion string :=
         match items with
         | [] => Normal ""
         | item :: rest =>
             first ← match item with
                     | Undefined | Null => Normal ""
                     | _ => show item
                     end;
             match rest with
             | [] => Normal first
             | _ => others ← join rest; Normal (first +:+ "," +:+ others)
             end
         end) items
  | Obj fields =>
      match assoc "toString" fields with
      | Undefined => Normal "[object Object]"
      | _ => Throw "TypeError"
      end
  end.

(** A body is represented by what the closure captured. *)
Definition body (channel : value) (job : Scheduler.JobDefinition)
    : value * Scheduler.JobDefinition :=
  (channel, job).

Definition digest : value :=
  Obj [("name", Str "digest"); ("schedule", Str "0 9 * * *");
       ("prompt", Str "Summarise the open pull requests");
       ("slackChannel", Str "C0123")].

Definition cleanup : value :=
  Obj [("name", Str "cleanup"); ("schedule", Str "every now and then");
       ("prompt", Str "Delete merged branches")].

Definition report : value :=
  Obj [("name", Str "report"); ("schedule", Str "0 18 * * 5");
       ("prompt", Str "Write the weekly report")].

(** A second job named [digest], and a job whose name is an object with a
    property [toString]: both pass the checks of the loader. *)
Definition digest_again : value :=
  Obj [("name", Str "digest"); ("schedule", Str "0 9 * * *");
       ("prompt", Str "List the failing builds");
       ("slackChannel", Str "C0456")].

Definition masked : value :=
  Obj [("name", Obj [("toString", Str "digest")]);
       ("schedule", Str "0 9 * * *");
       ("prompt", Str "Summarise the open pull requests");
       ("slackChannel", Str "C0123")].

Definition idle : Scheduler.t (value * Scheduler.JobDefinition) :=
  Scheduler.new (TaskQueue.new 2).

(** The scheduler after [start()] has loaded a list holding [digest]. *)
Definition boot : list (Scheduler.event (value * Scheduler.JobDefinition)) :=
  [Scheduler.Start (Scheduler.Parsed (Arr [digest])) false].

(** A parser that accepts one text only. *)
Definition parse_only_null (text : string) : option value :=
  if bool_decide (text = "null") then Some Null else None.

Definition truncated : WebhookServer.Request :=
  {| WebhookServer.x_hub_signature_256 := None;
     WebhookServer.x_github_delivery :=
       Some "72d3162e-cc78-11e3-81ab-4c9367dc0958";
     WebhookServer.rawBody := "{" |}.

Definition redelivery : WebhookServer.Request :=
  {| WebhookServer.x_hub_signature_256 := None;
     WebhookServer.x_github_delivery :=
       Some "72d3162e-cc78-11e3-81ab-4c9367dc0958";
     WebhookServer.rawBody := "null" |}.

(** A digest function returning two fixed hexadecimal digits. *)
Definition digest_stub (secret text : string) : string := "00".

(** A request signed with the wrong digest, and one whose signature header
    is cut short. *)
Definition forged : WebhookServer.Request :=
  {| WebhookServer.x_hub_signature_256 := Some "sha256=ff";
     WebhookServer.x_github_delivery :=
       Some "72d3162e-cc78-11e3-81ab-4c9367dc0958";
     WebhookServer.rawBody := "null" |}.

Definition cut_short : WebhookServer.Request :=
  {| WebhookServer.x_hub_signature_256 := Some "sha256=";
     WebhookServer.x_github_delivery :=
       Some "72d3162e-cc78-11e3-81ab-4c9367dc0958";
     WebhookServer.rawBody := "null" |}.

(** A request whose signature header is present but empty. *)
Definition blank : WebhookServer.Request :=
  {| WebhookServer.x_hub_signature_256 := Some "";
     WebhookServer.x_github_delivery :=
       Some "72d3162e-cc78-11e3-81ab-4c9367dc0958";
     WebhookServer.rawBody := "null" |}.

(** A [pull_request] event for pull request 7 of [acme/app]. *)
Definition pull_request_event (action : string) (draft : bool) : value :=
  Obj [("action", Str action);
       ("pull_request",
        Obj [("number", Num 7); ("title", Str "Fix the parser");
             ("draft", Bool draft)]);
       ("repository", Obj [("full_name", Str "acme/app")])].

(** The same event for a pull request whose number is an object with a
    property [toString]. *)
Definition masked_pull_request : value :=
  Obj [("action", Str "opened");
       ("pull_request",
        Obj [("number", Obj [("toString", Str "7")]);
             ("title", Str "Fix the parser"); ("draft", Bool false)]);
       ("repository", Obj [("full_name", Str "acme/app")])].

Definition review (repo number title : value) (isIncremental : bool)
    : value * value * value * bool :=
  (repo, number, title, isIncremental).

Definition pr_handler : GithubHandler.t (value * value * value * bool) :=
  {| GithubHandler.taskQueue := TaskQueue.new 1;
     GithubHandler.logger := [] |}.

(** FreeScout conversations, and a parser that knows three outputs of the
    [freescout] command. *)
Definition ticket (n : Z) : value :=
  Obj [("id", Num n); ("subject", Str "Cannot log in")].

(** A ticket whose id is an object with a property [toString]. *)
Definition masked_ticket : value :=
  Obj [("id", Obj [("toString", Str "42")]);
       ("subject", Str "Cannot log in")].

Definition parse_tickets (text : string) : option value :=
  if bool_decide (text = "inbox") then Some (Arr [ticket 41; ticket 42])
  else if bool_decide (text = "broken") then
    Some (Arr [ticket 41; Null; ticket 42])
  else if bool_decide (text = "masked") then
    Some (Arr [ticket 41; masked_ticket; ticket 42])
  else None.

Definition ticket_body (channel : string) (conv : value) (convId : string)
    : string * value * string :=
  (channel, conv, convId).

Definition desk : HeartbeatChecks.t (string * value * string) :=
  {| HeartbeatChecks.cache := Heartbeat.new;
     HeartbeatChecks.taskQueue := TaskQueue.new 1;
     HeartbeatChecks.logger := [] |}.

(** A Planka card, and a heartbeat whose queue runs [A] while the task the
    webhook enqueued for the card waits. *)
Definition card : value := Obj [("id", Num 7); ("listId", Str "doing")].

Definition card_body (cardId : string) : unit := ().

Definition card_waiting : HeartbeatChecks.t unit :=
  {| HeartbeatChecks.cache := Heartbeat.new;
     HeartbeatChecks.taskQueue :=
       TaskQueue.run
         [TaskQueue.Enqueue A; TaskQueue.Enqueue (task_of "planka-card-7")]
         (TaskQueue.new 1);
     HeartbeatChecks.logger := [] |}.

(** Planka webhook events for card 7: a move into the list [doing], and an
    assignment that names the list as well. *)
Definition move_event : value :=
  Obj [("type", Str "cardUpdate");
       ("data", Obj [("cardId", Num 7); ("listId", Str "doing")])].

Definition assignment_event : value :=
  Obj [("type", Str "cardMembershipCreate"); ("listId", Str "doing");
       ("cardMembership", Obj [("cardId", Num 7)])].

Definition card_work (cardId : value) : unit := ().

Definition planka_idle : PlankaHandler.t unit :=
  {| PlankaHandler.taskQueue := TaskQueue.new 1;
     PlankaHandler.logger := [] |}.

(** A heartbeat that shares the queue on which the webhook has enqueued
    card 7. *)
Definition card_enqueued : HeartbeatChecks.t unit :=
  {| HeartbeatChecks.cache := Heartbeat.new;
     HeartbeatChecks.taskQueue :=
       (TaskQueue.enqueue (PlankaHandler.card_task card_work "7" (Num 7))
          (PlankaHandler.taskQueue planka_idle)).2;
     HeartbeatChecks.logger := [] |}.

(** A heartbeat whose queue holds the review that the webhook enqueued for
    pull request 7 of [acme/app]. *)
Definition pr_body (channel repo : string) (pr : value)
    : value * value * value * bool :=
  (Str repo, pr, Str channel, false).

Definition pr_under_review : HeartbeatChecks.t (value * value * value * bool) :=
  {| HeartbeatChecks.cache := Heartbeat.new;
     HeartbeatChecks.taskQueue :=
       (TaskQueue.enqueue
          {| TaskQueue.id := "github-pr-acme/app-7";
             TaskQueue.source := "github";
             TaskQueue.execute :=
               review (Str "acme/app") (Num 7) (Str "Fix the parser") false |}
          (TaskQueue.new 2)).2;
     HeartbeatChecks.logger := [] |}.

End Examples.

(** * Properties of the task queue *)

Module TaskQueueFacts.
Import TaskQueue.

Section facts.
Context {Body : Type}.
Implicit Types (s : t Body) (task : QueuedTask Body) (k : string).
Implicit Types (evs : list (event Body)).
Implicit Types (q st : list (QueuedTask Body)).
Implicit Types (active : gmap string (QueuedTask Body)).
Implicit Types (lg : list (@log_entry)).

Lemma isPending_spec k s : isPending k s = true ↔ k ∈ keys (queue s).
Proof.
  unfold isPending. rewrite existsb_exists, list_elem_of_fmap.
  split.
  - intros (task & Hin & Heq). apply bool_decide_eq_true in Heq.
    exists task. split; [done | by apply list_elem_of_In].
  - intros (task & -> & Hin). exists task.
    split; [by apply list_elem_of_In | by apply bool_decide_eq_true].
Qed.

Lemma isActive_spec k s : isActive k s = true ↔ is_Some (activeTasks s !! k).
Proof. unfold isActive. apply bool_decide_eq_true. Qed.

Lemma isPending_false k s : isPending k s = false ↔ k ∉ keys (queue s).
Proof.
  rewrite <- isPending_spec. destruct (isPending k s); naive_solver.
Qed.

Lemma isActive_false k s : isActive k s = false ↔ activeTasks s !! k = None.
Proof.
  rewrite eq_None_not_Some, <- isActive_spec.
  destruct (isActive k s); naive_solver.
Qed.

Lemma admissible_disjoint s : admissible s → disjoint_keys s.
Proof.
  intros [_ Hin _] k [Ha Hp].
  apply isActive_spec in Ha. apply isPending_spec in Hp.
  rewrite (Hin k Hp) in Ha. by destruct Ha.
Qed.

Lemma admissible_ceiling s : admissible s → within_ceiling s.
Proof. intros [_ _ Hb]. exact Hb. Qed.

Lemma admissible_new (ceiling : Z) :
  0 ≤ ceiling → admissible (new (Body := Body) ceiling).
Proof.
  intros Hc. split; simpl.
  - constructor.
  - intros k Hk. by apply elem_of_nil in Hk.
  - rewrite map_size_empty. simpl. lia.
Qed.

Lemma admissible_log e s : admissible s → admissible (log e s).
Proof. intros [H1 H2 H3]. by split. Qed.

(** ** The drain loop *)

Lemma drain_loop_max max q active order lg st :
  maxConcurrent (drain_loop max q active order lg st) = max.
Proof.
  revert active order lg st. induction q as [|task rest IH]; intros; simpl; [done|].
  case_bool_decide; [apply IH | done].
Qed.

Lemma drain_loop_admissible max q active order lg st :
  NoDup (keys q) →
  (∀ k, k ∈ keys q → active !! k = None) →
  Z.of_nat (size active) ≤ max →
  admissible (drain_loop max q active order lg st).
Proof.
  revert active order lg st.
  induction q as [|task rest IH]; intros active order lg st Hnd Hin Hb; simpl.
  - split; simpl; [constructor | by intros k ?%elem_of_nil | done].
  - case_bool_decide as Hlt.
    + rewrite fmap_cons in Hnd. apply NoDup_cons in Hnd as [Hfresh Hnd].
      apply IH; [done | |].
      * intros k Hk. rewrite lookup_insert_ne.
        { apply Hin. rewrite fmap_cons. by apply elem_of_cons; right. }
        intros <-. by apply Hfresh.
      * rewrite map_size_insert_None; [lia|].
        apply Hin. rewrite fmap_cons. by apply elem_of_cons; left.
    + by split.
Qed.

Lemma drain_admissible s : admissible s → admissible (drain s).
Proof. intros [H1 H2 H3]. by apply drain_loop_admissible. Qed.

(** The loop keeps the admission order: what has started followed by what
    is pending is the same sequence before and after. *)
Lemma drain_loop_order max q active order lg st :
  started (drain_loop max q active order lg st)
    ++ queue (drain_loop max q active order lg st) = st ++ q.
Proof.
  revert active order lg st. induction q as [|task rest IH]; intros; simpl.
  - done.
  - case_bool_decide; simpl; [|done].
    rewrite IH. by rewrite <- app_assoc.
Qed.

Lemma drain_order s : started (drain s) ++ queue (drain s) = started s ++ queue s.
Proof. apply drain_loop_order. Qed.

(** The loop starts a prefix of the queue: these tasks are appended to
    [started] and their keys are added to the active map. *)
Lemma drain_loop_prefix max q active order lg st :
  ∃ n, let s' := drain_loop max q active order lg st in
       started s' = st ++ take n q ∧ queue s' = drop n q
       ∧ ∀ k, is_Some (activeTasks s' !! k) ↔
              is_Some (active !! k) ∨ k ∈ keys (take n q).
Proof.
  revert active order lg st. induction q as [|task rest IH]; intros; simpl.
  - exists 0%nat. simpl. rewrite app_nil_r. set_solver.
  - case_bool_decide.
    + destruct (IH (<[id task := task]> active)
                  (order_set (id task) active order)
                  (lg ++ [Info_started (id task) (source task)])
                  (st ++ [task])) as (n & Hs & Hq & Hk).
      exists (S n). simpl. rewrite Hs, Hq. rewrite <- app_assoc.
      split_and!; [done..|]. intros k. rewrite Hk.
      rewrite lookup_insert_is_Some, elem_of_cons.
      destruct (decide (id task = k)); naive_solver.
    + exists 0%nat. simpl. rewrite app_nil_r. set_solver.
Qed.

Lemma drain_prefix s :
  ∃ n, started (drain s) = started s ++ take n (queue s)
       ∧ queue (drain s) = drop n (queue s)
       ∧ ∀ k, is_Some (activeTasks (drain s) !! k) ↔
              is_Some (activeTasks s !! k) ∨ k ∈ keys (take n (queue s)).
Proof. apply drain_loop_prefix. Qed.

(** The log does not influence the loop. *)
Lemma drain_loop_log max q active order lg lg' st :
  queue (drain_loop max q active order lg st)
  = queue (drain_loop max q active order lg' st)
  ∧ activeTasks (drain_loop max q active order lg st)
    = activeTasks (drain_loop max q active order lg' st)
  ∧ started (drain_loop max q active order lg st)
    = started (drain_loop max q active order lg' st).
Proof.
  revert active order lg lg' st. induction q as [|task rest IH]; intros; simpl.
  - done.
  - case_bool_decide; [apply IH | done].
Qed.

(** With a free slot and a pending task, the loop starts the head. *)
Lemma drain_loop_head max task rest active order lg st :
  Z.of_nat (size active) < max →
  ∃ n, started (drain_loop max (task :: rest) active order lg st)
       = st ++ task :: take n rest
       ∧ is_Some (activeTasks (drain_loop max (task :: rest) active order lg st)
                    !! id task).
Proof.
  intros Hlt. simpl. rewrite bool_decide_eq_true_2 by done.
  destruct (drain_loop_prefix max rest (<[id task := task]> active)
              (order_set (id task) active order)
              (lg ++ [Info_started (id task) (source task)])
              (st ++ [task])) as (n & Hs & _ & Hk).
  exists n. split.
  - rewrite Hs. by rewrite <- app_assoc.
  - apply Hk. left. rewrite lookup_insert_eq. by eexists.
Qed.

(** ** [enqueue] *)

Lemma enqueue_duplicate task s :
  isActive (id task) s = true ∨ isPending (id task) s = true →
  enqueue task s = (false, log (Debug_skipping (id task) (source task)) s).
Proof.
  intros Hdup. unfold enqueue.
  destruct (isActive (id task) s), (isPending (id task) s);
    simpl; try done. by destruct Hdup.
Qed.

Lemma enqueue_fresh task s :
  isActive (id task) s = false → isPending (id task) s = false →
  enqueue task s
  = (true,
     drain (log (Info_enqueued (id task) (source task)
                   (pendingCount (push task s)) (activeCount (push task s)))
              (push task s))).
Proof. intros Ha Hp. unfold enqueue. by rewrite Ha, Hp. Qed.

Lemma push_admissible task s :
  isActive (id task) s = false → isPending (id task) s = false →
  admissible s → admissible (push task s).
Proof.
  intros Ha%isActive_false Hp%isPending_false [Hnd Hin Hb].
  split; simpl; [| |done].
  - rewrite fmap_app. apply NoDup_app. split_and!; [done| |].
    + intros k Hk Hk'. apply list_elem_of_singleton in Hk'. by subst.
    + apply NoDup_singleton.
  - intros k. rewrite fmap_app, elem_of_app. intros [Hk|Hk]; [by apply Hin|].
    apply list_elem_of_singleton in Hk. by subst.
Qed.

Lemma enqueue_admissible task s :
  admissible s → admissible (enqueue task s).2.
Proof.
  intros Hs. unfold enqueue.
  destruct (isActive (id task) s) eqn:Ha; simpl.
  { by apply admissible_log. }
  destruct (isPending (id task) s) eqn:Hp; simpl.
  { by apply admissible_log. }
  by apply drain_admissible, admissible_log, push_admissible.
Qed.

(** ** Settlement of a body *)

Lemma settle_state task o s :
  (settle task o s).2
  = on_finally task
      (match o with Fulfilled => s | Rejected err => on_error task err s end).
Proof. by destruct o. Qed.

Lemma on_finally_admissible task s :
  admissible s → admissible (on_finally task s).
Proof.
  intros [Hnd Hin Hb]. unfold on_finally.
  apply drain_admissible, admissible_log. split; simpl; [done | |].
  - intros k Hk. rewrite lookup_delete_None. right. by apply Hin.
  - pose proof (map_size_delete (id task) (activeTasks s)) as Hsz.
    destruct (activeTasks s !! id task); simpl in Hsz; lia.
Qed.

Lemma settle_admissible task o s :
  admissible s → admissible (settle task o s).2.
Proof.
  intros Hs. rewrite settle_state. apply on_finally_admissible.
  destruct o; [done | by apply admissible_log].
Qed.

(** ** Runs *)

Lemma step_admissible s (e : event Body) : admissible s → admissible (step s e).
Proof.
  destruct e; simpl; [apply enqueue_admissible | apply settle_admissible].
Qed.

Lemma run_admissible evs s : admissible s → admissible (run evs s).
Proof.
  revert s. induction evs as [|e evs IH]; intros s Hs; simpl; [done|].
  by apply IH, step_admissible.
Qed.

Lemma drain_max s : maxConcurrent (drain s) = maxConcurrent s.
Proof. apply drain_loop_max. Qed.

Lemma step_max s (e : event Body) : maxConcurrent (step s e) = maxConcurrent s.
Proof.
  destruct e as [task|task o]; simpl.
  - unfold enqueue. destruct (_ || _); simpl; [done|]. by rewrite drain_max.
  - rewrite settle_state. unfold on_finally. rewrite drain_max.
    by destruct o.
Qed.

Lemma run_max evs s : maxConcurrent (run evs s) = maxConcurrent s.
Proof.
  revert s. induction evs as [|e evs IH]; intros s; simpl; [done|].
  by rewrite IH, step_max.
Qed.

(** ** Admission order *)

Lemma tracked_new (ceiling : Z) : tracked (new (Body := Body) ceiling).
Proof. intros k. simpl. rewrite lookup_empty. by intros []. Qed.

Lemma tracked_drain s : tracked s → tracked (drain s).
Proof.
  intros Hs k. destruct (drain_prefix s) as (n & Hst & _ & Hk).
  rewrite Hk, Hst, fmap_app, elem_of_app. intros [?|?]; [left|right]; auto.
Qed.

Lemma tracked_on_finally task s : tracked s → tracked (on_finally task s).
Proof.
  intros Hs. unfold on_finally. apply tracked_drain.
  intros k. simpl. rewrite lookup_delete_is_Some. intros [_ ?]. by apply Hs.
Qed.

Lemma on_finally_order task s :
  started (on_finally task s) ++ queue (on_finally task s)
  = started s ++ queue s.
Proof. unfold on_finally. by rewrite drain_order. Qed.

(** Tasks with fresh keys are all admitted, and the sequence "started, then
    pending" grows by exactly the offered tasks, in the order offered. *)
Lemma run_order evs s :
  tracked s →
  NoDup (keys (started s ++ queue s ++ offered evs)) →
  tracked (run evs s)
  ∧ started (run evs s) ++ queue (run evs s)
    = started s ++ queue s ++ offered evs.
Proof.
  revert s. induction evs as [|e evs IH]; intros s Htr Hnd; simpl.
  { by rewrite app_nil_r. }
  destruct e as [task|task o]; simpl in *.
  - assert ((id task ∉ keys (started s)) ∧ (id task ∉ keys (queue s)))
      as [Hst Hq].
    { rewrite !fmap_app, fmap_cons in Hnd.
      apply NoDup_app in Hnd as (_ & Hd1 & Hnd).
      apply NoDup_app in Hnd as (_ & Hd2 & _).
      split; intros Hin; [eapply Hd1 | eapply Hd2]; eauto;
        rewrite ?elem_of_app, elem_of_cons; auto. }
    assert (isActive (id task) s = false) as Ha.
    { apply isActive_false, eq_None_not_Some. intros ?. by apply Hst, Htr. }
    assert (isPending (id task) s = false) as Hp.
    { by apply isPending_false. }
    rewrite (enqueue_fresh _ _ Ha Hp). simpl.
    set (s1 := drain _).
    assert (started s1 ++ queue s1 = started s ++ queue s ++ [task]) as Hord.
    { subst s1. rewrite drain_order. simpl. by rewrite app_assoc. }
    destruct (IH s1) as [Htr' Hrun].
    + subst s1. by apply tracked_drain.
    + rewrite app_assoc, Hord, <- !app_assoc. simpl. done.
    + split; [done|]. rewrite Hrun, app_assoc, Hord, <- !app_assoc. done.
  - rewrite settle_state.
    set (s0 := match o with Fulfilled => s | Rejected err => _ end).
    assert (tracked s0 ∧ started s0 = started s ∧ queue s0 = queue s)
      as (Htr0 & Hst0 & Hq0) by (subst s0; by destruct o).
    destruct (IH (on_finally task s0)) as [Htr' Hrun].
    + by apply tracked_on_finally.
    + by rewrite app_assoc, on_finally_order, Hst0, Hq0, <- app_assoc.
    + split; [done|].
      by rewrite Hrun, app_assoc, on_finally_order, Hst0, Hq0, <- app_assoc.
Qed.

(** ** The completion path *)

Lemma keys_take_subseteq n q k : k ∈ keys (take n q) → k ∈ keys q.
Proof. rewrite fmap_take. apply subseteq_take. Qed.

Lemma keys_drop_subseteq n q k : k ∈ keys (drop n q) → k ∈ keys q.
Proof. rewrite fmap_drop. apply subseteq_drop. Qed.

(** The [.finally] callback starts a prefix of the pending tasks; the
    active keys afterwards are the other keys that were active plus the
    keys of that prefix. *)
Lemma on_finally_prefix task s :
  ∃ n, started (on_finally task s) = started s ++ take n (queue s)
       ∧ queue (on_finally task s) = drop n (queue s)
       ∧ ∀ k, is_Some (activeTasks (on_finally task s) !! k) ↔
              (id task ≠ k ∧ is_Some (activeTasks s !! k))
              ∨ k ∈ keys (take n (queue s)).
Proof.
  unfold on_finally.
  match goal with
  | |- context [drain ?s'] =>
      destruct (drain_prefix s') as (n & Hst & Hq & Hk)
  end.
  exists n. simpl in *. split_and!; [done..|].
  intros k. by rewrite Hk, lookup_delete_is_Some.
Qed.

(** When the settled task held a slot and a task is pending, the callback
    starts the head of the queue. *)
Lemma on_finally_head task s next rest :
  admissible s → is_Some (activeTasks s !! id task) →
  queue s = next :: rest →
  is_Some (activeTasks (on_finally task s) !! id next)
  ∧ ∃ n, started (on_finally task s) = started s ++ next :: take n rest.
Proof.
  intros [_ _ Hb] Hact Hq. unfold on_finally, drain. simpl. rewrite Hq.
  assert (Z.of_nat (size (delete (id task) (activeTasks s)))
          < maxConcurrent s) as Hfree.
  { rewrite map_size_delete_Some by done.
    destruct Hact as [x Hx].
    assert (size (activeTasks s) ≠ 0%nat).
    { intros Hz%map_size_empty_inv. by rewrite Hz, lookup_empty in Hx. }
    lia. }
  edestruct (drain_loop_head (maxConcurrent s) next rest) as (n & Hst & Hin);
    [exact Hfree|].
  split; [exact Hin | by exists n].
Qed.

(** The log written by the [.catch] callback does not change what the
    [.finally] callback does to the queue. *)
Lemma on_finally_log task e s :
  queue (on_finally task (log e s)) = queue (on_finally task s)
  ∧ activeTasks (on_finally task (log e s)) = activeTasks (on_finally task s)
  ∧ started (on_finally task (log e s)) = started (on_finally task s).
Proof. unfold on_finally, drain. simpl. apply drain_loop_log. Qed.

(** ** A queue with ceiling 1 *)

Lemma drain_loop_full max q active order lg st :
  ¬ (Z.of_nat (size active) < max) →
  drain_loop max q active order lg st
  = {| queue := q; activeTasks := active; activeOrder := order;
       maxConcurrent := max; logger := lg; started := st |}.
Proof.
  intros Hfull. destruct q; simpl; [done|].
  by rewrite bool_decide_eq_false_2.
Qed.

Lemma serial_new : serial_state (new (Body := Body) 1) ∅ [] [].
Proof. by split. Qed.

Lemma serial_enqueue_idle task s st :
  serial_state s ∅ [] st →
  serial_state (enqueue task s).2 {[id task := task]} [] (st ++ [task]).
Proof.
  destruct s as [q m mx lg st']. intros [? ? ? ?]; simpl in *; subst.
  unfold enqueue, isActive, isPending; simpl.
  rewrite lookup_empty, bool_decide_eq_false_2 by (by intros []). simpl.
  unfold drain; simpl. rewrite map_size_empty. simpl.
  by split.
Qed.

Lemma serial_enqueue_busy task current s q st :
  id task ≠ id current → id task ∉ keys q →
  serial_state s {[id current := current]} q st →
  serial_state (enqueue task s).2 {[id current := current]} (q ++ [task]) st.
Proof.
  intros Hne Hq [Hmax Hact Hqueue Hst].
  assert (isActive (id task) s = false) as Ha.
  { apply isActive_false. rewrite Hact. by rewrite lookup_singleton_ne. }
  assert (isPending (id task) s = false) as Hp.
  { apply isPending_false. by rewrite Hqueue. }
  rewrite (enqueue_fresh _ _ Ha Hp). simpl.
  unfold drain. simpl. rewrite drain_loop_full.
  - split; simpl; congruence.
  - rewrite Hact, Hmax, map_size_singleton. simpl. lia.
Qed.

Lemma serial_settle task o s next rest st :
  serial_state s {[id task := task]} (next :: rest) st →
  serial_state (settle task o s).2 {[id next := next]} rest (st ++ [next]).
Proof.
  destruct s as [q' m mx lg st']. intros [? ? ? ?]; simpl in *; subst.
  rewrite settle_state. unfold on_finally.
  destruct o; simpl; unfold drain; simpl;
    rewrite delete_singleton_eq, map_size_empty; simpl;
    (rewrite drain_loop_full; [by split|]);
    rewrite insert_empty, map_size_singleton; simpl; lia.
Qed.

(** ** The claims about the queue *)

(** C1.  On a queue built with a positive ceiling, after any sequence of
    [enqueue] calls and body settlements no key is both active and pending,
    and the number of active tasks is at most the ceiling.  Every state the
    queue goes through is the end state of a prefix of such a sequence. *)
Theorem queue_invariant (ceiling : Z) evs :
  0 < ceiling →
  disjoint_keys (run evs (new ceiling))
  ∧ Z.of_nat (activeCount (run evs (new ceiling))) ≤ ceiling.
Proof.
  intros Hpos.
  assert (admissible (run evs (new (Body := Body) ceiling))) as Hadm.
  { apply run_admissible, admissible_new. lia. }
  split.
  - by apply admissible_disjoint.
  - apply admissible_ceiling in Hadm. unfold within_ceiling in Hadm.
    by rewrite run_max in Hadm.
Qed.

(** C2.  [enqueue] with a key that is already pending or active returns
    [false] and leaves the pending list, the active map, both counts and
    the status snapshot as they were; no body is started. *)
Theorem enqueue_duplicate_noop task s :
  isActive (id task) s = true ∨ isPending (id task) s = true →
  (enqueue task s).1 = false
  ∧ queue (enqueue task s).2 = queue s
  ∧ activeTasks (enqueue task s).2 = activeTasks s
  ∧ pendingCount (enqueue task s).2 = pendingCount s
  ∧ activeCount (enqueue task s).2 = activeCount s
  ∧ getStatus (enqueue task s).2 = getStatus s
  ∧ started (enqueue task s).2 = started s.
Proof. intros Hdup. by rewrite (enqueue_duplicate _ _ Hdup). Qed.

(** C3.  [enqueue] with a key that is neither pending nor active returns
    [true], puts the task at the tail of the pending list and then drains,
    so the task is last in the sequence "started, then pending".  With
    ceiling 1 and tasks [a], [b], [c] of distinct keys offered in that
    order, whatever the interleaving with settlements, the bodies are
    started in the order [a], [b], [c]: [b] and [c] wait while [a] runs, and
    each settlement starts the next one. *)
Theorem enqueue_fresh_fifo s task a b c evs o1 o2 :
  isActive (id task) s = false → isPending (id task) s = false →
  NoDup [id a; id b; id c] → offered evs = [a; b; c] →
  ((enqueue task s).1 = true
   ∧ (enqueue task s).2
     = drain (log (Info_enqueued (id task) (source task)
                     (pendingCount (push task s)) (activeCount (push task s)))
                (push task s))
   ∧ queue (push task s) = queue s ++ [task]
   ∧ started (enqueue task s).2 ++ queue (enqueue task s).2
     = started s ++ queue s ++ [task])
  ∧ started (run evs (new 1)) `prefix_of` [a; b; c]
  ∧ started (run [Enqueue a; Enqueue b; Enqueue c] (new 1)) = [a]
  ∧ started (run [Enqueue a; Enqueue b; Enqueue c; Settle a o1] (new 1))
    = [a; b]
  ∧ started (run [Enqueue a; Enqueue b; Enqueue c; Settle a o1; Settle b o2]
               (new 1))
    = [a; b; c].
Proof.
  intros Ha Hp Hnd Hoff.
  assert (id a ≠ id b ∧ id a ≠ id c ∧ id b ≠ id c) as (Hab & Hac & Hbc).
  { apply NoDup_cons in Hnd as [Hx Hnd]. apply NoDup_cons in Hnd as [Hy _].
    rewrite !elem_of_cons in Hx, Hy.
    split_and!; intros Heq;
      [apply Hx; left | apply Hx; right; apply elem_of_cons; left
      | apply Hy; left]; done. }
  split; [|split].
  - rewrite (enqueue_fresh _ _ Ha Hp). simpl. split_and!; [done..|].
    rewrite drain_order. simpl. by rewrite app_assoc.
  - destruct (run_order evs (new 1)) as [_ Hord].
    + apply tracked_new.
    + simpl. by rewrite Hoff.
    + simpl in Hord. rewrite Hoff in Hord. rewrite <- Hord.
      by apply prefix_app_r.
  - pose proof (serial_enqueue_idle a _ _ serial_new) as H1. simpl in H1.
    assert (id b ∉ keys ([] : list (QueuedTask Body))) as Hbn.
    { apply not_elem_of_nil. }
    pose proof (serial_enqueue_busy b a _ _ _ (not_eq_sym Hab) Hbn H1) as H2.
    simpl in H2.
    assert (id c ∉ keys [b]) as Hcb.
    { rewrite list_fmap_singleton, list_elem_of_singleton. congruence. }
    pose proof (serial_enqueue_busy c a _ _ _ (not_eq_sym Hac) Hcb H2) as H3.
    simpl in H3.
    pose proof (serial_settle a o1 _ _ _ _ H3) as H4.
    pose proof (serial_settle b o2 _ _ _ _ H4) as H5.
    split_and!.
    + apply (serial_started _ _ _ _ H3).
    + apply (serial_started _ _ _ _ H4).
    + apply (serial_started _ _ _ _ H5).
Qed.

(** C4.  When the body of an active task settles, with success or with
    failure, the end of the promise chain is fulfilled (the rejection is
    consumed by the [.catch] callback), the pending list, the active map and
    the started bodies are what the [.finally] callback alone produces
    (delete the key, then drain), the settled task is neither active nor
    pending afterwards and is not among the bodies started by the drain,
    and if a task was pending its head is now active and has been
    started. *)
Theorem settle_completion_path (ceiling : Z) evs task o :
  0 < ceiling →
  isActive (id task) (run evs (new ceiling)) = true →
  (settle task o (run evs (new ceiling))).1 = Fulfilled
  ∧ (queue (settle task o (run evs (new ceiling))).2
       = queue (on_finally task (run evs (new ceiling)))
     ∧ activeTasks (settle task o (run evs (new ceiling))).2
       = activeTasks (on_finally task (run evs (new ceiling)))
     ∧ started (settle task o (run evs (new ceiling))).2
       = started (on_finally task (run evs (new ceiling))))
  ∧ isActive (id task) (settle task o (run evs (new ceiling))).2 = false
  ∧ isPending (id task) (settle task o (run evs (new ceiling))).2 = false
  ∧ (∃ n, started (settle task o (run evs (new ceiling))).2
          = started (run evs (new ceiling))
            ++ take n (queue (run evs (new ceiling)))
          ∧ queue (settle task o (run evs (new ceiling))).2
            = drop n (queue (run evs (new ceiling)))
          ∧ id task ∉ keys (take n (queue (run evs (new ceiling)))))
  ∧ (∀ next rest,
       queue (run evs (new ceiling)) = next :: rest →
       isActive (id next) (settle task o (run evs (new ceiling))).2 = true
       ∧ ∃ n, started (settle task o (run evs (new ceiling))).2
              = started (run evs (new ceiling)) ++ next :: take n rest).
Proof.
  intros Hpos Hact.
  set (s := run evs (new ceiling)) in *.
  assert (admissible s) as Hadm.
  { apply run_admissible, admissible_new. lia. }
  apply isActive_spec in Hact.
  assert (id task ∉ keys (queue s)) as Hnp.
  { intros Hin. apply (pending_inactive _ Hadm) in Hin.
    rewrite Hin in Hact. by destruct Hact. }
  assert (queue (settle task o s).2 = queue (on_finally task s)
          ∧ activeTasks (settle task o s).2 = activeTasks (on_finally task s)
          ∧ started (settle task o s).2 = started (on_finally task s))
    as (Hq & Ha & Hst).
  { rewrite settle_state. destruct o; [done | apply on_finally_log]. }
  destruct (on_finally_prefix task s) as (n & Hst' & Hq' & Hk).
  assert (id task ∉ keys (take n (queue s))) as Hnt.
  { intros Hin. by apply Hnp, (keys_take_subseteq n). }
  split_and!; try done.
  - by destruct o.
  - apply isActive_false, eq_None_not_Some. rewrite Ha, Hk. naive_solver.
  - apply isPending_false. rewrite Hq, Hq'.
    intros Hin. by apply Hnp, (keys_drop_subseteq n).
  - exists n. by rewrite Hst, Hq.
  - intros next rest Hqueue.
    destruct (on_finally_head task s next rest Hadm Hact Hqueue)
      as [Hin [m Hm]].
    split.
    + apply isActive_spec. by rewrite Ha.
    + exists m. by rewrite Hst.
Qed.

(** ** Further properties of the queue *)

(** After the loop either nothing is pending or no slot is free. *)
Lemma drain_loop_saturated max q active order lg st :
  queue (drain_loop max q active order lg st) = []
  ∨ max ≤ Z.of_nat (size (activeTasks (drain_loop max q active order lg st))).
Proof.
  revert active order lg st. induction q as [|task rest IH]; intros; simpl.
  - by left.
  - case_bool_decide; [apply IH | right; simpl; lia].
Qed.

Lemma step_saturated s (e : event Body) :
  queue s = [] ∨ maxConcurrent s ≤ Z.of_nat (size (activeTasks s)) →
  queue (step s e) = []
  ∨ maxConcurrent (step s e) ≤ Z.of_nat (size (activeTasks (step s e))).
Proof.
  intros Hs. destruct e as [task|task o]; simpl.
  - unfold enqueue. destruct (_ || _); simpl; [done|].
    rewrite drain_max. apply drain_loop_saturated.
  - rewrite settle_state. unfold on_finally. rewrite drain_max.
    destruct o; apply drain_loop_saturated.
Qed.

Lemma run_saturated evs s :
  queue s = [] ∨ maxConcurrent s ≤ Z.of_nat (size (activeTasks s)) →
  queue (run evs s) = []
  ∨ maxConcurrent (run evs s) ≤ Z.of_nat (size (activeTasks (run evs s))).
Proof.
  revert s. induction evs as [|e evs IH]; intros s Hs; simpl; [done|].
  by apply IH, step_saturated.
Qed.

(** No slot stays free while a task waits: on a queue built with a
    non-negative ceiling, whenever a task is pending after a sequence of
    [enqueue] calls and settlements, exactly [ceiling] tasks are active. *)
Theorem pending_means_full (ceiling : Z) evs :
  0 ≤ ceiling →
  (0 < pendingCount (run evs (new ceiling)))%nat →
  Z.of_nat (activeCount (run evs (new ceiling))) = ceiling.
Proof.
  intros Hc Hpending.
  pose proof (run_admissible evs (new ceiling) (admissible_new ceiling Hc))
    as [_ _ Hbound].
  destruct (run_saturated evs (new ceiling)) as [Hempty|Hfull].
  - by left.
  - unfold pendingCount in Hpending. rewrite Hempty in Hpending.
    simpl in Hpending. lia.
  - rewrite run_max in Hbound, Hfull. simpl in *. unfold activeCount. lia.
Qed.

(** ** Accounting of admitted tasks *)

Lemma step_order s (e : event Body) :
  started (step s e) ++ queue (step s e)
  = started s ++ queue s
    ++ match e with
       | Enqueue task => if (enqueue task s).1 then [task] else []
       | Settle _ _ => []
       end.
Proof.
  destruct e as [task|task o]; simpl.
  - unfold enqueue. destruct (_ || _); simpl.
    + by rewrite app_nil_r.
    + rewrite drain_order. simpl. by rewrite app_assoc.
  - rewrite settle_state, on_finally_order, app_nil_r. by destruct o.
Qed.

Lemma enqueue_order task s :
  started (enqueue task s).2 ++ queue (enqueue task s).2
  = started s ++ queue s ++ (if (enqueue task s).1 then [task] else []).
Proof. exact (step_order s (Enqueue task)). Qed.

Lemma run_accounting evs s :
  started (run evs s) ++ queue (run evs s)
  = started s ++ queue s ++ admitted evs s.
Proof.
  revert s. induction evs as [|e evs IH]; intros s; simpl.
  { by rewrite app_nil_r. }
  rewrite IH, app_assoc, step_order.
  destruct e as [task|task o]; simpl; by rewrite <- ?app_assoc, ?app_nil_r.
Qed.

(** Nothing is lost, duplicated or reordered: after any sequence of
    [enqueue] calls and settlements, the bodies started so far followed by
    the pending tasks are exactly the tasks for which [enqueue] answered
    [true], in the order of the calls.  A task whose [enqueue] answered
    [false] is never started. *)
Theorem started_then_pending_is_admitted (ceiling : Z) evs :
  started (run evs (new ceiling)) ++ queue (run evs (new ceiling))
  = admitted evs (new ceiling).
Proof. by rewrite run_accounting. Qed.

(** ** A ceiling that admits nothing *)

Lemma drain_loop_closed max q order lg st :
  max ≤ 0 →
  drain_loop max q (∅ : gmap string (QueuedTask Body)) order lg st
  = {| queue := q; activeTasks := ∅; activeOrder := order;
       maxConcurrent := max; logger := lg; started := st |}.
Proof.
  intros Hmax. apply drain_loop_full. rewrite map_size_empty. simpl. lia.
Qed.

Lemma step_closed s (e : event Body) :
  maxConcurrent s ≤ 0 → activeTasks s = ∅ → started s = [] →
  activeTasks (step s e) = ∅ ∧ started (step s e) = [].
Proof.
  intros Hmax Hact Hst. destruct e as [task|task o]; simpl.
  - unfold enqueue. destruct (_ || _); simpl; [done|].
    unfold drain. simpl. rewrite Hact, drain_loop_closed by done. done.
  - rewrite settle_state. unfold on_finally, drain.
    destruct o; simpl; rewrite Hact, delete_empty, drain_loop_closed by done;
      done.
Qed.

(** With a ceiling of zero or less (for instance [MAX_CONCURRENT=0]) the
    queue accepts tasks but never starts one: every admitted task stays
    pending, whatever happens. *)
Theorem closed_queue_starts_nothing (ceiling : Z) evs :
  ceiling ≤ 0 →
  started (run evs (new ceiling)) = []
  ∧ activeCount (run evs (new ceiling)) = 0%nat
  ∧ queue (run evs (new ceiling)) = admitted evs (new ceiling).
Proof.
  intros Hc.
  assert (activeTasks (run evs (new (Body := Body) ceiling)) = ∅
          ∧ started (run evs (new (Body := Body) ceiling)) = [])
    as [Hact Hst].
  { assert (∀ s, maxConcurrent s ≤ 0 → activeTasks s = ∅ → started s = [] →
              activeTasks (run evs s) = ∅ ∧ started (run evs s) = []) as Hrun.
    { induction evs as [|e evs IH]; intros s Hmax Ha Hs; simpl; [done|].
      destruct (step_closed s e Hmax Ha Hs) as [Ha' Hs'].
      apply IH; [by rewrite step_max | done..]. }
    by apply Hrun. }
  split_and!; [done | |].
  - unfold activeCount. by rewrite Hact, map_size_empty.
  - pose proof (run_accounting evs (new ceiling)) as Hacc.
    by rewrite Hst in Hacc.
Qed.

(** ** Keys are only reserved while in flight *)

(** Once the body of an active task has settled, with either outcome, the
    queue accepts a task with the same key again. *)
Theorem settled_key_is_accepted_again (ceiling : Z) evs task o task' :
  0 ≤ ceiling →
  isActive (id task) (run evs (new ceiling)) = true →
  id task' = id task →
  (enqueue task' (settle task o (run evs (new ceiling))).2).1 = true.
Proof.
  intros Hc Hact Hid.
  set (s := run evs (new ceiling)) in *.
  assert (admissible s) as Hadm by by apply run_admissible, admissible_new.
  apply isActive_spec in Hact.
  assert (id task ∉ keys (queue s)) as Hnp.
  { intros Hin. apply (pending_inactive _ Hadm) in Hin.
    rewrite Hin in Hact. by destruct Hact. }
  rewrite settle_state.
  set (s0 := match o with Fulfilled => s | Rejected err => _ end).
  assert (queue s0 = queue s ∧ activeTasks s0 = activeTasks s) as [Hq0 Ha0].
  { subst s0. by destruct o. }
  destruct (on_finally_prefix task s0) as (n & _ & Hq & Hk).
  rewrite enqueue_fresh; [done | |]; rewrite Hid.
  - apply isActive_false, eq_None_not_Some. rewrite Hk, Hq0.
    intros [[? _]|Hin]; [done|]. by apply Hnp, (keys_take_subseteq n).
  - apply isPending_false. rewrite Hq, Hq0.
    intros Hin. by apply Hnp, (keys_drop_subseteq n).
Qed.

(** ** The status snapshot *)

Lemma ordered_new (ceiling : Z) : ordered (new (Body := Body) ceiling).
Proof.
  split; simpl; [constructor | | done].
  intros k. rewrite lookup_empty. split; [by intros ?%elem_of_nil|].
  by intros [].
Qed.

Lemma ordered_log e s : ordered s → ordered (log e s).
Proof. by intros []. Qed.

Lemma drain_loop_ordered max q active order lg st :
  NoDup order →
  (∀ k, k ∈ order ↔ is_Some (active !! k)) →
  order `sublist_of` keys st →
  ordered (drain_loop max q active order lg st).
Proof.
  revert active order lg st.
  induction q as [|task rest IH]; intros active order lg st Hnd Hkeys Hsub;
    simpl; [by split|].
  case_bool_decide; [|by split].
  unfold order_set. apply IH.
  - case_bool_decide as Hin; [done|].
    apply NoDup_app. split; [done|]. split; [|apply NoDup_singleton].
    intros k Hk ->%list_elem_of_singleton. by apply Hin, Hkeys.
  - intros k. rewrite lookup_insert_is_Some.
    case_bool_decide as Hin.
    + rewrite Hkeys. destruct (decide (id task = k)) as [<-|]; naive_solver.
    + rewrite elem_of_app, list_elem_of_singleton, Hkeys.
      destruct (decide (id task = k)); naive_solver.
  - rewrite fmap_app. case_bool_decide.
    + by apply sublist_inserts_r.
    + by apply sublist_app.
Qed.

Lemma ordered_drain s : ordered s → ordered (drain s).
Proof. intros [H1 H2 H3]. by apply drain_loop_ordered. Qed.

Lemma ordered_step s (e : event Body) : ordered s → ordered (step s e).
Proof.
  intros Hs. destruct e as [task|task o]; simpl.
  - unfold enqueue. destruct (_ || _); simpl; [by apply ordered_log|].
    apply ordered_drain, ordered_log. by destruct Hs.
  - rewrite settle_state. unfold on_finally.
    apply ordered_drain, ordered_log.
    assert (ordered (match o with
                     | Fulfilled => s
                     | Rejected err => on_error task err s
                     end)) as [Hnd Hkeys Hsub].
    { destruct o; [done | by apply ordered_log]. }
    split; simpl.
    + by apply NoDup_filter.
    + intros k. unfold order_delete.
      rewrite list_elem_of_filter, lookup_delete_is_Some, Hkeys.
      naive_solver.
    + etrans; [apply sublist_filter | done].
Qed.

Lemma ordered_run evs s : ordered s → ordered (run evs s).
Proof.
  revert s. induction evs as [|e evs IH]; intros s Hs; simpl; [done|].
  by apply IH, ordered_step.
Qed.


(** ** Keys in flight *)

(** Whatever [enqueue] answers, the key of the task is in flight
    afterwards: active or pending. *)
Lemma enqueue_in_flight task s :
  isActive (id task) (enqueue task s).2 = true
  ∨ isPending (id task) (enqueue task s).2 = true.
Proof.
  unfold enqueue.
  destruct (isActive (id task) s) eqn:Ha; simpl; [by left|].
  destruct (isPending (id task) s) eqn:Hp; simpl; [by right|].
  set (s1 := log _ (push task s)).
  destruct (drain_prefix s1) as (n & _ & Hq & Hk).
  assert (id task ∈ keys (queue s1)) as Hin.
  { subst s1. simpl. rewrite fmap_app, elem_of_app. right.
    by apply list_elem_of_singleton. }
  rewrite <- (take_drop n (queue s1)), fmap_app, elem_of_app in Hin.
  destruct Hin as [Hin|Hin].
  - left. apply isActive_spec, Hk. by right.
  - right. apply isPending_spec. by rewrite Hq.
Qed.

(** [enqueue] does not bring any other key in flight. *)
Lemma enqueue_other_key task k s :
  k ≠ id task →
  isActive k s = false → isPending k s = false →
  isActive k (enqueue task s).2 = false
  ∧ isPending k (enqueue task s).2 = false.
Proof.
  intros Hne Ha Hp. unfold enqueue.
  destruct (isActive (id task) s || isPending (id task) s); simpl; [done|].
  set (s1 := log _ (push task s)).
  destruct (drain_prefix s1) as (n & _ & Hq & Hk).
  apply isActive_false in Ha. apply isPending_false in Hp.
  assert (k ∉ keys (queue s1)) as Hnot.
  { subst s1. simpl. rewrite fmap_app, elem_of_app.
    intros [?|Hin%list_elem_of_singleton]; [done|]. by apply Hne. }
  split.
  - apply isActive_false, eq_None_not_Some. rewrite Hk.
    intros [Hwas|Hin].
    + subst s1. simpl in Hwas. rewrite Ha in Hwas. by destruct Hwas.
    + by apply Hnot, (keys_take_subseteq n).
  - apply isPending_false. rewrite Hq. intros Hin.
    by apply Hnot, (keys_drop_subseteq n).
Qed.

(** On a queue with nothing waiting and a free slot the task is started
    by the call itself. *)
Lemma enqueue_starts_when_free task s :
  queue s = [] → Z.of_nat (activeCount s) < maxConcurrent s →
  isActive (id task) (enqueue task s).2 = true.
Proof.
  intros Hempty Hroom. unfold enqueue.
  destruct (isActive (id task) s) eqn:Ha; simpl; [done|].
  assert (isPending (id task) s = false) as ->.
  { unfold isPending. by rewrite Hempty. }
  unfold drain, push. simpl. rewrite Hempty. simpl.
  unfold activeCount in Hroom. rewrite bool_decide_eq_true_2 by done.
  simpl. apply isActive_spec. simpl. rewrite lookup_insert_eq. by eexists.
Qed.

(** A key that is in flight stays in flight across [enqueue]: keys only
    leave the queue when a body settles. *)
Lemma enqueue_keeps_in_flight task k s :
  isActive k s = true ∨ isPending k s = true →
  isActive k (enqueue task s).2 = true
  ∨ isPending k (enqueue task s).2 = true.
Proof.
  intros Hflight. unfold enqueue.
  destruct (isActive (id task) s || isPending (id task) s); simpl; [done|].
  set (s1 := log _ (push task s)).
  destruct (drain_prefix s1) as (n & _ & Hq & Hk).
  destruct Hflight as [Ha|Hp].
  - left. apply isActive_spec, Hk. left. by apply isActive_spec in Ha.
  - apply isPending_spec in Hp.
    assert (k ∈ keys (queue s1)) as Hin.
    { subst s1. simpl. rewrite fmap_app, elem_of_app. by left. }
    rewrite <- (take_drop n (queue s1)), fmap_app, elem_of_app in Hin.
    destruct Hin as [Hin|Hin].
    + left. apply isActive_spec, Hk. by right.
    + right. apply isPending_spec. by rewrite Hq.
Qed.

(** Two [enqueue] calls in a row with the same key admit one task: the
    second call answers [false], whatever the first one answered, and
    changes nothing but the log. *)
Theorem enqueue_twice_admits_once task task' s :
  id task' = id task →
  (enqueue task' (enqueue task s).2).1 = false
  ∧ queue (enqueue task' (enqueue task s).2).2 = queue (enqueue task s).2
  ∧ activeTasks (enqueue task' (enqueue task s).2).2
    = activeTasks (enqueue task s).2
  ∧ started (enqueue task' (enqueue task s).2).2
    = started (enqueue task s).2.
Proof.
  intros Hid. rewrite (enqueue_duplicate task' (enqueue task s).2); [done|].
  rewrite Hid. apply enqueue_in_flight.
Qed.

End facts.

(** Instances of the queue claims on small runs. *)

Import Examples.

Lemma queue_invariant_witness :
  0 < 2
  ∧ disjoint_keys
      (run [Enqueue A; Enqueue B; Enqueue C; Settle A Fulfilled] (new 2))
  ∧ Z.of_nat (activeCount
      (run [Enqueue A; Enqueue B; Enqueue C; Settle A Fulfilled] (new 2)))
    ≤ 2.
Proof.
  split; [lia|].
  apply (queue_invariant 2
           [Enqueue A; Enqueue B; Enqueue C; Settle A Fulfilled]).
  lia.
Defined.

Lemma enqueue_duplicate_noop_witness :
  (isActive (id A) (run [Enqueue A; Enqueue B] (new 1)) = true
   ∨ isPending (id A) (run [Enqueue A; Enqueue B] (new 1)) = true)
  ∧ (enqueue A (run [Enqueue A; Enqueue B] (new 1))).1 = false
  ∧ pendingCount (enqueue B (run [Enqueue A; Enqueue B] (new 1))).2 = 1%nat.
Proof.
  split; [left; vm_compute; reflexivity|].
  split.
  - apply (enqueue_duplicate_noop A (run [Enqueue A; Enqueue B] (new 1))).
    left. vm_compute. reflexivity.
  - destruct (enqueue_duplicate_noop B (run [Enqueue A; Enqueue B] (new 1)))
      as (_ & _ & _ & Hcount & _).
    + right. vm_compute. reflexivity.
    + rewrite Hcount. reflexivity.
Defined.

Lemma enqueue_fresh_fifo_witness :
  isActive (id A) (new (Body := unit) 1) = false
  ∧ isPending (id A) (new (Body := unit) 1) = false
  ∧ NoDup [id A; id B; id C]
  ∧ offered [Enqueue A; Enqueue B; Settle A Fulfilled; Enqueue C] = [A; B; C]
  ∧ started
      (run [Enqueue A; Enqueue B; Settle A Fulfilled; Enqueue C] (new 1))
    `prefix_of` [A; B; C]
  ∧ started (run [Enqueue A; Enqueue B; Enqueue C; Settle A Fulfilled;
                  Settle B (Rejected "failed")] (new 1))
    = [A; B; C].
Proof.
  assert (NoDup [id A; id B; id C]) as Hnd.
  { apply (bool_decide_unpack (NoDup [id A; id B; id C])).
    vm_compute. exact I. }
  split; [vm_compute; reflexivity|].
  split; [vm_compute; reflexivity|].
  split; [exact Hnd|].
  split; [reflexivity|].
  destruct (enqueue_fresh_fifo (new 1) A A B C
              [Enqueue A; Enqueue B; Settle A Fulfilled; Enqueue C]
              Fulfilled (Rejected "failed"))
    as (_ & Hprefix & _ & _ & Hall).
  - vm_compute. reflexivity.
  - vm_compute. reflexivity.
  - exact Hnd.
  - reflexivity.
  - split; [exact Hprefix | exact Hall].
Defined.

Lemma settle_completion_path_witness :
  0 < 1
  ∧ isActive (id A) (run [Enqueue A; Enqueue B] (new 1)) = true
  ∧ (settle A (Rejected "failed") (run [Enqueue A; Enqueue B] (new 1))).1
    = Fulfilled
  ∧ isActive (id A)
      (settle A (Rejected "failed") (run [Enqueue A; Enqueue B] (new 1))).2
    = false
  ∧ isActive (id B)
      (settle A (Rejected "failed") (run [Enqueue A; Enqueue B] (new 1))).2
    = true.
Proof.
  split; [lia|].
  split; [vm_compute; reflexivity|].
  destruct (settle_completion_path 1 [Enqueue A; Enqueue B] A
              (Rejected "failed"))
    as (Hend & _ & Hgone & _ & _ & Hnext).
  - lia.
  - vm_compute. reflexivity.
  - split; [exact Hend|]. split; [exact Hgone|].
    apply (Hnext B []). vm_compute. reflexivity.
Defined.

Lemma enqueue_twice_admits_once_witness :
  (enqueue (task_of "A") (enqueue A (new 1)).2).1 = false
  ∧ started (enqueue (task_of "A") (enqueue A (new 1)).2).2 = [A].
Proof.
  destruct (enqueue_twice_admits_once A (task_of "A") (new 1))
    as (Hanswer & _ & _ & Hstarted).
  - reflexivity.
  - split; [exact Hanswer|]. rewrite Hstarted. vm_compute. reflexivity.
Defined.

Lemma pending_means_full_witness :
  0 ≤ 2
  ∧ (0 < pendingCount (run [Enqueue A; Enqueue B; Enqueue C] (new 2)))%nat
  ∧ Z.of_nat (activeCount (run [Enqueue A; Enqueue B; Enqueue C] (new 2))) = 2.
Proof.
  split; [lia|]. split; [vm_compute; lia|].
  apply (pending_means_full 2 [Enqueue A; Enqueue B; Enqueue C]).
  - lia.
  - vm_compute. lia.
Defined.

Lemma closed_queue_starts_nothing_witness :
  0 ≤ 0
  ∧ started (run [Enqueue A; Enqueue B; Settle A Fulfilled] (new 0)) = []
  ∧ queue (run [Enqueue A; Enqueue B; Settle A Fulfilled] (new 0)) = [A; B].
Proof.
  split; [lia|].
  destruct (closed_queue_starts_nothing 0
              [Enqueue A; Enqueue B; Settle A Fulfilled])
    as (Hnone & _ & Hqueue); [lia|].
  split; [exact Hnone|]. rewrite Hqueue. vm_compute. reflexivity.
Defined.

Lemma settled_key_is_accepted_again_witness :
  0 ≤ 1
  ∧ isActive (id A) (run [Enqueue A; Enqueue B] (new 1)) = true
  ∧ id A = id A
  ∧ (enqueue A
       (settle A (Rejected "failed") (run [Enqueue A; Enqueue B] (new 1))).2).1
    = true.
Proof.
  split; [lia|]. split; [vm_compute; reflexivity|]. split; [reflexivity|].
  apply (settled_key_is_accepted_again 1 [Enqueue A; Enqueue B] A
           (Rejected "failed") A).
  - lia.
  - vm_compute. reflexivity.
  - reflexivity.
Defined.

(** The walk-through of the specification: ceiling 2 and keys A, B, C, D
    offered in order.  A and B run while C and D wait; when A settles, C
    starts and D is left waiting. *)
Example ceiling_two_walkthrough :
  id <$> queue (run [Enqueue A; Enqueue B; Enqueue C; Enqueue D] (new 2))
  = ["C"; "D"]
  ∧ id <$> started (run [Enqueue A; Enqueue B; Enqueue C; Enqueue D] (new 2))
    = ["A"; "B"]
  ∧ activeTasks (run [Enqueue A; Enqueue B; Enqueue C; Enqueue D] (new 2))
    = {["A" := A; "B" := B]}
  ∧ id <$> queue (run [Enqueue A; Enqueue B; Enqueue C; Enqueue D;
                       Settle A Fulfilled] (new 2))
    = ["D"]
  ∧ activeTasks (run [Enqueue A; Enqueue B; Enqueue C; Enqueue D;
                      Settle A Fulfilled] (new 2))
    = {["B" := B; "C" := C]}.
Proof. vm_compute. by repeat split. Qed.
End TaskQueueFacts.


(** * Properties of the heartbeat cache *)

Module HeartbeatFacts.
Import Heartbeat.

Implicit Types (s : t) (key : string) (evs : list event).

Lemma isProcessed_true key s :
  isProcessed key s = true ↔ is_Some (processedItems s !! key).
Proof. apply bool_decide_eq_true. Qed.

Lemma isProcessed_false key s :
  isProcessed key s = false ↔ processedItems s !! key = None.
Proof.
  unfold isProcessed. by rewrite bool_decide_eq_false, eq_None_not_Some.
Qed.

Lemma cleanup_items now s :
  processedItems (cleanupProcessedItems now s)
  = filter (λ entry : string * TrackedItem,
              ¬ (itemTtlMs s < now - timestamp entry.2))
      (processedItems s).
Proof. unfold cleanupProcessedItems. by case_bool_decide. Qed.

Lemma cleanup_ttl now s :
  itemTtlMs (cleanupProcessedItems now s) = itemTtlMs s.
Proof. unfold cleanupProcessedItems. by case_bool_decide. Qed.

(** The sweep keeps an entry exactly when its age is at most the TTL. *)
Lemma sweep_lookup now s key item :
  processedItems (cleanupProcessedItems now s) !! key = Some item ↔
  processedItems s !! key = Some item
  ∧ now - timestamp item ≤ itemTtlMs s.
Proof.
  rewrite cleanup_items, map_lookup_filter_Some. simpl.
  split; intros [? ?]; split; auto; lia.
Qed.

Lemma tick_lookup now s key item :
  processedItems (tick now s) !! key = Some item ↔
  processedItems s !! key = Some item
  ∧ now - timestamp item ≤ itemTtlMs s.
Proof. unfold tick. by rewrite sweep_lookup. Qed.

Lemma step_ttl s e : itemTtlMs (step s e) = itemTtlMs s.
Proof.
  destruct e as [now|key now]; simpl.
  - unfold tick. by rewrite cleanup_ttl.
  - unfold discover. by destruct (isProcessed key s).
Qed.

Lemma run_ttl evs s : itemTtlMs (run evs s) = itemTtlMs s.
Proof.
  revert s. induction evs as [|e evs IH]; intros s; simpl; [done|].
  by rewrite IH, step_ttl.
Qed.

(** An entry survives any events whose sweeps all run within the TTL of
    its timestamp: finding the item again does not touch it. *)
Lemma run_keeps_item evs s key item :
  processedItems s !! key = Some item →
  Forall (λ now, now - timestamp item ≤ itemTtlMs s) (sweeps evs) →
  processedItems (run evs s) !! key = Some item.
Proof.
  revert s. induction evs as [|e evs IH]; intros s Hin Hsw; simpl; [done|].
  destruct e as [now|key' now]; simpl in *.
  - apply Forall_cons in Hsw as [Hnow Hsw].
    apply IH.
    + by apply tick_lookup.
    + unfold tick. by rewrite cleanup_ttl.
  - apply IH.
    + unfold discover. destruct (isProcessed key' s) eqn:Hp; simpl; [done|].
      apply isProcessed_false in Hp.
      rewrite lookup_insert_ne; [done | congruence].
    + unfold discover. by destruct (isProcessed key' s).
Qed.

(** C7, counterexample.  An item marked at time 0 and swept once, one
    second later, is still reported as seen when looked up one hour and one
    second after the mark: the lookup does not read the clock, and no sweep
    has run since the TTL elapsed. *)
Lemma expires_by_time_counterexample : ¬ expires_by_time.
Proof.
  intros Hclaim.
  specialize (Hclaim "github-pr:acme/app/7" 0 [Tick 1000] 3601000).
  assert (isProcessed "github-pr:acme/app/7"
            (run [Tick 1000] (markProcessed "github-pr:acme/app/7" 0 new))
          = true) as Hseen by (vm_compute; reflexivity).
  rewrite Hclaim in Hseen; [done | |].
  - repeat constructor; simpl; lia.
  - vm_compute. reflexivity.
Qed.

(** C7, amended.  After [markProcessed key t0], as long as every sweep
    runs at a time at most TTL after [t0], the item is reported as seen, at
    whatever time the lookup is made; the first sweep that runs more than
    TTL after [t0] removes it, and from then on the item is reported as not
    seen until it is found (and marked) again. *)
Theorem seen_until_swept key t0 evs t s :
  Forall (λ now, now - t0 ≤ itemTtlMs s) (sweeps evs) →
  itemTtlMs s < t - t0 →
  isProcessed key (run evs (markProcessed key t0 s)) = true
  ∧ isProcessed key (tick t (run evs (markProcessed key t0 s))) = false
  ∧ ∀ later, isProcessed key
      (run (Tick <$> later) (tick t (run evs (markProcessed key t0 s))))
    = false.
Proof.
  intros Hsw Hlate.
  assert (processedItems (run evs (markProcessed key t0 s)) !! key
          = Some {| timestamp := t0 |}) as Hkept.
  { apply run_keeps_item; [apply lookup_insert_eq | done]. }
  assert (isProcessed key (tick t (run evs (markProcessed key t0 s))) = false)
    as Hgone.
  { apply isProcessed_false, eq_None_not_Some. intros [item Hitem].
    apply tick_lookup in Hitem as [Hitem Hage].
    rewrite Hkept in Hitem. injection Hitem as <-.
    rewrite run_ttl in Hage. simpl in Hage. lia. }
  split_and!.
  - apply isProcessed_true. rewrite Hkept. by eexists.
  - exact Hgone.
  - intros later. revert Hgone.
    generalize (tick t (run evs (markProcessed key t0 s))). clear.
    induction later as [|now later IH]; intros s' Hgone; simpl; [done|].
    apply IH. apply isProcessed_false, eq_None_not_Some. intros [item Hitem].
    apply tick_lookup in Hitem as [Hitem _].
    apply isProcessed_false in Hgone. congruence.
Qed.

(** [cleanupProcessedItems] removes exactly the items first seen more than
    the TTL before [now] (an item seen exactly the TTL before is kept), and
    logs the number of removed items when there are some. *)
Theorem cleanupProcessedItems_exact now s :
  (∀ key item,
     processedItems (cleanupProcessedItems now s) !! key = Some item ↔
     processedItems s !! key = Some item
     ∧ now - timestamp item ≤ itemTtlMs s)
  ∧ (size (processedItems (cleanupProcessedItems now s))
     ≤ size (processedItems s))%nat
  ∧ (size (processedItems (cleanupProcessedItems now s))
     = size (processedItems s) →
     logger (cleanupProcessedItems now s) = logger s)
  ∧ ((size (processedItems (cleanupProcessedItems now s))
      < size (processedItems s))%nat →
     logger (cleanupProcessedItems now s)
     = logger s
       ++ [Debug_cleaned
             (size (processedItems s)
              - size (processedItems (cleanupProcessedItems now s)))]).
Proof.
  assert (size (processedItems (cleanupProcessedItems now s))
          ≤ size (processedItems s))%nat as Hle.
  { rewrite cleanup_items. apply map_subseteq_size, map_filter_subseteq. }
  split_and!.
  - intros key item. apply sweep_lookup.
  - done.
  - rewrite cleanup_items. intros Hsame. unfold cleanupProcessedItems.
    rewrite Hsame, Nat.sub_diag. by rewrite bool_decide_eq_false_2 by lia.
  - rewrite cleanup_items. intros Hless. unfold cleanupProcessedItems.
    by rewrite bool_decide_eq_true_2 by lia.
Qed.

(** An item is handed on once per TTL window, counted from the time it was
    first seen: after [discover] has marked it at [t0], every later
    [discover] of the same key answers [false] and leaves the recorded time
    at [t0], as long as every sweep runs within the TTL of [t0]; finding
    the item again does not extend its stay, so the first sweep after
    [t0 + TTL] removes it and the next [discover] answers [true] again. *)
Theorem discover_once_per_window key t0 evs t t' s :
  isProcessed key s = false →
  Forall (λ now, now - t0 ≤ itemTtlMs s) (sweeps evs) →
  itemTtlMs s < t - t0 →
  (discover key t0 s).1 = true
  ∧ (discover key t' (run evs (discover key t0 s).2)).1 = false
  ∧ processedItems (run evs (discover key t0 s).2) !! key
    = Some {| timestamp := t0 |}
  ∧ (discover key t' (tick t (run evs (discover key t0 s).2))).1 = true.
Proof.
  intros Hnew Hsw Hlate.
  assert (discover key t0 s = (true, markProcessed key t0 s)) as ->.
  { unfold discover. by rewrite Hnew. }
  simpl.
  assert (processedItems (run evs (markProcessed key t0 s)) !! key
          = Some {| timestamp := t0 |}) as Hkept.
  { apply run_keeps_item; [apply lookup_insert_eq | done]. }
  assert (isProcessed key (run evs (markProcessed key t0 s)) = true) as Hseen.
  { apply isProcessed_true. rewrite Hkept. by eexists. }
  assert (isProcessed key (tick t (run evs (markProcessed key t0 s)))
          = false) as Hgone.
  { apply isProcessed_false, eq_None_not_Some. intros [item Hitem].
    apply tick_lookup in Hitem as [Hitem Hage].
    rewrite Hkept in Hitem. injection Hitem as <-.
    rewrite run_ttl in Hage. simpl in Hage. lia. }
  unfold discover. rewrite Hseen, Hgone. done.
Qed.

Lemma seen_until_swept_witness :
  Forall (λ now, now - 0 ≤ itemTtlMs new)
    (sweeps [Tick 300000; Discover "github-pr:acme/app/7" 300000;
             Tick 3600000])
  ∧ itemTtlMs new < 3900000 - 0
  ∧ isProcessed "github-pr:acme/app/7"
      (run [Tick 300000; Discover "github-pr:acme/app/7" 300000;
            Tick 3600000]
         (markProcessed "github-pr:acme/app/7" 0 new)) = true
  ∧ isProcessed "github-pr:acme/app/7"
      (tick 3900000
         (run [Tick 300000; Discover "github-pr:acme/app/7" 300000;
               Tick 3600000]
            (markProcessed "github-pr:acme/app/7" 0 new))) = false.
Proof.
  assert (Forall (λ now, now - 0 ≤ itemTtlMs new)
            (sweeps [Tick 300000; Discover "github-pr:acme/app/7" 300000;
                     Tick 3600000])) as Hsw.
  { repeat constructor; vm_compute; discriminate. }
  assert (itemTtlMs new < 3900000 - 0) as Hlate by (vm_compute; reflexivity).
  destruct (seen_until_swept "github-pr:acme/app/7" 0
              [Tick 300000; Discover "github-pr:acme/app/7" 300000;
               Tick 3600000] 3900000 new Hsw Hlate) as (Hseen & Hgone & _).
  split_and!; [exact Hsw | exact Hlate | exact Hseen | exact Hgone].
Defined.

Lemma discover_once_per_window_witness :
  isProcessed "freescout:41" new = false
  ∧ (discover "freescout:41" 0 new).1 = true
  ∧ (discover "freescout:41" 3500000
       (run [Tick 300000; Discover "freescout:41" 300000; Tick 3600000]
          (discover "freescout:41" 0 new).2)).1
    = false
  ∧ (discover "freescout:41" 3900001
       (tick 3900000
          (run [Tick 300000; Discover "freescout:41" 300000; Tick 3600000]
             (discover "freescout:41" 0 new).2))).1
    = true.
Proof.
  split; [vm_compute; reflexivity|].
  destruct (discover_once_per_window "freescout:41" 0
              [Tick 300000; Discover "freescout:41" 300000; Tick 3600000]
              3900000 3500000 new) as (Hfirst & Hagain & _).
  - vm_compute. reflexivity.
  - repeat constructor; vm_compute; discriminate.
  - vm_compute. reflexivity.
  - split; [exact Hfirst|]. split; [exact Hagain|].
    destruct (discover_once_per_window "freescout:41" 0
                [Tick 300000; Discover "freescout:41" 300000; Tick 3600000]
                3900000 3900001 new) as (_ & _ & _ & Hlater).
    + vm_compute. reflexivity.
    + repeat constructor; vm_compute; discriminate.
    + vm_compute. reflexivity.
    + exact Hlater.
Defined.
End HeartbeatFacts.

(** * Properties of the scheduler *)

Module SchedulerFacts.
Import Js Scheduler.
Local Open Scope nat_scope.

Section facts.
Context {Body : Type}.
Variable cron_validate : value → bool.
Variable ToString : value → completion string.
Variable notifySlackChannel : string.
Variable job_body : value → JobDefinition → Body.

Implicit Types (s : t Body) (job : JobDefinition) (entry : value).
Implicit Types (parsed : list value) (ts : list ScheduledTask).
Implicit Types (hs : list nat) (h : nat) (src : source).
Implicit Types (js : list JobDefinition).

Local Abbreviation load_entry := (Scheduler.load_entry cron_validate).
Local Abbreviation load_entries := (Scheduler.load_entries cron_validate).
Local Abbreviation loadJobs := (Scheduler.loadJobs cron_validate).
Local Abbreviation reload := (Scheduler.reload cron_validate).
Local Abbreviation start := (Scheduler.start cron_validate).
Local Abbreviation taskId := (Scheduler.taskId ToString).
Local Abbreviation resolve_channel :=
  (Scheduler.resolve_channel notifySlackChannel).
Local Abbreviation enqueueJob :=
  (Scheduler.enqueueJob ToString notifySlackChannel job_body).
Local Abbreviation on_cron :=
  (Scheduler.on_cron ToString notifySlackChannel job_body).
Local Abbreviation fire :=
  (Scheduler.fire ToString notifySlackChannel job_body).
Local Abbreviation step :=
  (Scheduler.step cron_validate ToString notifySlackChannel job_body).
Local Abbreviation run :=
  (Scheduler.run cron_validate ToString notifySlackChannel job_body).
Local Abbreviation accepted := (Scheduler.accepted cron_validate).
Local Abbreviation firing_task :=
  (Scheduler.firing_task notifySlackChannel job_body).

(** ** The loader, entry by entry *)

Lemma get_nullish entry k : nullish entry = true → get entry k = Throw "TypeError".
Proof. by destruct entry. Qed.

Lemma get_prop entry k : nullish entry = false → get entry k = Normal (prop entry k).
Proof. by destruct entry. Qed.

Lemma load_entry_nullish entry s :
  nullish entry = true → load_entry entry s = Throw "TypeError".
Proof.
  intros Hn. unfold Scheduler.load_entry, missing_field.
  by rewrite !get_nullish by done.
Qed.

(** On any other entry the loop body either pushes the definition or logs
    one of its two warnings; it does not throw. *)
Lemma load_entry_checked entry s :
  nullish entry = false →
  load_entry entry s
  = Normal
      (if accepted entry then set_jobs (jobs s ++ [job_of entry]) s
       else if truthy (prop entry "name") && truthy (prop entry "schedule")
               && truthy (prop entry "prompt")
            then log (Warn_invalid_cron (prop entry "name")
                        (prop entry "schedule")) s
            else log (Warn_invalid_job entry) s).
Proof.
  intros Hn.
  unfold Scheduler.load_entry, missing_field, definition_of, accepted.
  rewrite !get_prop by done. cbn.
  destruct (truthy (prop entry "name")); cbn; [|done].
  destruct (truthy (prop entry "schedule")); cbn; [|done].
  destruct (truthy (prop entry "prompt")); cbn; [|done].
  by destruct (cron_validate (prop entry "schedule")).
Qed.

(** The loop changes nothing but [jobs] and the log. *)
Lemma load_entry_frame entry s s' :
  load_entry entry s = Normal s' →
  taskQueue s' = taskQueue s ∧ cronTasks s' = cronTasks s
  ∧ timers s' = timers s ∧ listeners s' = listeners s.
Proof.
  destruct (nullish entry) eqn:Hn.
  - by rewrite (load_entry_nullish _ _ Hn).
  - rewrite (load_entry_checked _ _ Hn). intros [= <-].
    by repeat case_match.
Qed.

Lemma load_entries_frame parsed s :
  taskQueue (load_entries parsed s).1 = taskQueue s
  ∧ cronTasks (load_entries parsed s).1 = cronTasks s
  ∧ timers (load_entries parsed s).1 = timers s
  ∧ listeners (load_entries parsed s).1 = listeners s.
Proof.
  revert s. induction parsed as [|entry parsed IH]; intros s; simpl; [done|].
  destruct (load_entry entry s) as [s'|err] eqn:Hentry; simpl; [|done].
  destruct (load_entry_frame _ _ _ Hentry) as (H1 & H2 & H3 & H4).
  destruct (IH s') as (I1 & I2 & I3 & I4). split_and!; congruence.
Qed.

(** Without a [null] entry the loop ends normally and has pushed the
    definitions of the accepted entries, in order. *)
Lemma load_entries_all parsed s :
  forallb (λ entry, negb (nullish entry)) parsed = true →
  (load_entries parsed s).2 = None
  ∧ jobs (load_entries parsed s).1
    = jobs s ++ (job_of <$> filter (λ entry, accepted entry = true) parsed).
Proof.
  revert s. induction parsed as [|entry parsed IH]; intros s Hall; simpl.
  { by rewrite app_nil_r. }
  simpl in Hall. apply andb_true_iff in Hall as [Hn Hall].
  apply negb_true_iff in Hn. rewrite (load_entry_checked _ _ Hn).
  set (s1 := if accepted entry then _ else _).
  destruct (IH s1 Hall) as [Hnone Hjobs].
  split; [done|]. rewrite Hjobs, filter_cons.
  assert (jobs s1 = if accepted entry then jobs s ++ [job_of entry]
                    else jobs s) as ->.
  { subst s1. by repeat case_match. }
  destruct (accepted entry).
  - rewrite decide_True by done. by rewrite fmap_cons, <- app_assoc.
  - by rewrite decide_False by done.
Qed.

(** A [null] entry ends the loop with an exception; only the definitions
    pushed before it are in [jobs]. *)
Lemma load_entries_null before after s :
  forallb (λ entry, negb (nullish entry)) before = true →
  (load_entries (before ++ Null :: after) s).2 = Some "TypeError"
  ∧ jobs (load_entries (before ++ Null :: after) s).1
    = jobs s ++ (job_of <$> filter (λ entry, accepted entry = true) before).
Proof.
  revert s. induction before as [|entry before IH]; intros s Hall; simpl.
  { by rewrite app_nil_r. }
  simpl in Hall. apply andb_true_iff in Hall as [Hn Hall].
  apply negb_true_iff in Hn. rewrite (load_entry_checked _ _ Hn).
  set (s1 := if accepted entry then _ else _).
  destruct (IH s1 Hall) as [Hnone Hjobs].
  split; [done|]. rewrite Hjobs, filter_cons.
  assert (jobs s1 = if accepted entry then jobs s ++ [job_of entry]
                    else jobs s) as ->.
  { subst s1. by repeat case_match. }
  destruct (accepted entry).
  - rewrite decide_True by done. by rewrite fmap_cons, <- app_assoc.
  - by rewrite decide_False by done.
Qed.

(** ** Timers *)

Lemma later_timers_refl ts : later_timers ts ts.
Proof. split; [done|]. intros h task' _ Hh. by exists task'. Qed.

Lemma later_timers_trans ts1 ts2 ts3 :
  later_timers ts1 ts2 → later_timers ts2 ts3 → later_timers ts1 ts3.
Proof.
  intros [Hlen12 H12] [Hlen23 H23]. split; [lia|].
  intros h task3 Hh H3.
  destruct (H23 h task3) as (task2 & H2 & Hcb2 & Hrun2); [lia | done |].
  destruct (H12 h task2) as (task1 & H1 & Hcb1 & Hrun1); [lia | done |].
  exists task1. split_and!; [done | congruence | auto].
Qed.

Lemma stop_all_length ts hs : length (foldl stop_task ts hs) = length ts.
Proof.
  revert ts. induction hs as [|h0 hs IH]; intros ts; simpl; [done|].
  rewrite IH. unfold stop_task. by rewrite length_alter.
Qed.

(** What [stopCronTasks] does to one task: the callback stays, and the task
    can only be scheduled afterwards if it was scheduled before and is not
    among the stopped references. *)
Lemma stop_all_lookup ts hs h task' :
  foldl stop_task ts hs !! h = Some task' →
  ∃ task, ts !! h = Some task
          ∧ callback_job task' = callback_job task
          ∧ (running task' = true → running task = true ∧ h ∉ hs).
Proof.
  revert ts. induction hs as [|h0 hs IH]; intros ts Hlook; simpl in *.
  { exists task'. split_and!; [done..|]. intros ?. split; [done|].
    apply not_elem_of_nil. }
  apply IH in Hlook as (task1 & Hlook & Hcb & Hrun).
  unfold stop_task in Hlook.
  destruct (decide (h = h0)) as [->|Hne].
  - rewrite list_lookup_alter_eq in Hlook.
    destruct (ts !! h0) as [task|] eqn:Hts; simpl in Hlook; [|done].
    injection Hlook as <-. exists task. split_and!; [done..|].
    intros Htrue. apply Hrun in Htrue as [Habs _]. done.
  - rewrite list_lookup_alter_ne in Hlook by done.
    exists task1. split_and!; [done..|].
    intros Htrue. apply Hrun in Htrue as [? ?]. split; [done|].
    rewrite not_elem_of_cons. done.
Qed.

Lemma stop_all_later ts hs : later_timers ts (foldl stop_task ts hs).
Proof.
  split; [by rewrite stop_all_length|].
  intros h task' _ Hlook.
  apply stop_all_lookup in Hlook as (task & ? & ? & Hrun).
  exists task. split_and!; [done..|]. intros ?. by apply Hrun.
Qed.

(** After [stopCronTasks] no task is scheduled. *)
Lemma stopCronTasks_all_stopped s :
  timers_tracked s →
  Forall (λ task, running task = false) (timers (stopCronTasks s)).
Proof.
  intros Htr. apply Forall_lookup. intros h task' Hlook. simpl in Hlook.
  apply stop_all_lookup in Hlook as (task & Hts & _ & Hrun).
  destruct (running task') eqn:Hr; [|done].
  destruct Hrun as [Hwas Hnot]; [done|].
  exfalso. by apply Hnot, (Htr h task).
Qed.

(** The loop of [scheduleCronTasks] over a list of jobs. *)
Lemma schedule_all js s :
  timers (foldl schedule_job s js) = timers s ++ (new_task <$> js)
  ∧ cronTasks (foldl schedule_job s js)
    = cronTasks s ++ seq (length (timers s)) (length js)
  ∧ jobs (foldl schedule_job s js) = jobs s
  ∧ taskQueue (foldl schedule_job s js) = taskQueue s
  ∧ listeners (foldl schedule_job s js) = listeners s
  ∧ logger (foldl schedule_job s js) = logger s.
Proof.
  revert s. induction js as [|job js IH]; intros s; simpl.
  { by rewrite !app_nil_r. }
  destruct (IH (schedule_job s job)) as (-> & -> & -> & -> & -> & ->).
  simpl. rewrite length_app, <- !app_assoc. simpl.
  by rewrite Nat.add_1_r.
Qed.

(** [loadJobs] leaves the existing tasks alone; it schedules one new task
    per loaded definition, or none at all when it gives up. *)
Lemma loadJobs_timers src s :
  ∃ js, timers (loadJobs src s) = timers s ++ (new_task <$> js)
        ∧ cronTasks (loadJobs src s)
          = cronTasks s ++ seq (length (timers s)) (length js)
        ∧ taskQueue (loadJobs src s) = taskQueue s
        ∧ listeners (loadJobs src s) = listeners s
        ∧ (js = jobs (loadJobs src s)
           ∨ js = [] ∧ ¬ ∃ parsed, src = Parsed (Arr parsed)
                         ∧ (load_entries parsed (set_jobs [] s)).2 = None).
Proof.
  assert ((∀ parsed, src ≠ Parsed (Arr parsed)) → ∀ e, ∃ js,
            timers (log e s) = timers s ++ (new_task <$> js)
            ∧ cronTasks (log e s)
              = cronTasks s ++ seq (length (timers s)) (length js)
            ∧ taskQueue (log e s) = taskQueue s
            ∧ listeners (log e s) = listeners s
            ∧ (js = jobs (log e s)
               ∨ js = [] ∧ ¬ ∃ parsed, src = Parsed (Arr parsed)
                   ∧ (load_entries parsed (set_jobs [] s)).2 = None)) as Hlog.
  { intros Hsrc e. exists []. simpl. rewrite !app_nil_r.
    split_and!; [done..|]. right. split; [done|].
    intros (parsed & Heq & _). by apply (Hsrc parsed). }
  destruct src as [|err|err|v].
  - by apply (Hlog ltac:(done) Info_no_jobs_file).
  - by apply (Hlog ltac:(done) (Error_load_failed err)).
  - by apply (Hlog ltac:(done) (Error_load_failed err)).
  - destruct v as [| | | | |parsed|];
      try by apply (Hlog ltac:(done) Warn_not_array).
    clear Hlog. simpl.
    destruct (load_entries parsed (set_jobs [] s)) as [s1 [err|]] eqn:Hload.
    + exists []. simpl. rewrite !app_nil_r.
      pose proof (load_entries_frame parsed (set_jobs [] s)) as Hframe.
      rewrite Hload in Hframe. simpl in Hframe.
      destruct Hframe as (-> & -> & -> & ->).
      split_and!; [done..|]. right. split; [done|].
      intros (parsed' & [= <-] & Hnone). by rewrite Hload in Hnone.
    + exists (jobs s1). unfold scheduleCronTasks. simpl.
      pose proof (load_entries_frame parsed (set_jobs [] s)) as Hframe.
      rewrite Hload in Hframe. simpl in Hframe.
      destruct Hframe as (Hq & Hc & Ht & Hw).
      destruct (schedule_all (jobs s1)
        (log (Info_loaded (length (jobs s1)) (name <$> jobs s1)) s1))
        as (-> & -> & -> & -> & -> & _).
      simpl. rewrite Hq, Hc, Ht, Hw. split_and!; [done..|]. by left.
Qed.

Lemma tracked_extend s' s js :
  timers_tracked s →
  timers s' = timers s ++ (new_task <$> js) →
  cronTasks s' = cronTasks s ++ seq (length (timers s)) (length js) →
  timers_tracked s'.
Proof.
  intros Htr Ht Hc h task Hlook Hrun. rewrite Hc, elem_of_app.
  rewrite Ht in Hlook.
  destruct (decide (h < length (timers s))) as [Hlt|Hge].
  - left. rewrite lookup_app_l in Hlook by done. by apply (Htr h task).
  - right. rewrite lookup_app_r in Hlook by lia.
    apply lookup_lt_Some in Hlook. rewrite length_fmap in Hlook.
    apply elem_of_seq. lia.
Qed.

Lemma later_extend ts js : later_timers ts (ts ++ (new_task <$> js)).
Proof.
  split; [rewrite length_app; lia|].
  intros h task' Hlt Hlook. rewrite lookup_app_l in Hlook by done.
  by exists task'.
Qed.

Lemma tracked_loadJobs src s :
  timers_tracked s → timers_tracked (loadJobs src s).
Proof.
  intros Htr. destruct (loadJobs_timers src s) as (js & Ht & Hc & _).
  by apply (tracked_extend _ s js).
Qed.

Lemma later_loadJobs src s :
  later_timers (timers s) (timers (loadJobs src s)).
Proof.
  destruct (loadJobs_timers src s) as (js & -> & _). apply later_extend.
Qed.

Lemma tracked_stopCronTasks s :
  timers_tracked s → timers_tracked (stopCronTasks s).
Proof.
  intros Htr h task Hlook Hrun.
  pose proof (stopCronTasks_all_stopped s Htr) as Hall.
  rewrite Forall_lookup in Hall. specialize (Hall h task Hlook). congruence.
Qed.

(** [enqueueJob], by what the conversion of the name gives. *)
Lemma enqueueJob_converted job text now s :
  ToString (name job) = Normal text →
  enqueueJob job now s
  = Normal
      (if negb (truthy (resolve_channel job))
       then log (Warn_no_channel (name job)) s
       else
         set_taskQueue
           (TaskQueue.enqueue (firing_task text job now) (taskQueue s)).2 s).
Proof.
  intros Htext. unfold Scheduler.enqueueJob, Scheduler.taskId.
  rewrite Htext. cbn. by destruct (negb (truthy _)).
Qed.

Lemma enqueueJob_throws job err now s :
  ToString (name job) = Throw err → enqueueJob job now s = Throw err.
Proof.
  intros Herr. unfold Scheduler.enqueueJob, Scheduler.taskId.
  by rewrite Herr.
Qed.

Lemma on_cron_converted job text now s :
  ToString (name job) = Normal text →
  on_cron job now s
  = if negb (truthy (resolve_channel job))
    then log (Warn_no_channel (name job)) (log (Info_triggered (name job)) s)
    else
      set_taskQueue
        (TaskQueue.enqueue (firing_task text job now) (taskQueue s)).2
        (log (Info_triggered (name job)) s).
Proof.
  intros Htext. unfold Scheduler.on_cron.
  by rewrite (enqueueJob_converted _ _ _ _ Htext).
Qed.

Lemma on_cron_throws job err now s :
  ToString (name job) = Throw err →
  on_cron job now s = log (Info_triggered (name job)) s.
Proof.
  intros Herr. unfold Scheduler.on_cron.
  by rewrite (enqueueJob_throws _ _ _ _ Herr).
Qed.

Lemma on_cron_frame job now s :
  timers (on_cron job now s) = timers s
  ∧ cronTasks (on_cron job now s) = cronTasks s
  ∧ jobs (on_cron job now s) = jobs s
  ∧ listeners (on_cron job now s) = listeners s.
Proof.
  destruct (ToString (name job)) as [text|err] eqn:Hname.
  - rewrite (on_cron_converted _ _ _ _ Hname).
    by destruct (negb (truthy _)).
  - by rewrite (on_cron_throws _ _ _ _ Hname).
Qed.

Lemma fire_frame h now s :
  timers (fire h now s) = timers s
  ∧ cronTasks (fire h now s) = cronTasks s
  ∧ jobs (fire h now s) = jobs s
  ∧ listeners (fire h now s) = listeners s.
Proof.
  unfold Scheduler.fire. repeat case_match; try done.
  apply on_cron_frame.
Qed.

Lemma tracked_reload src s : timers_tracked s → timers_tracked (reload src s).
Proof.
  intros Htr. apply tracked_loadJobs, tracked_stopCronTasks.
  intros h task. apply Htr.
Qed.

Lemma later_reload src s : later_timers (timers s) (timers (reload src s)).
Proof.
  eapply later_timers_trans; [|apply later_loadJobs].
  simpl. apply stop_all_later.
Qed.

Lemma tracked_step s (e : event Body) :
  timers_tracked s → timers_tracked (step s e).
Proof.
  intros Htr. destruct e as [src w|src| |h now|e]; simpl.
  - unfold Scheduler.start.
    pose proof (tracked_loadJobs src s Htr) as Hl.
    destruct w; intros h task; apply Hl.
  - generalize (seq 0 (listeners s)). intros turns. revert s Htr.
    induction turns as [|i turns IH]; intros s Htr; simpl; [done|].
    by apply IH, tracked_reload.
  - pose proof (tracked_stopCronTasks s Htr) as Hs.
    intros h task. apply Hs.
  - destruct (fire_frame h now s) as (Ht & Hc & _).
    intros h' task. rewrite Ht, Hc. apply Htr.
  - intros h task. apply Htr.
Qed.

Lemma later_step s (e : event Body) :
  later_timers (timers s) (timers (step s e)).
Proof.
  destruct e as [src w|src| |h now|e]; simpl.
  - unfold Scheduler.start.
    pose proof (later_loadJobs src s) as Hl. by destruct w.
  - generalize (seq 0 (listeners s)). intros turns. revert s.
    induction turns as [|i turns IH]; intros s; simpl; [apply later_timers_refl|].
    eapply later_timers_trans; [apply later_reload | apply IH].
  - apply stop_all_later.
  - destruct (fire_frame h now s) as (-> & _). apply later_timers_refl.
  - apply later_timers_refl.
Qed.

Lemma tracked_run (evs : list (event Body)) s :
  timers_tracked s → timers_tracked (run evs s).
Proof.
  revert s. induction evs as [|e evs IH]; intros s Htr; simpl; [done|].
  by apply IH, tracked_step.
Qed.

Lemma later_run (evs : list (event Body)) s :
  later_timers (timers s) (timers (run evs s)).
Proof.
  revert s. induction evs as [|e evs IH]; intros s; simpl.
  { apply later_timers_refl. }
  eapply later_timers_trans; [apply later_step | apply IH].
Qed.

Lemma timers_tracked_new q : timers_tracked (new (Body := Body) q).
Proof. intros h task Hlook. simpl in Hlook. by destruct h. Qed.

(** A task that is not scheduled does not call its callback. *)
Lemma fire_stopped h now s : is_running s h = false → fire h now s = s.
Proof.
  unfold is_running, Scheduler.fire.
  destruct (timers s !! h) as [task|]; [|done]. by intros ->.
Qed.

Lemma running_jobs_stopped ts :
  Forall (λ task, running task = false) ts →
  filter (λ task, running task = true) ts = [].
Proof.
  induction 1 as [|task ts Hstop _ IH]; [done|].
  rewrite filter_cons, decide_False by congruence. done.
Qed.

Lemma running_jobs_new js :
  callback_job <$> filter (λ task, running task = true) (new_task <$> js)
  = js.
Proof.
  induction js as [|job js IH]; [done|].
  rewrite fmap_cons, filter_cons, decide_True by done.
  by rewrite fmap_cons, IH.
Qed.

(** The state after the watch listener has run: every task that existed is
    stopped, and the tasks that run are new ones, one per definition that
    [loadJobs] scheduled. *)
Lemma reload_timers src s :
  timers_tracked s →
  ∃ js, timers (reload src s)
        = foldl stop_task (timers s) (cronTasks s) ++ (new_task <$> js)
        ∧ Forall (λ task, running task = false)
            (foldl stop_task (timers s) (cronTasks s))
        ∧ cronTasks (reload src s) = seq (length (timers s)) (length js)
        ∧ running_jobs (reload src s) = js
        ∧ (js = jobs (reload src s)
           ∨ js = [] ∧ ¬ ∃ parsed, src = Parsed (Arr parsed)
               ∧ (load_entries parsed
                    (set_jobs [] (stopCronTasks (log Info_reloading s)))).2
                 = None).
Proof.
  intros Htr. unfold Scheduler.reload.
  destruct (loadJobs_timers src (stopCronTasks (log Info_reloading s)))
    as (js & Ht & Hc & _ & _ & Hjs).
  assert (Forall (λ task, running task = false)
            (foldl stop_task (timers s) (cronTasks s))) as Hstopped.
  { apply (stopCronTasks_all_stopped (log Info_reloading s)).
    intros h task. apply Htr. }
  exists js. simpl in *. rewrite stop_all_length in Hc.
  split_and!; [done..| |done].
  unfold running_jobs. rewrite Ht, filter_app, fmap_app.
  by rewrite running_jobs_stopped, running_jobs_new.
Qed.

Lemma stays_stopped s1 s2 h :
  later_timers (timers s1) (timers s2) → h < length (timers s1) →
  is_running s1 h = false → is_running s2 h = false.
Proof.
  intros [_ Hlater] Hlt. unfold is_running.
  destruct (timers s2 !! h) as [task2|] eqn:H2; [|done].
  destruct (Hlater h task2 Hlt H2) as (task1 & -> & _ & Hrun).
  intros Hstopped. destruct (running task2); [|done].
  rewrite Hrun in Hstopped; done.
Qed.

(** ** [loadJobs] on a list without [null] entries *)

Lemma loadJobs_jobs parsed s :
  forallb (λ entry, negb (nullish entry)) parsed = true →
  jobs (loadJobs (Parsed (Arr parsed)) s)
  = job_of <$> filter (λ entry, accepted entry = true) parsed.
Proof.
  intros Hall. simpl.
  destruct (load_entries_all parsed (set_jobs [] s) Hall) as [Hnone Hjobs].
  destruct (load_entries parsed (set_jobs [] s)) as [s1 thrown].
  simpl in *. subst thrown. unfold scheduleCronTasks. simpl.
  destruct (schedule_all (jobs s1)
    (log (Info_loaded (length (jobs s1)) (name <$> jobs s1)) s1))
    as (_ & _ & -> & _).
  done.
Qed.

Lemma reload_running_jobs parsed s :
  timers_tracked s →
  forallb (λ entry, negb (nullish entry)) parsed = true →
  running_jobs (reload (Parsed (Arr parsed)) s)
  = job_of <$> filter (λ entry, accepted entry = true) parsed
  ∧ jobs (reload (Parsed (Arr parsed)) s)
    = job_of <$> filter (λ entry, accepted entry = true) parsed.
Proof.
  intros Htr Hall.
  assert (jobs (reload (Parsed (Arr parsed)) s)
          = job_of <$> filter (λ entry, accepted entry = true) parsed)
    as Hjobs by by apply loadJobs_jobs.
  split; [|done].
  destruct (reload_timers (Parsed (Arr parsed)) s Htr)
    as (js & _ & _ & _ & -> & [->|[_ Hno]]); [done|].
  exfalso. apply Hno. exists parsed. split; [done|].
  by apply load_entries_all.
Qed.

(** ** The claims about reloading *)

(** C6.  When the watch listener runs in any state the scheduler can reach:
    once [stopCronTasks] has run, before [loadJobs] schedules anything, no
    task is scheduled; every task that existed before the reload is stopped
    after it and stays stopped whatever happens later, so a firing of it
    does nothing; and the tasks that are scheduled after the reload are
    exactly one per definition of the list just loaded (none when the load
    gave up), so a job that the new list drops has no task left and a job
    that it keeps has a single one. *)
Theorem reload_replaces_timers q (evs evs' : list (event Body)) src h now
    parsed :
  running_jobs (stopCronTasks (log Info_reloading (run evs (new q)))) = []
  ∧ (h < length (timers (run evs (new q))) →
     is_running (run evs' (reload src (run evs (new q)))) h = false
     ∧ fire h now (run evs' (reload src (run evs (new q))))
       = run evs' (reload src (run evs (new q))))
  ∧ (running_jobs (reload src (run evs (new q)))
       = jobs (reload src (run evs (new q)))
     ∨ running_jobs (reload src (run evs (new q))) = [])
  ∧ (forallb (λ entry, negb (nullish entry)) parsed = true →
     running_jobs (reload (Parsed (Arr parsed)) (run evs (new q)))
     = job_of <$> filter (λ entry, accepted entry = true) parsed).
Proof.
  set (s := run evs (new q)).
  assert (timers_tracked s) as Htr by apply tracked_run, timers_tracked_new.
  split_and!.
  - unfold running_jobs. rewrite running_jobs_stopped; [done|].
    apply (stopCronTasks_all_stopped (log Info_reloading s)).
    intros h' task. apply Htr.
  - intros Hlt.
    assert (is_running (run evs' (reload src s)) h = false) as Hstopped.
    { destruct (reload_timers src s Htr) as (js & Ht & Hall & _).
      apply (stays_stopped (reload src s)); [apply later_run | |].
      - rewrite Ht, length_app, stop_all_length. lia.
      - unfold is_running. rewrite Ht, lookup_app_l
          by (by rewrite stop_all_length).
        destruct (foldl stop_task (timers s) (cronTasks s) !! h)
          as [task|] eqn:Hlook; [|done].
        rewrite Forall_lookup in Hall. by apply (Hall h). }
    split; [done | by apply fire_stopped].
  - destruct (reload_timers src s Htr)
      as (js & _ & _ & _ & -> & [->|[-> _]]); auto.
  - intros Hall. by apply reload_running_jobs.
Qed.

(** C5, amended.  When the source cannot be read or parsed during a reload
    in any state the scheduler can reach, the failure is logged and the
    listener returns: the stored definitions, the watch and the queue are as
    before, but every task has been stopped and none is scheduled, so no
    firing has any effect; a later reload from a readable list schedules
    that list. *)
Theorem reload_failure_goes_idle q (evs : list (event Body)) src err h now
    parsed :
  src = ReadError err ∨ src = SyntaxError err →
  jobs (reload src (run evs (new q))) = jobs (run evs (new q))
  ∧ listeners (reload src (run evs (new q))) = listeners (run evs (new q))
  ∧ taskQueue (reload src (run evs (new q))) = taskQueue (run evs (new q))
  ∧ logger (reload src (run evs (new q)))
    = logger (run evs (new q)) ++ [Info_reloading; Error_load_failed err]
  ∧ cronTasks (reload src (run evs (new q))) = []
  ∧ running_jobs (reload src (run evs (new q))) = []
  ∧ fire h now (reload src (run evs (new q))) = reload src (run evs (new q))
  ∧ (forallb (λ entry, negb (nullish entry)) parsed = true →
     running_jobs
       (reload (Parsed (Arr parsed)) (reload src (run evs (new q))))
     = job_of <$> filter (λ entry, accepted entry = true) parsed).
Proof.
  intros Hsrc. set (s := run evs (new q)).
  assert (timers_tracked s) as Htr by apply tracked_run, timers_tracked_new.
  assert (reload src s
          = log (Error_load_failed err) (stopCronTasks (log Info_reloading s)))
    as Heq by (by destruct Hsrc as [-> | ->]).
  assert (Forall (λ task, running task = false) (timers (reload src s)))
    as Hall.
  { rewrite Heq. simpl.
    apply (stopCronTasks_all_stopped (log Info_reloading s)).
    intros h' task. apply Htr. }
  split_and!.
  - by rewrite Heq.
  - by rewrite Heq.
  - by rewrite Heq.
  - rewrite Heq. simpl. by rewrite <- app_assoc.
  - by rewrite Heq.
  - unfold running_jobs. by rewrite running_jobs_stopped.
  - apply fire_stopped. unfold is_running.
    destruct (timers (reload src s) !! h) as [task|] eqn:Hlook; [|done].
    rewrite Forall_lookup in Hall. by apply (Hall h).
  - intros Hnonnull. apply reload_running_jobs; [|done].
    by apply tracked_reload.
Qed.

(** ** Task keys of cron firings *)

Lemma dash_free_app_dash (a d : string) : ¬ dash_free (a +:+ String "-" d).
Proof. induction a as [|c a IH]; simpl; [by intros [? _] | by intros [_ ?]]. Qed.

(** A text followed by [-] and a dash-free suffix splits in one way only. *)
Lemma split_last_dash (a1 a2 d1 d2 : string) :
  dash_free d1 → dash_free d2 →
  a1 +:+ String "-" d1 = a2 +:+ String "-" d2 → a1 = a2 ∧ d1 = d2.
Proof.
  intros Hd1 Hd2. revert a2.
  induction a1 as [|c a1 IH]; intros [|c' a2]; simpl; intros Heq.
  - by injection Heq as ->.
  - injection Heq as _ ->. by apply dash_free_app_dash in Hd1.
  - injection Heq as _ <-. by apply dash_free_app_dash in Hd2.
  - injection Heq as -> Heq. apply IH in Heq as [-> ->]. done.
Qed.

Lemma pretty_N_go_dash_free (x : N) (text : string) :
  dash_free text → dash_free (pretty_N_go x text).
Proof.
  revert text. induction (N.lt_wf_0 x) as [x _ IH]; intros text Htext.
  assert (x = 0 ∨ 0 < x)%N as [->|Hpos] by lia.
  - by rewrite pretty_N_go_0.
  - rewrite pretty_N_go_step by done. apply IH.
    { by apply N.div_lt. }
    split; [|done]. unfold pretty_N_char. by repeat case_match.
Qed.

Lemma pretty_nonneg_dash_free (now : Z) : (0 ≤ now)%Z → dash_free (pretty now).
Proof.
  intros Hnow. destruct now as [|p|p]; [done | | lia].
  unfold pretty, pretty_Z, pretty, pretty_positive, pretty, pretty_N.
  case_decide; [done|]. by apply pretty_N_go_dash_free.
Qed.

Lemma task_key_time_inj text (now now' : Z) :
  task_key text now = task_key text now' → now = now'.
Proof.
  unfold task_key. intros Heq.
  apply (inj (String.app "scheduler-")) in Heq.
  apply (inj (String.app text)) in Heq.
  apply (inj (String.app "-")) in Heq.
  by apply (inj pretty) in Heq.
Qed.

Lemma task_key_inj text text' (now now' : Z) :
  (0 ≤ now)%Z → (0 ≤ now')%Z →
  task_key text now = task_key text' now' → text = text' ∧ now = now'.
Proof.
  unfold task_key. intros Hnow Hnow' Heq.
  apply (inj (String.app "scheduler-")) in Heq.
  change (text +:+ String "-" (pretty now)
          = text' +:+ String "-" (pretty now')) in Heq.
  apply split_last_dash in Heq as [? Heq];
    [|by apply pretty_nonneg_dash_free..].
  split; [done|]. by apply (inj pretty) in Heq.
Qed.

Lemma taskId_converted job text now :
  ToString (name job) = Normal text →
  taskId job now = Normal (task_key text now).
Proof. intros Htext. unfold Scheduler.taskId. by rewrite Htext. Qed.

(** The channel a firing uses: the one of the job when it is truthy, the
    configured one otherwise, and none when that one is empty too. *)
Lemma resolve_channel_cases job :
  (truthy (slackChannel job) = true → resolve_channel job = slackChannel job)
  ∧ (truthy (slackChannel job) = false → notifySlackChannel ≠ "" →
     resolve_channel job = Str notifySlackChannel)
  ∧ (truthy (slackChannel job) = false → notifySlackChannel = "" →
     truthy (resolve_channel job) = false).
Proof.
  unfold Scheduler.resolve_channel, or_else. split_and!.
  - intros Hjob. by rewrite !Hjob.
  - intros Hjob Hcfg. rewrite Hjob. simpl.
    by rewrite bool_decide_eq_false_2.
  - intros Hjob Hcfg. rewrite Hjob. simpl.
    by rewrite bool_decide_eq_true_2.
Qed.

(** A firing whose key is in flight leaves the pending list, the active map
    and the started tasks of the queue as they are. *)
Lemma on_cron_in_flight job text now s :
  ToString (name job) = Normal text →
  TaskQueue.isActive (task_key text now) (taskQueue s) = true
  ∨ TaskQueue.isPending (task_key text now) (taskQueue s) = true →
  TaskQueue.queue (taskQueue (on_cron job now s))
  = TaskQueue.queue (taskQueue s)
  ∧ TaskQueue.activeTasks (taskQueue (on_cron job now s))
    = TaskQueue.activeTasks (taskQueue s)
  ∧ TaskQueue.started (taskQueue (on_cron job now s))
    = TaskQueue.started (taskQueue s).
Proof.
  intros Htext Hflight. rewrite (on_cron_converted _ _ _ _ Htext).
  destruct (negb (truthy _)); simpl; [done|].
  by rewrite (TaskQueueFacts.enqueue_duplicate (firing_task text job now)).
Qed.

(** C9, amended.  The key [scheduler-<name>-<time>] is built first, from
    the string form of the name: for a name that cannot be converted the
    firing throws after its first log line, without a warning and without
    touching the queue.  Otherwise: a firing of a job whose own channel is
    falsy, with no fallback channel configured, only logs the warning and
    leaves the queue as it was; with a channel of its own the job is
    offered to the queue once, with that channel, and with only a fallback
    channel once, with the fallback.  The key determines the fire time, and
    for times on or after the epoch the string form of the name as well;
    it does not tell two jobs of the same name apart: a second firing with
    the same name in the same millisecond gets the same key, and the queue
    drops it. *)
Theorem enqueueJob_channel_and_key job job' (now now' : Z) s :
  (∀ err, ToString (name job) = Throw err →
     enqueueJob job now s = Throw err
     ∧ on_cron job now s = log (Info_triggered (name job)) s)
  ∧ (∀ text, ToString (name job) = Normal text →
     taskId job now
     = Normal ("scheduler-" +:+ text +:+ "-" +:+ pretty now)
     ∧ (truthy (slackChannel job) = false → notifySlackChannel = "" →
        on_cron job now s
        = log (Warn_no_channel (name job))
            (log (Info_triggered (name job)) s)
        ∧ taskQueue (on_cron job now s) = taskQueue s)
     ∧ (truthy (slackChannel job) = true →
        taskQueue (on_cron job now s)
        = (TaskQueue.enqueue
             {| TaskQueue.id := "scheduler-" +:+ text +:+ "-" +:+ pretty now;
                TaskQueue.source := "scheduler";
                TaskQueue.execute := job_body (slackChannel job) job |}
             (taskQueue s)).2)
     ∧ (truthy (slackChannel job) = false → notifySlackChannel ≠ "" →
        taskQueue (on_cron job now s)
        = (TaskQueue.enqueue
             {| TaskQueue.id := "scheduler-" +:+ text +:+ "-" +:+ pretty now;
                TaskQueue.source := "scheduler";
                TaskQueue.execute := job_body (Str notifySlackChannel) job |}
             (taskQueue s)).2)
     ∧ (taskId job now' = taskId job now → now' = now)
     ∧ (∀ text', ToString (name job') = Normal text' →
        (0 ≤ now)%Z → (0 ≤ now')%Z →
        taskId job' now' = taskId job now → text' = text ∧ now' = now)
     ∧ (ToString (name job') = Normal text →
        truthy (resolve_channel job) = true →
        truthy (resolve_channel job') = true →
        taskId job' now = taskId job now
        ∧ TaskQueue.queue (taskQueue (on_cron job' now (on_cron job now s)))
          = TaskQueue.queue (taskQueue (on_cron job now s))
        ∧ TaskQueue.activeTasks
            (taskQueue (on_cron job' now (on_cron job now s)))
          = TaskQueue.activeTasks (taskQueue (on_cron job now s))
        ∧ TaskQueue.started
            (taskQueue (on_cron job' now (on_cron job now s)))
          = TaskQueue.started (taskQueue (on_cron job now s)))).
Proof.
  destruct (resolve_channel_cases job) as (Hown & Hfallback & Hnone).
  split.
  { intros err Herr. split;
      [by apply enqueueJob_throws | by eapply on_cron_throws]. }
  intros text Htext.
  pose proof (on_cron_converted job text now s Htext) as Hfire.
  unfold Scheduler.firing_task, task_key in Hfire.
  split_and!.
  - by apply taskId_converted.
  - intros Hjob Hcfg. rewrite Hfire, (Hnone Hjob Hcfg). done.
  - intros Hjob. rewrite Hfire, (Hown Hjob), Hjob. done.
  - intros Hjob Hcfg. rewrite Hfire, (Hfallback Hjob Hcfg). simpl.
    by rewrite bool_decide_eq_false_2.
  - rewrite !(taskId_converted _ _ _ Htext). intros Heq.
    assert (task_key text now' = task_key text now) as Hkey by congruence.
    by apply task_key_time_inj in Hkey.
  - intros text' Htext' Hnow Hnow'.
    rewrite (taskId_converted _ _ _ Htext), (taskId_converted _ _ _ Htext').
    intros Heq.
    assert (task_key text' now' = task_key text now) as Hkey by congruence.
    by apply task_key_inj in Hkey.
  - intros Htext' Hsome Hsome'. split.
    { by rewrite (taskId_converted _ _ _ Htext),
        (taskId_converted _ _ _ Htext'). }
    apply (on_cron_in_flight job' text now _ Htext').
    rewrite Hfire, Hsome. simpl.
    apply (TaskQueueFacts.enqueue_in_flight (firing_task text job now)).
Qed.

(** A [null] entry anywhere in the list makes [loadJobs] give up: the
    exception raised by reading [job.name] is caught by the handler around
    the whole method, after [this.jobs] has been reset and before
    [scheduleCronTasks] is reached. *)
Lemma loadJobs_null_entry before after s :
  forallb (λ entry, negb (nullish entry)) before = true →
  timers (loadJobs (Parsed (Arr (before ++ Null :: after))) s) = timers s
  ∧ cronTasks (loadJobs (Parsed (Arr (before ++ Null :: after))) s)
    = cronTasks s
  ∧ jobs (loadJobs (Parsed (Arr (before ++ Null :: after))) s)
    = job_of <$> filter (λ entry, accepted entry = true) before.
Proof.
  intros Hall. simpl.
  destruct (load_entries_null before after (set_jobs [] s) Hall)
    as [Hthrown Hjobs].
  pose proof (load_entries_frame (before ++ Null :: after) (set_jobs [] s))
    as (_ & Hc & Ht & _).
  destruct (load_entries (before ++ Null :: after) (set_jobs [] s))
    as [s1 thrown].
  simpl in *. subst thrown. simpl. by rewrite Hc, Ht, Hjobs.
Qed.

(** ** Further properties of the scheduler *)

Local Abbreviation rejection := (Scheduler.rejection cron_validate).

Lemma all_stopped_is_idle s h now :
  Forall (λ task, running task = false) (timers s) →
  running_jobs s = [] ∧ fire h now s = s.
Proof.
  intros Hall. split.
  - unfold running_jobs. by rewrite running_jobs_stopped.
  - apply fire_stopped. unfold is_running.
    destruct (timers s !! h) as [task|] eqn:Hlook; [|done].
    rewrite Forall_lookup in Hall. by apply (Hall h).
Qed.

(** After [stop()], in any state the scheduler can reach, no task is
    scheduled and the file is no longer watched: matching times and file
    changes leave the scheduler exactly as [stop()] left it, so nothing
    more is offered to the queue. *)
Theorem stop_silences q (evs evs' : list (event Body)) :
  forallb from_outside evs' = true →
  running_jobs (stop (run evs (new q))) = []
  ∧ listeners (stop (run evs (new q))) = 0
  ∧ jobs (stop (run evs (new q))) = jobs (run evs (new q))
  ∧ taskQueue (stop (run evs (new q))) = taskQueue (run evs (new q))
  ∧ run evs' (stop (run evs (new q))) = stop (run evs (new q)).
Proof.
  intros Hquiet. set (s := run evs (new q)).
  assert (timers_tracked s) as Htr by apply tracked_run, timers_tracked_new.
  assert (Forall (λ task, running task = false) (timers (stop s))) as Hall.
  { apply (stopCronTasks_all_stopped s Htr). }
  split_and!; [by apply (all_stopped_is_idle _ 0 0%Z) | done..|].
  induction evs' as [|e evs' IH]; simpl; [done|].
  simpl in Hquiet. apply andb_true_iff in Hquiet as [He Hquiet].
  assert (step (stop s) e = stop s) as ->; [|by apply IH].
  destruct e as [| src | | h now |]; try done; simpl.
  by apply all_stopped_is_idle.
Qed.

(** A reload that finds no file, or a file whose content is not an array,
    leaves no task scheduled in any state the scheduler can reach; the
    stored definitions are kept and one line is logged after the reload
    notice. *)
Theorem reload_without_list_goes_idle q (evs : list (event Body)) src h now :
  src = NoFile ∨ (∃ v, src = Parsed v ∧ ∀ parsed, v ≠ Arr parsed) →
  running_jobs (reload src (run evs (new q))) = []
  ∧ fire h now (reload src (run evs (new q))) = reload src (run evs (new q))
  ∧ cronTasks (reload src (run evs (new q))) = []
  ∧ jobs (reload src (run evs (new q))) = jobs (run evs (new q))
  ∧ logger (reload src (run evs (new q)))
    = logger (run evs (new q))
      ++ [Info_reloading;
          match src with NoFile => Info_no_jobs_file | _ => Warn_not_array end].
Proof.
  intros Hsrc. set (s := run evs (new q)).
  assert (timers_tracked s) as Htr by apply tracked_run, timers_tracked_new.
  assert (reload src s
          = log (match src with
                 | NoFile => Info_no_jobs_file
                 | _ => Warn_not_array
                 end)
              (stopCronTasks (log Info_reloading s))) as Heq.
  { destruct Hsrc as [->|(v & -> & Hv)]; [done|].
    unfold Scheduler.reload. simpl.
    destruct v as [| | | | |parsed|]; try done. by destruct (Hv parsed). }
  assert (Forall (λ task, running task = false) (timers (reload src s)))
    as Hall.
  { rewrite Heq. simpl.
    apply (stopCronTasks_all_stopped (log Info_reloading s)).
    intros h' task. apply Htr. }
  destruct (all_stopped_is_idle (reload src s) h now Hall) as [Hidle Hfire].
  split_and!; [done | done | by rewrite Heq | by rewrite Heq |].
  rewrite Heq. simpl. by rewrite <- app_assoc.
Qed.

(** ** [loadJobs] on a list without [null] entries, in full *)

Lemma load_entries_log parsed s :
  forallb (λ entry, negb (nullish entry)) parsed = true →
  logger (load_entries parsed s).1 = logger s ++ omap rejection parsed.
Proof.
  revert s. induction parsed as [|entry parsed IH]; intros s Hall; simpl.
  { by rewrite app_nil_r. }
  simpl in Hall. apply andb_true_iff in Hall as [Hn Hall].
  apply negb_true_iff in Hn. rewrite (load_entry_checked _ _ Hn).
  rewrite IH by done. unfold Scheduler.rejection.
  destruct (accepted entry); simpl; [done|].
  destruct (truthy (prop entry "name") && truthy (prop entry "schedule")
            && truthy (prop entry "prompt")); simpl;
    by rewrite <- app_assoc.
Qed.

Lemma loadJobs_without_null parsed s :
  forallb (λ entry, negb (nullish entry)) parsed = true →
  jobs (loadJobs (Parsed (Arr parsed)) s)
  = job_of <$> filter (λ entry, accepted entry = true) parsed
  ∧ timers (loadJobs (Parsed (Arr parsed)) s)
    = timers s
      ++ (new_task <$> jobs (loadJobs (Parsed (Arr parsed)) s))
  ∧ running_jobs (loadJobs (Parsed (Arr parsed)) s)
    = running_jobs s ++ jobs (loadJobs (Parsed (Arr parsed)) s)
  ∧ logger (loadJobs (Parsed (Arr parsed)) s)
    = logger s ++ omap rejection parsed
      ++ [Info_loaded
            (length (jobs (loadJobs (Parsed (Arr parsed)) s)))
            (name <$> jobs (loadJobs (Parsed (Arr parsed)) s))].
Proof.
  intros Hall.
  pose proof (loadJobs_jobs parsed s Hall) as Hjobs.
  assert (timers (loadJobs (Parsed (Arr parsed)) s)
          = timers s ++ (new_task <$> jobs (loadJobs (Parsed (Arr parsed)) s)))
    as Htimers.
  { destruct (loadJobs_timers (Parsed (Arr parsed)) s)
      as (js & Ht & _ & _ & _ & [->|[_ Hno]]); [done|].
    exfalso. apply Hno. exists parsed. split; [done|].
    by apply load_entries_all. }
  split_and!; [done | done | |].
  - unfold running_jobs at 1. rewrite Htimers, filter_app, fmap_app.
    by rewrite running_jobs_new.
  - rewrite Hjobs. simpl.
    destruct (load_entries_all parsed (set_jobs [] s) Hall) as [Hnone Hj].
    pose proof (load_entries_log parsed (set_jobs [] s) Hall) as Hlog.
    destruct (load_entries parsed (set_jobs [] s)) as [s1 thrown].
    simpl in *. subst thrown. unfold scheduleCronTasks. simpl.
    destruct (schedule_all (jobs s1)
      (log (Info_loaded (length (jobs s1)) (name <$> jobs s1)) s1))
      as (_ & _ & _ & _ & _ & ->).
    simpl. by rewrite Hlog, Hj, <- app_assoc.
Qed.

(** Each entry of a list without [null] is judged on its own: [loadJobs]
    stores the accepted entries in file order, schedules one new task for
    each of them without stopping any task that was already scheduled, and
    logs one warning per skipped entry, in file order, followed by the
    summary line. *)
Theorem loadJobs_judges_each_entry parsed s :
  forallb (λ entry, negb (nullish entry)) parsed = true →
  jobs (loadJobs (Parsed (Arr parsed)) s)
  = job_of <$> filter (λ entry, accepted entry = true) parsed
  ∧ timers (loadJobs (Parsed (Arr parsed)) s)
    = timers s
      ++ (new_task <$> jobs (loadJobs (Parsed (Arr parsed)) s))
  ∧ running_jobs (loadJobs (Parsed (Arr parsed)) s)
    = running_jobs s ++ jobs (loadJobs (Parsed (Arr parsed)) s)
  ∧ logger (loadJobs (Parsed (Arr parsed)) s)
    = logger s ++ omap rejection parsed
      ++ [Info_loaded
            (length (jobs (loadJobs (Parsed (Arr parsed)) s)))
            (name <$> jobs (loadJobs (Parsed (Arr parsed)) s))].
Proof. apply loadJobs_without_null. Qed.

(** ** Firings and the queue *)

Lemma on_cron_enqueues job text now s :
  ToString (name job) = Normal text →
  truthy (resolve_channel job) = true →
  taskQueue (on_cron job now s)
  = (TaskQueue.enqueue (firing_task text job now) (taskQueue s)).2.
Proof.
  intros Htext Hsome. by rewrite (on_cron_converted _ _ _ _ Htext), Hsome.
Qed.

(** A recurring job runs every time it fires: when its name has a string
    form and a channel is resolved, two firings of the job at different
    times whose keys are not in flight both put their task on the queue, in
    firing order.  Two firings within the same millisecond share their key,
    and the queue admits only the first. *)
Theorem firings_and_keys job text (t1 t2 : Z) s :
  ToString (name job) = Normal text →
  truthy (resolve_channel job) = true →
  t1 ≠ t2 →
  TaskQueue.isActive (task_key text t1) (taskQueue s) = false →
  TaskQueue.isPending (task_key text t1) (taskQueue s) = false →
  TaskQueue.isActive (task_key text t2) (taskQueue s) = false →
  TaskQueue.isPending (task_key text t2) (taskQueue s) = false →
  TaskQueue.started (taskQueue (on_cron job t2 (on_cron job t1 s)))
    ++ TaskQueue.queue (taskQueue (on_cron job t2 (on_cron job t1 s)))
  = TaskQueue.started (taskQueue s) ++ TaskQueue.queue (taskQueue s)
    ++ [firing_task text job t1; firing_task text job t2]
  ∧ TaskQueue.started (taskQueue (on_cron job t1 (on_cron job t1 s)))
      ++ TaskQueue.queue (taskQueue (on_cron job t1 (on_cron job t1 s)))
    = TaskQueue.started (taskQueue s) ++ TaskQueue.queue (taskQueue s)
      ++ [firing_task text job t1].
Proof.
  intros Htext Hsome Hne Ha1 Hp1 Ha2 Hp2.
  rewrite !(on_cron_enqueues _ text) by done.
  set (q := taskQueue s) in *.
  assert (∀ (task : TaskQueue.QueuedTask Body) (q0 : TaskQueue.t Body),
            TaskQueue.isActive (TaskQueue.id task) q0 = false →
            TaskQueue.isPending (TaskQueue.id task) q0 = false →
            TaskQueue.started (TaskQueue.enqueue task q0).2
              ++ TaskQueue.queue (TaskQueue.enqueue task q0).2
            = TaskQueue.started q0 ++ TaskQueue.queue q0 ++ [task])
    as Hfresh.
  { intros task q0 Ha Hp. rewrite TaskQueueFacts.enqueue_order.
    by rewrite (TaskQueueFacts.enqueue_fresh _ _ Ha Hp). }
  pose proof (Hfresh (firing_task text job t1) q Ha1 Hp1) as Hfirst.
  split.
  - destruct (TaskQueueFacts.enqueue_other_key (firing_task text job t1)
                (task_key text t2) q) as [Ha Hp]; [|done..|].
    { simpl. intros Heq. by apply Hne, eq_sym, (task_key_time_inj text). }
    rewrite (Hfresh (firing_task text job t2)) by done.
    rewrite app_assoc, Hfirst, <- !app_assoc. done.
  - destruct (TaskQueueFacts.enqueue_twice_admits_once
                (firing_task text job t1) (firing_task text job t1) q eq_refl)
      as (_ & -> & _ & ->).
    exact Hfirst.
Qed.

(** From the file to the queue: after [start()] on a fresh scheduler has
    loaded a list without [null] entries, a matching time of the task
    created for the [h]-th accepted entry hands the queue one task, built
    from that entry and keyed by the string form of its name and the time,
    provided the name has a string form and a channel is resolved for it;
    afterwards that key is in flight.  When the name has no string form the
    firing throws and the queue stays as it was. *)
Theorem loaded_job_fires_into_queue parsed (w : bool) q h job now :
  forallb (λ entry, negb (nullish entry)) parsed = true →
  (job_of <$> filter (λ entry, accepted entry = true) parsed) !! h
  = Some job →
  (∀ text, ToString (name job) = Normal text →
     truthy (resolve_channel job) = true →
     taskQueue (fire h now (start (Parsed (Arr parsed)) w (new q)))
     = (TaskQueue.enqueue (firing_task text job now) q).2
     ∧ (TaskQueue.isActive (task_key text now)
          (taskQueue (fire h now (start (Parsed (Arr parsed)) w (new q))))
        = true
        ∨ TaskQueue.isPending (task_key text now)
            (taskQueue (fire h now (start (Parsed (Arr parsed)) w (new q))))
          = true))
  ∧ (∀ err, ToString (name job) = Throw err →
     taskQueue (fire h now (start (Parsed (Arr parsed)) w (new q))) = q).
Proof.
  intros Hall Hjob.
  destruct (loadJobs_without_null parsed (new q) Hall)
    as (Hjobs & Htimers & _ & _).
  destruct (loadJobs_timers (Parsed (Arr parsed)) (new q))
    as (_ & _ & _ & Hqueue & _ & _).
  set (s := start (Parsed (Arr parsed)) w (new q)).
  assert (timers s !! h = Some (new_task job) ∧ taskQueue s = q)
    as [Hlook Hq].
  { subst s. unfold Scheduler.start.
    assert (timers (loadJobs (Parsed (Arr parsed)) (new q)) !! h
            = Some (new_task job)) as Hl.
    { rewrite Htimers, Hjobs. simpl. by rewrite list_lookup_fmap, Hjob. }
    by destruct w. }
  assert (fire h now s = on_cron job now s) as Hfire.
  { unfold Scheduler.fire. by rewrite Hlook. }
  rewrite Hfire. split.
  - intros text Htext Hsome.
    rewrite (on_cron_enqueues _ _ _ _ Htext Hsome), Hq. split; [done|].
    apply (TaskQueueFacts.enqueue_in_flight (firing_task text job now) q).
  - intros err Herr. by rewrite (on_cron_throws _ _ _ _ Herr).
Qed.

End facts.

(** Instances of the scheduler claims on a small job list. *)

Import Examples.

(** C5, counterexample.  After a start that scheduled [digest], a reload
    that meets a syntax error leaves no task scheduled, although one was
    running before. *)
Lemma last_good_timers_kept_counterexample :
  ¬ last_good_timers_kept validate show "" body.
Proof.
  intros Hclaim.
  specialize (Hclaim (TaskQueue.new 2) boot
                (SyntaxError "Unexpected end of JSON input")
                "Unexpected end of JSON input" (or_intror eq_refl)).
  vm_compute in Hclaim. discriminate Hclaim.
Qed.

Lemma reload_failure_goes_idle_witness :
  (SyntaxError "Unexpected end of JSON input"
   = ReadError "Unexpected end of JSON input"
   ∨ SyntaxError "Unexpected end of JSON input"
     = SyntaxError "Unexpected end of JSON input")
  ∧ jobs (reload validate (SyntaxError "Unexpected end of JSON input")
            (run validate show "" body boot idle))
    = [job_of digest]
  ∧ running_jobs
      (reload validate (SyntaxError "Unexpected end of JSON input")
         (run validate show "" body boot idle))
    = [].
Proof.
  split; [by right|].
  destruct (reload_failure_goes_idle validate show "" body
              (TaskQueue.new 2) boot
              (SyntaxError "Unexpected end of JSON input")
              "Unexpected end of JSON input" 0%nat 0 []
              (or_intror eq_refl))
    as (Hjobs & _ & _ & _ & _ & Hidle & _).
  split; [|exact Hidle].
  etransitivity; [exact Hjobs|]. vm_compute. reflexivity.
Defined.

Lemma reload_replaces_timers_witness :
  running_jobs
    (reload validate (Parsed (Arr [cleanup; report]))
       (run validate show "" body boot idle))
  = [job_of report]
  ∧ is_running
      (reload validate (Parsed (Arr [cleanup; report]))
         (run validate show "" body boot idle)) 0
    = false.
Proof.
  destruct (reload_replaces_timers validate show "" body
              (TaskQueue.new 2) boot [] (Parsed (Arr [cleanup; report]))
              0%nat 0 [cleanup; report])
    as (_ & Hold & _ & Hnew).
  split.
  - etransitivity; [apply Hnew; reflexivity|]. vm_compute. reflexivity.
  - apply Hold. vm_compute. lia.
Defined.

(** C8, at a failing input.  A list whose first entry is [null] loads
    nothing: the valid sibling [digest] is neither stored nor scheduled and
    the only trace is the error logged by the handler of [loadJobs].  The
    same sibling on its own is loaded and scheduled. *)
Theorem loadJobs_null_entry_drops_sibling :
  jobs (loadJobs validate (Parsed (Arr [Null; digest])) idle) = []
  ∧ timers (loadJobs validate (Parsed (Arr [Null; digest])) idle) = []
  ∧ logger (loadJobs validate (Parsed (Arr [Null; digest])) idle)
    = [Error_load_failed "TypeError"]
  ∧ accepted validate digest = true
  ∧ running_jobs (loadJobs validate (Parsed (Arr [digest])) idle)
    = [job_of digest].
Proof. vm_compute. by repeat split. Qed.

(** An invalid entry that is not [null] is skipped and its siblings load. *)
Example loadJobs_skips_invalid :
  running_jobs
    (loadJobs validate (Parsed (Arr [cleanup; Str "digest"; digest; report]))
       idle)
  = [job_of digest; job_of report].
Proof. vm_compute. reflexivity. Qed.

(** C9, counterexample.  The two jobs named [digest] differ in their
    prompt and channel; fired in the same millisecond they get the same
    key. *)
Lemma key_unique_per_firing_counterexample : ¬ key_unique_per_firing show.
Proof.
  intros Hclaim.
  apply (Hclaim (job_of digest) (job_of digest_again)
           1767290400000%Z 1767290400000%Z "scheduler-digest-1767290400000").
  - discriminate.
  - vm_compute. reflexivity.
  - vm_compute. reflexivity.
Qed.

(** [report] has no channel of its own: without a fallback its firing is
    dropped, with the fallback [C0FALLBACK] it is offered with that
    channel.  [digest] is offered with its own channel, a firing of
    [digest_again] in the same millisecond is dropped by the queue, and a
    firing of [masked] throws. *)
Lemma enqueueJob_channel_and_key_witness :
  taskQueue (on_cron show "" body (job_of report) 1767290400000 idle)
  = taskQueue idle
  ∧ TaskQueue.started
      (taskQueue
         (on_cron show "C0FALLBACK" body (job_of report) 1767290400000
            idle))
    = [{| TaskQueue.id := "scheduler-report-1767290400000";
          TaskQueue.source := "scheduler";
          TaskQueue.execute := (Str "C0FALLBACK", job_of report) |}]
  ∧ TaskQueue.started
      (taskQueue
         (on_cron show "C0FALLBACK" body (job_of digest) 1767290400000
            idle))
    = [{| TaskQueue.id := "scheduler-digest-1767290400000";
          TaskQueue.source := "scheduler";
          TaskQueue.execute := (Str "C0123", job_of digest) |}]
  ∧ TaskQueue.started
      (taskQueue
         (on_cron show "" body (job_of digest_again) 1767290400000
            (on_cron show "" body (job_of digest) 1767290400000 idle)))
    = [{| TaskQueue.id := "scheduler-digest-1767290400000";
          TaskQueue.source := "scheduler";
          TaskQueue.execute := (Str "C0123", job_of digest) |}]
  ∧ enqueueJob show "" body (job_of masked) 1767290400000 idle
    = Throw "TypeError".
Proof.
  destruct (enqueueJob_channel_and_key show "" body
              (job_of report) (job_of report) 1767290400000 0 idle)
    as (_ & Hreport).
  destruct (Hreport "report" eq_refl) as (_ & Hnone & _).
  destruct (enqueueJob_channel_and_key show "C0FALLBACK" body
              (job_of report) (job_of report) 1767290400000 0 idle)
    as (_ & Hreport').
  destruct (Hreport' "report" eq_refl) as (_ & _ & _ & Hfallback & _).
  destruct (enqueueJob_channel_and_key show "C0FALLBACK" body
              (job_of digest) (job_of digest) 1767290400000 0 idle)
    as (_ & Hdigest).
  destruct (Hdigest "digest" eq_refl) as (_ & _ & Hown & _).
  destruct (enqueueJob_channel_and_key show "" body
              (job_of digest) (job_of digest_again) 1767290400000 0 idle)
    as (_ & Hboth).
  destruct (Hboth "digest" eq_refl) as (_ & _ & _ & _ & _ & _ & Hsame).
  destruct (Hsame eq_refl eq_refl eq_refl) as (_ & _ & _ & Hstarted).
  destruct (enqueueJob_channel_and_key show "" body
              (job_of masked) (job_of masked) 1767290400000 0 idle)
    as (Hthrows & _).
  split_and!.
  - apply Hnone; reflexivity.
  - rewrite Hfallback; [|reflexivity|discriminate]. vm_compute. reflexivity.
  - rewrite Hown by reflexivity. vm_compute. reflexivity.
  - rewrite Hstarted. vm_compute. reflexivity.
  - apply Hthrows. reflexivity.
Defined.

Lemma stop_silences_witness :
  forallb (from_outside (Body := value * JobDefinition))
    [Fire 0 1767290400000; Change (λ _, Parsed (Arr [report]))] = true
  ∧ run validate show "" body
      [Fire 0 1767290400000; Change (λ _, Parsed (Arr [report]))]
      (stop (run validate show "" body boot idle))
    = stop (run validate show "" body boot idle).
Proof.
  split; [reflexivity|].
  destruct (stop_silences validate show "" body (TaskQueue.new 2) boot
              [Fire 0 1767290400000; Change (λ _, Parsed (Arr [report]))])
    as (_ & _ & _ & _ & Hsame).
  - reflexivity.
  - exact Hsame.
Defined.

Lemma reload_without_list_goes_idle_witness :
  (NoFile = NoFile ∨ ∃ v, NoFile = Parsed v ∧ ∀ parsed, v ≠ Arr parsed)
  ∧ running_jobs
      (reload validate NoFile (run validate show "" body boot idle))
    = []
  ∧ jobs (reload validate NoFile (run validate show "" body boot idle))
    = jobs (run validate show "" body boot idle).
Proof.
  split; [by left|].
  destruct (reload_without_list_goes_idle validate show "" body
              (TaskQueue.new 2) boot NoFile 0%nat 0 (or_introl eq_refl))
    as (Hidle & _ & _ & Hjobs & _).
  split; [exact Hidle | exact Hjobs].
Defined.

Lemma loadJobs_judges_each_entry_witness :
  forallb (λ entry, negb (nullish entry)) [cleanup; Str "digest"; digest]
  = true
  ∧ jobs (loadJobs validate (Parsed (Arr [cleanup; Str "digest"; digest]))
            idle)
    = [job_of digest]
  ∧ logger (loadJobs validate (Parsed (Arr [cleanup; Str "digest"; digest]))
              idle)
    = [Warn_invalid_cron (Str "cleanup") (Str "every now and then");
       Warn_invalid_job (Str "digest");
       Info_loaded 1 [Str "digest"]].
Proof.
  split; [reflexivity|].
  destruct (loadJobs_judges_each_entry validate
              [cleanup; Str "digest"; digest] idle eq_refl)
    as (Hjobs & _ & _ & Hlog).
  split.
  - rewrite Hjobs. vm_compute. reflexivity.
  - rewrite Hlog, Hjobs. vm_compute. reflexivity.
Defined.

Lemma firings_and_keys_witness :
  truthy (resolve_channel "" (job_of digest)) = true
  ∧ (1767290400000 ≠ 1767376800000)%Z
  ∧ TaskQueue.id
      <$> TaskQueue.started
            (taskQueue
               (on_cron show "" body (job_of digest) 1767376800000
                  (on_cron show "" body (job_of digest) 1767290400000
                     idle)))
          ++ TaskQueue.queue
               (taskQueue
                  (on_cron show "" body (job_of digest) 1767376800000
                     (on_cron show "" body (job_of digest)
                        1767290400000 idle)))
    = ["scheduler-digest-1767290400000"; "scheduler-digest-1767376800000"].
Proof.
  split; [reflexivity|]. split; [discriminate|].
  destruct (firings_and_keys show "" body (job_of digest) "digest"
              1767290400000 1767376800000 idle) as [Hboth _].
  - reflexivity.
  - reflexivity.
  - discriminate.
  - vm_compute. reflexivity.
  - vm_compute. reflexivity.
  - vm_compute. reflexivity.
  - vm_compute. reflexivity.
  - rewrite Hboth. vm_compute. reflexivity.
Defined.

Lemma loaded_job_fires_into_queue_witness :
  (job_of <$> filter (λ entry, accepted validate entry = true)
                [cleanup; digest]) !! 0%nat
  = Some (job_of digest)
  ∧ TaskQueue.id
      <$> TaskQueue.started
            (taskQueue
               (fire show "" body 0 1767290400000
                  (start validate (Parsed (Arr [cleanup; digest])) false
                     idle)))
    = ["scheduler-digest-1767290400000"]
  ∧ taskQueue
      (fire show "" body 0 1767290400000
         (start validate (Parsed (Arr [masked])) false idle))
    = TaskQueue.new 2.
Proof.
  split; [vm_compute; reflexivity|].
  destruct (loaded_job_fires_into_queue validate show "" body
              [cleanup; digest] false (TaskQueue.new 2) 0%nat (job_of digest)
              1767290400000) as [Hqueue _].
  { reflexivity. }
  { vm_compute. reflexivity. }
  destruct (Hqueue "digest" eq_refl eq_refl) as [Heq _].
  destruct (loaded_job_fires_into_queue validate show "" body
              [masked] false (TaskQueue.new 2) 0%nat (job_of masked)
              1767290400000) as [_ Hthrows].
  { reflexivity. }
  { vm_compute. reflexivity. }
  split.
  - unfold idle. rewrite Heq. vm_compute. reflexivity.
  - apply (Hthrows "TypeError"). reflexivity.
Defined.
End SchedulerFacts.


(** * Properties of the webhook deduplication *)

Module WebhookServerFacts.
Import Js WebhookServer.

Section facts.
Variable webhookSecret : string.
Variable hmac_sha256_hex : string → string → string.
Variable JSON_parse : string → option value.

Implicit Types (s : t) (req retry : Request) (deliveryId : string).
Implicit Types (evs : list event) (now : Z).

Local Abbreviation check_signature :=
  (WebhookServer.check_signature webhookSecret hmac_sha256_hex).
Local Abbreviation parse_and_dispatch :=
  (WebhookServer.parse_and_dispatch JSON_parse).
Local Abbreviation handleGithubWebhook :=
  (WebhookServer.handleGithubWebhook webhookSecret hmac_sha256_hex JSON_parse).
Local Abbreviation step :=
  (WebhookServer.step webhookSecret hmac_sha256_hex JSON_parse).
Local Abbreviation run :=
  (WebhookServer.run webhookSecret hmac_sha256_hex JSON_parse).
Local Abbreviation authentic :=
  (WebhookServer.authentic webhookSecret hmac_sha256_hex).

Lemma check_signature_authentic req s :
  authentic req = true → check_signature req s = None.
Proof.
  unfold authentic, WebhookServer.check_signature.
  case_bool_decide as Hsecret; simpl; [done|].
  intros Hsig%bool_decide_eq_true. rewrite Hsig.
  rewrite Nat.eqb_refl. simpl. by rewrite bool_decide_eq_true_2.
Qed.

(** The signature check never calls the handler and never touches the
    cache. *)
Lemma check_signature_frame req s answer s' :
  check_signature req s = Some (answer, s') →
  recentDeliveries s' = recentDeliveries s
  ∧ deduplicationTtlMs s' = deduplicationTtlMs s
  ∧ dispatched s' = dispatched s.
Proof.
  unfold WebhookServer.check_signature.
  repeat case_match; intros [= <- <-]; done.
Qed.

Lemma parse_and_dispatch_frame req s :
  recentDeliveries (parse_and_dispatch req s).2 = recentDeliveries s
  ∧ deduplicationTtlMs (parse_and_dispatch req s).2 = deduplicationTtlMs s
  ∧ (dispatched (parse_and_dispatch req s).2 = dispatched s
     ∨ ∃ payload,
         dispatched (parse_and_dispatch req s).2
         = dispatched s ++ [(payload, req)]).
Proof.
  unfold WebhookServer.parse_and_dispatch, dispatch.
  destruct (JSON_parse (rawBody req)) as [payload|]; simpl; [|auto].
  destruct (githubHandler s); simpl; eauto.
Qed.

(** While a delivery id is in the cache, handling any request keeps it
    there with its timestamp and calls the handler for no request carrying
    that id. *)
Lemma handle_keeps deliveryId now0 req now s :
  deliveryId ≠ "" →
  recentDeliveries s !! deliveryId = Some now0 →
  recentDeliveries (handleGithubWebhook req now s).2 !! deliveryId = Some now0
  ∧ deduplicationTtlMs (handleGithubWebhook req now s).2
    = deduplicationTtlMs s
  ∧ dispatched_for deliveryId (dispatched (handleGithubWebhook req now s).2)
    = dispatched_for deliveryId (dispatched s).
Proof.
  intros Hne Hin. unfold WebhookServer.handleGithubWebhook.
  destruct (check_signature req s) as [[answer s']|] eqn:Hcheck.
  { apply check_signature_frame in Hcheck as (H1 & H2 & H3). simpl.
    by rewrite H1, H2, H3. }
  assert (∀ s0, x_github_delivery req ≠ Some deliveryId →
            dispatched_for deliveryId (dispatched (parse_and_dispatch req s0).2)
            = dispatched_for deliveryId (dispatched s0)) as Hother.
  { intros s0 Hreq.
    destruct (parse_and_dispatch_frame req s0) as (_ & _ & [->|[p ->]]);
      [done|].
    unfold dispatched_for. rewrite filter_app, filter_cons, decide_False
      by done.
    by rewrite filter_nil, app_nil_r. }
  destruct (x_github_delivery req) as [d|] eqn:Hd.
  - case_bool_decide as Hempty.
    + destruct (parse_and_dispatch_frame req s) as (-> & -> & _).
      split_and!; [done..|]. apply Hother. congruence.
    + case_bool_decide as Hknown; [done|].
      assert (d ≠ deliveryId) as Hdiff.
      { intros ->. apply Hknown. by rewrite Hin. }
      destruct (parse_and_dispatch_frame req
        (set_recentDeliveries (<[d:=now]> (recentDeliveries s)) s))
        as (-> & -> & _).
      split_and!.
      * simpl. by rewrite lookup_insert_ne.
      * done.
      * rewrite Hother by congruence. done.
  - destruct (parse_and_dispatch_frame req s) as (-> & -> & _).
    split_and!; [done..|]. by apply Hother.
Qed.

Lemma cleanupDeliveries_lookup now s deliveryId now0 :
  recentDeliveries (cleanupDeliveries now s) !! deliveryId = Some now0 ↔
  recentDeliveries s !! deliveryId = Some now0
  ∧ now - now0 ≤ deduplicationTtlMs s.
Proof.
  assert (recentDeliveries (cleanupDeliveries now s)
          = filter (λ entry : string * Z,
                      ¬ (deduplicationTtlMs s < now - entry.2))
              (recentDeliveries s)) as ->.
  { unfold cleanupDeliveries. by case_bool_decide. }
  rewrite map_lookup_filter_Some. simpl.
  split; intros [? ?]; split; auto; lia.
Qed.

Lemma cleanup_frame now s :
  deduplicationTtlMs (cleanupDeliveries now s) = deduplicationTtlMs s
  ∧ dispatched (cleanupDeliveries now s) = dispatched s.
Proof. unfold cleanupDeliveries. by case_bool_decide. Qed.

(** The entry survives any events whose cleanups all run within the TTL of
    its timestamp, and none of them hands its delivery to the handler. *)
Lemma run_keeps_delivery deliveryId now0 evs s :
  deliveryId ≠ "" →
  recentDeliveries s !! deliveryId = Some now0 →
  Forall (λ now, now - now0 ≤ deduplicationTtlMs s) (cleanups evs) →
  recentDeliveries (run evs s) !! deliveryId = Some now0
  ∧ dispatched_for deliveryId (dispatched (run evs s))
    = dispatched_for deliveryId (dispatched s).
Proof.
  intros Hne. revert s.
  induction evs as [|e evs IH]; intros s Hin Hcl; simpl; [done|].
  destruct e as [req now|now|]; simpl in *.
  - destruct (handle_keeps deliveryId now0 req now s Hne Hin)
      as (Hin' & Httl & Hcalls).
    destruct (IH (handleGithubWebhook req now s).2) as [? ?];
      [done | by rewrite Httl |].
    split; [done | congruence].
  - apply Forall_cons in Hcl as [Hnow Hcl].
    destruct (cleanup_frame now s) as [Httl Hcalls].
    destruct (IH (cleanupDeliveries now s)) as [? ?].
    + by apply cleanupDeliveries_lookup.
    + by rewrite Httl.
    + split; [done | congruence].
  - by apply (IH (setGithubHandler s)).
Qed.

(** C10.  A request with a fresh delivery id whose body is not valid JSON
    is answered 400 and the handler is not called, yet the id is now in the
    cache with the time of the request.  Whatever requests and cleanups
    follow, as long as every cleanup runs within the TTL of that time, no
    request carrying the id reaches the handler, and a retry that passes
    the signature check is answered 200 "duplicate" without a call to the
    handler. *)
Theorem invalid_json_consumes_delivery req retry deliveryId now now' evs s :
  authentic req = true → authentic retry = true →
  x_github_delivery req = Some deliveryId →
  x_github_delivery retry = Some deliveryId →
  deliveryId ≠ "" →
  recentDeliveries s !! deliveryId = None →
  JSON_parse (rawBody req) = None →
  Forall (λ t, t - now ≤ deduplicationTtlMs s) (cleanups evs) →
  (handleGithubWebhook req now s).1 = respond 400 "error" "Invalid JSON"
  ∧ dispatched (handleGithubWebhook req now s).2 = dispatched s
  ∧ recentDeliveries (handleGithubWebhook req now s).2 !! deliveryId
    = Some now
  ∧ dispatched_for deliveryId
      (dispatched (run evs (handleGithubWebhook req now s).2))
    = dispatched_for deliveryId (dispatched s)
  ∧ (handleGithubWebhook retry now'
       (run evs (handleGithubWebhook req now s).2)).1
    = respond 200 "status" "duplicate"
  ∧ dispatched
      (handleGithubWebhook retry now'
         (run evs (handleGithubWebhook req now s).2)).2
    = dispatched (run evs (handleGithubWebhook req now s).2).
Proof.
  intros Hreq Hretry Hid Hid' Hne Hfresh Hbad Hcl.
  assert ((handleGithubWebhook req now s)
          = (respond 400 "error" "Invalid JSON",
             set_recentDeliveries
               (<[deliveryId := now]> (recentDeliveries s)) s)) as Hfirst.
  { unfold WebhookServer.handleGithubWebhook.
    rewrite (check_signature_authentic _ _ Hreq), Hid.
    rewrite bool_decide_eq_false_2 by done.
    rewrite bool_decide_eq_false_2 by (rewrite Hfresh; by intros []).
    unfold WebhookServer.parse_and_dispatch. by rewrite Hbad. }
  rewrite Hfirst. simpl.
  set (s1 := set_recentDeliveries _ s).
  destruct (run_keeps_delivery deliveryId now evs s1 Hne) as [Hkept Hcalls].
  { apply lookup_insert_eq. }
  { done. }
  assert (handleGithubWebhook retry now' (run evs s1)
          = (respond 200 "status" "duplicate",
             log (Debug_duplicate deliveryId) (run evs s1))) as Hsecond.
  { unfold WebhookServer.handleGithubWebhook.
    rewrite (check_signature_authentic _ _ Hretry), Hid'.
    rewrite bool_decide_eq_false_2 by done.
    rewrite bool_decide_eq_true_2 by (rewrite Hkept; by eexists). done. }
  rewrite Hsecond. split_and!; try done. apply lookup_insert_eq.
Qed.
(** ** Further properties of the GitHub route *)

(** With a secret configured, a request whose signature header is absent
    or is not the expected digest changes neither the cache nor the calls
    to the handler; it is answered 401, or the comparison throws. *)
Theorem unsigned_request_is_stopped req now s :
  webhookSecret ≠ "" → authentic req = false →
  recentDeliveries (handleGithubWebhook req now s).2 = recentDeliveries s
  ∧ dispatched (handleGithubWebhook req now s).2 = dispatched s
  ∧ ((handleGithubWebhook req now s).1
       = respond 401 "error" "Missing signature"
     ∨ (handleGithubWebhook req now s).1
       = respond 401 "error" "Invalid signature"
     ∨ (handleGithubWebhook req now s).1 = Uncaught "RangeError").
Proof.
  intros Hsecret Hauth.
  unfold WebhookServer.authentic in Hauth.
  rewrite bool_decide_eq_false_2 in Hauth by done. simpl in Hauth.
  apply bool_decide_eq_false in Hauth.
  unfold WebhookServer.handleGithubWebhook, WebhookServer.check_signature.
  rewrite bool_decide_eq_false_2 by done.
  destruct (x_hub_signature_256 req) as [signature|]; simpl; [|auto].
  case_bool_decide; simpl; [auto|].
  destruct (String.length signature =? _)%nat; simpl; [|auto].
  rewrite bool_decide_eq_false_2 by congruence. simpl. auto.
Qed.


Lemma handle_ttl req now s :
  deduplicationTtlMs (handleGithubWebhook req now s).2 = deduplicationTtlMs s.
Proof.
  unfold WebhookServer.handleGithubWebhook.
  destruct (check_signature req s) as [[answer s']|] eqn:Hcheck.
  { apply check_signature_frame in Hcheck as (_ & Httl & _). done. }
  destruct (x_github_delivery req) as [d|].
  - case_bool_decide.
    + by destruct (parse_and_dispatch_frame req s) as (_ & -> & _).
    + case_bool_decide; [done|].
      by destruct (parse_and_dispatch_frame req
                     (set_recentDeliveries (<[d:=now]> (recentDeliveries s)) s))
        as (_ & -> & _).
  - by destruct (parse_and_dispatch_frame req s) as (_ & -> & _).
Qed.

(** The handler is called for a delivery id at most once more while the id
    goes from absent to cached. *)
Lemma handle_first deliveryId req now s :
  deliveryId ≠ "" →
  recentDeliveries s !! deliveryId = None →
  (recentDeliveries (handleGithubWebhook req now s).2 !! deliveryId = None
   ∧ dispatched_for deliveryId (dispatched (handleGithubWebhook req now s).2)
     = dispatched_for deliveryId (dispatched s))
  ∨ (recentDeliveries (handleGithubWebhook req now s).2 !! deliveryId
     = Some now
     ∧ (length (dispatched_for deliveryId
                  (dispatched (handleGithubWebhook req now s).2))
        ≤ S (length (dispatched_for deliveryId (dispatched s))))%nat).
Proof.
  intros Hne Hfresh. unfold WebhookServer.handleGithubWebhook.
  destruct (check_signature req s) as [[answer s']|] eqn:Hcheck.
  { apply check_signature_frame in Hcheck as (H1 & _ & H3). simpl.
    left. by rewrite H1, H3. }
  assert (∀ s0,
            (length (dispatched_for deliveryId
                       (dispatched (parse_and_dispatch req s0).2))
             ≤ S (length (dispatched_for deliveryId (dispatched s0))))%nat)
    as Hone.
  { intros s0.
    destruct (parse_and_dispatch_frame req s0) as (_ & _ & [->|[p ->]]);
      [lia|].
    unfold dispatched_for. rewrite filter_app, length_app.
    pose proof (length_filter
      (λ call : value * Request, x_github_delivery call.2 = Some deliveryId)
      [(p, req)]) as Hle. simpl in Hle. lia. }
  assert (∀ s0, x_github_delivery req ≠ Some deliveryId →
            dispatched_for deliveryId (dispatched (parse_and_dispatch req s0).2)
            = dispatched_for deliveryId (dispatched s0)) as Hother.
  { intros s0 Hreq.
    destruct (parse_and_dispatch_frame req s0) as (_ & _ & [->|[p ->]]);
      [done|].
    unfold dispatched_for. rewrite filter_app, filter_cons, decide_False
      by done.
    by rewrite filter_nil, app_nil_r. }
  destruct (x_github_delivery req) as [d|] eqn:Hd.
  - case_bool_decide as Hempty.
    + left. destruct (parse_and_dispatch_frame req s) as (-> & _ & _).
      split; [done|]. apply Hother. congruence.
    + case_bool_decide as Hknown.
      * left. simpl. done.
      * destruct (parse_and_dispatch_frame req
          (set_recentDeliveries (<[d:=now]> (recentDeliveries s)) s))
          as (-> & _ & _).
        simpl. destruct (decide (d = deliveryId)) as [->|Hdiff].
        -- right. rewrite lookup_insert_eq. split; [done|].
           apply (Hone (set_recentDeliveries _ s)).
        -- left. rewrite lookup_insert_ne by done. split; [done|].
           rewrite Hother by congruence. done.
  - left. destruct (parse_and_dispatch_frame req s) as (-> & _ & _).
    split; [done|]. by apply Hother.
Qed.

Lemma cleanup_absent now s deliveryId :
  recentDeliveries s !! deliveryId = None →
  recentDeliveries (cleanupDeliveries now s) !! deliveryId = None.
Proof.
  intros Hnone. apply eq_None_not_Some. intros [t Ht].
  apply cleanupDeliveries_lookup in Ht as [Ht _]. congruence.
Qed.

(** Within one TTL window a delivery id reaches the handler at most once:
    starting with the id absent from the cache, over any requests arriving
    from time [t0] on and any cleanups running no later than TTL after
    [t0], the handler is called at most once more for that id. *)
Theorem delivery_dispatched_at_most_once deliveryId (t0 : Z) evs s :
  deliveryId ≠ "" →
  recentDeliveries s !! deliveryId = None →
  Forall (λ now, t0 ≤ now) (arrivals evs) →
  Forall (λ now, now - t0 ≤ deduplicationTtlMs s) (cleanups evs) →
  (length (dispatched_for deliveryId (dispatched (run evs s)))
   ≤ S (length (dispatched_for deliveryId (dispatched s))))%nat.
Proof.
  intros Hne. revert s.
  induction evs as [|e evs IH]; intros s Hfresh Harr Hcl; simpl; [lia|].
  destruct e as [req now|now|]; simpl in *.
  - apply Forall_cons in Harr as [Hnow Harr].
    destruct (handle_first deliveryId req now s Hne Hfresh)
      as [[Hstill Hsame]|[Hcached Hone]].
    + rewrite <- Hsame. apply IH; [done..|]. by rewrite handle_ttl.
    + etransitivity; [|exact Hone].
      destruct (run_keeps_delivery deliveryId now evs
                  (handleGithubWebhook req now s).2 Hne Hcached)
        as [_ ->]; [|done].
      rewrite handle_ttl. eapply Forall_impl; [exact Hcl|].
      intros t Ht. simpl in *. lia.
  - apply Forall_cons in Hcl as [Hnow Hcl].
    destruct (cleanup_frame now s) as [Httl Hcalls]. rewrite <- Hcalls.
    apply IH; [by apply cleanup_absent | done | by rewrite Httl].
  - apply (IH (setGithubHandler s)); done.
Qed.

(** A delivery with a fresh id, a valid signature and a body that parses is
    answered 202 and handed to the installed handler, and to it alone: over
    any later requests and cleanups, as long as every cleanup runs within
    the TTL of the arrival, the calls made for this id stay that single
    one. *)
Theorem valid_delivery_dispatched_once req deliveryId payload now evs s :
  authentic req = true →
  x_github_delivery req = Some deliveryId → deliveryId ≠ "" →
  recentDeliveries s !! deliveryId = None →
  JSON_parse (rawBody req) = Some payload →
  githubHandler s = true →
  Forall (λ t, t - now ≤ deduplicationTtlMs s) (cleanups evs) →
  (handleGithubWebhook req now s).1 = respond 202 "status" "accepted"
  ∧ dispatched (handleGithubWebhook req now s).2
    = dispatched s ++ [(payload, req)]
  ∧ dispatched_for deliveryId
      (dispatched (run evs (handleGithubWebhook req now s).2))
    = dispatched_for deliveryId (dispatched s) ++ [(payload, req)].
Proof.
  intros Hreq Hid Hne Hfresh Hparse Hhandler Hcl.
  assert (handleGithubWebhook req now s
          = (respond 202 "status" "accepted",
             dispatch payload req
               (set_recentDeliveries
                  (<[deliveryId := now]> (recentDeliveries s)) s))) as Hfirst.
  { unfold WebhookServer.handleGithubWebhook.
    rewrite (check_signature_authentic _ _ Hreq), Hid.
    rewrite bool_decide_eq_false_2 by done.
    rewrite bool_decide_eq_false_2 by (rewrite Hfresh; by intros []).
    unfold WebhookServer.parse_and_dispatch. by rewrite Hparse. }
  rewrite Hfirst. simpl.
  set (s1 := dispatch payload req _).
  assert (recentDeliveries s1 !! deliveryId = Some now
          ∧ deduplicationTtlMs s1 = deduplicationTtlMs s
          ∧ dispatched s1 = dispatched s ++ [(payload, req)])
    as (Hcached & Httl & Hcalls).
  { subst s1. unfold dispatch. simpl. rewrite Hhandler. simpl.
    split_and!; [apply lookup_insert_eq | done..]. }
  split_and!; [done..|].
  destruct (run_keeps_delivery deliveryId now evs s1 Hne Hcached) as [_ ->].
  { by rewrite Httl. }
  rewrite Hcalls. unfold dispatched_for.
  rewrite filter_app, filter_cons, decide_True by done.
  by rewrite filter_nil.
Qed.

(** [cleanupDeliveries] removes exactly the ids recorded more than the TTL
    before [now] (an id recorded exactly the TTL before is kept), never
    touches the calls made to the handler, and logs the number of removed
    ids when there are some. *)
Theorem cleanupDeliveries_exact now s :
  (∀ deliveryId t,
     recentDeliveries (cleanupDeliveries now s) !! deliveryId = Some t ↔
     recentDeliveries s !! deliveryId = Some t
     ∧ now - t ≤ deduplicationTtlMs s)
  ∧ dispatched (cleanupDeliveries now s) = dispatched s
  ∧ (size (recentDeliveries (cleanupDeliveries now s))
     ≤ size (recentDeliveries s))%nat
  ∧ (size (recentDeliveries (cleanupDeliveries now s))
     = size (recentDeliveries s) →
     logger (cleanupDeliveries now s) = logger s)
  ∧ ((size (recentDeliveries (cleanupDeliveries now s))
      < size (recentDeliveries s))%nat →
     logger (cleanupDeliveries now s)
     = logger s
       ++ [Debug_cleaned
             (size (recentDeliveries s)
              - size (recentDeliveries (cleanupDeliveries now s)))]).
Proof.
  assert (recentDeliveries (cleanupDeliveries now s)
          = filter (λ entry : string * Z,
                      ¬ (deduplicationTtlMs s < now - entry.2))
              (recentDeliveries s)) as Hkept.
  { unfold cleanupDeliveries. by case_bool_decide. }
  assert (size (recentDeliveries (cleanupDeliveries now s))
          ≤ size (recentDeliveries s))%nat as Hle.
  { rewrite Hkept. apply map_subseteq_size, map_filter_subseteq. }
  split_and!.
  - intros deliveryId t. apply cleanupDeliveries_lookup.
  - apply cleanup_frame.
  - done.
  - rewrite Hkept. intros Hsame. unfold cleanupDeliveries.
    rewrite Hsame, Nat.sub_diag. by rewrite bool_decide_eq_false_2 by lia.
  - rewrite Hkept. intros Hless. unfold cleanupDeliveries.
    by rewrite bool_decide_eq_true_2 by lia.
Qed.

End facts.

Import Examples.

Lemma invalid_json_consumes_delivery_witness :
  (handleGithubWebhook "" (λ _ _, "") parse_only_null truncated 1000
     (setGithubHandler new)).1
  = respond 400 "error" "Invalid JSON"
  ∧ (handleGithubWebhook "" (λ _ _, "") parse_only_null redelivery 61000
       (run "" (λ _ _, "") parse_only_null [Cleanup 600000]
          (handleGithubWebhook "" (λ _ _, "") parse_only_null truncated 1000
             (setGithubHandler new)).2)).1
    = respond 200 "status" "duplicate".
Proof.
  destruct (invalid_json_consumes_delivery "" (λ _ _, "") parse_only_null
              truncated redelivery "72d3162e-cc78-11e3-81ab-4c9367dc0958"
              1000 61000 [Cleanup 600000] (setGithubHandler new))
    as (Hfirst & _ & _ & _ & Hretry & _).
  - reflexivity.
  - reflexivity.
  - reflexivity.
  - reflexivity.
  - discriminate.
  - vm_compute. reflexivity.
  - vm_compute. reflexivity.
  - repeat constructor. vm_compute. discriminate.
  - split; [exact Hfirst | exact Hretry].
Defined.

Lemma unsigned_request_is_stopped_witness :
  "hunter2" ≠ ""
  ∧ authentic "hunter2" digest_stub forged = false
  ∧ dispatched
      (handleGithubWebhook "hunter2" digest_stub parse_only_null forged 1000
         (setGithubHandler new)).2
    = [].
Proof.
  split; [discriminate|]. split; [vm_compute; reflexivity|].
  destruct (unsigned_request_is_stopped "hunter2" digest_stub parse_only_null
              forged 1000 (setGithubHandler new)) as (_ & Hcalls & _).
  - discriminate.
  - vm_compute. reflexivity.
  - exact Hcalls.
Defined.


Lemma delivery_dispatched_at_most_once_witness :
  (length
     (dispatched_for "72d3162e-cc78-11e3-81ab-4c9367dc0958"
        (dispatched
           (run "" digest_stub parse_only_null
              [Deliver redelivery 1000; Cleanup 600000;
               Deliver redelivery 600500]
              (setGithubHandler new))))
   ≤ 1)%nat.
Proof.
  apply (delivery_dispatched_at_most_once "" digest_stub parse_only_null
           "72d3162e-cc78-11e3-81ab-4c9367dc0958" 1000
           [Deliver redelivery 1000; Cleanup 600000;
            Deliver redelivery 600500]
           (setGithubHandler new)).
  - discriminate.
  - vm_compute. reflexivity.
  - repeat constructor; vm_compute; discriminate.
  - repeat constructor; vm_compute; discriminate.
Defined.

Lemma valid_delivery_dispatched_once_witness :
  (handleGithubWebhook "" digest_stub parse_only_null redelivery 1000
     (setGithubHandler new)).1
  = respond 202 "status" "accepted"
  ∧ dispatched_for "72d3162e-cc78-11e3-81ab-4c9367dc0958"
      (dispatched
         (run "" digest_stub parse_only_null
            [Cleanup 600000; Deliver redelivery 600500]
            (handleGithubWebhook "" digest_stub parse_only_null redelivery
               1000 (setGithubHandler new)).2))
    = [(Null, redelivery)].
Proof.
  destruct (valid_delivery_dispatched_once "" digest_stub parse_only_null
              redelivery "72d3162e-cc78-11e3-81ab-4c9367dc0958" Null 1000
              [Cleanup 600000; Deliver redelivery 600500]
              (setGithubHandler new))
    as (Hanswer & _ & Hcalls).
  - reflexivity.
  - reflexivity.
  - discriminate.
  - vm_compute. reflexivity.
  - vm_compute. reflexivity.
  - reflexivity.
  - repeat constructor. vm_compute. discriminate.
  - split; [exact Hanswer | exact Hcalls].
Defined.

(** Without the failed first attempt the same redelivery is accepted and
    handed to the handler. *)
Example redelivery_alone_is_dispatched :
  (handleGithubWebhook "" (λ _ _, "") parse_only_null redelivery 61000
     (setGithubHandler new)).1
  = respond 202 "status" "accepted"
  ∧ dispatched
      (handleGithubWebhook "" (λ _ _, "") parse_only_null redelivery 61000
         (setGithubHandler new)).2
    = [(Null, redelivery)].
Proof. vm_compute. by split. Qed.
End WebhookServerFacts.

(** * Properties of the pull-request handler *)

Module GithubHandlerFacts.
Import Js GithubHandler.
#[local] Arguments is_actionable : simpl never.

Section facts.
Context {Body : Type}.
Variable ToString : value → completion string.
Variable review_body : value → value → value → bool → Body.

Implicit Types (s : t Body) (payload : value).

Local Abbreviation handlePullRequest :=
  (GithubHandler.handlePullRequest ToString review_body).
Local Abbreviation pr_key := (GithubHandler.pr_key ToString).
Local Abbreviation review_task := (GithubHandler.review_task review_body).

Lemma get_object fields k : get (Obj fields) k = Normal (assoc k fields).
Proof. done. Qed.

Lemma get_truthy v k :
  truthy v = true → get v k = Normal (get_optional v k).
Proof. by destruct v. Qed.

(** A payload that is not an object: [null] and [undefined] make the first
    property read throw, any other value has no [pull_request]. *)
Lemma handlePullRequest_not_object payload s :
  (∀ fields, payload ≠ Obj fields) →
  handlePullRequest payload s = Throw "TypeError"
  ∨ handlePullRequest payload s = Normal s.
Proof.
  intros Hno. destruct payload; auto. by destruct (Hno fields).
Qed.

(** What the method does on an object, filter by filter. *)
Lemma handlePullRequest_object fields s :
  handlePullRequest (Obj fields) s
  = if reviewable (Obj fields) then
      key ← pr_key (Obj fields);
      Normal
        {| taskQueue :=
             (TaskQueue.enqueue (review_task key fields) (taskQueue s)).2;
           logger := logger s |}
    else
      Normal
        (if negb (truthy (assoc "pull_request" fields)) then s
         else if negb (is_actionable (assoc "action" fields)) then
           log (Debug_ignoring_action (assoc "action" fields)
                  (get_optional (assoc "repository" fields) "full_name")
                  (get_optional (assoc "pull_request" fields) "number")) s
         else
           log (Debug_skipping_draft
                  (get_optional (assoc "repository" fields) "full_name")
                  (get_optional (assoc "pull_request" fields) "number")) s).
Proof.
  unfold GithubHandler.handlePullRequest, reviewable.
  rewrite !get_object. cbn.
  destruct (truthy (assoc "pull_request" fields)) eqn:Hpr; cbn; [|done].
  rewrite !get_truthy by done. cbn.
  destruct (is_actionable (assoc "action" fields)); cbn; [|done].
  destruct (truthy (get_optional (assoc "pull_request" fields) "draft")
            && negb (is_string (assoc "action" fields) "synchronize"));
    cbn; [done|].
  unfold GithubHandler.pr_key. cbn.
  by destruct (pr_task_id _ _ _).
Qed.

(** Only reviewable events reach the queue: if [handlePullRequest] changes
    the queue at all, the payload carries a [pull_request], its action is
    one of [opened], [reopened], [ready_for_review], [synchronize], and the
    pull request is not a draft unless the action is [synchronize]. *)
Theorem handlePullRequest_filters payload s s' :
  handlePullRequest payload s = Normal s' →
  taskQueue s' ≠ taskQueue s →
  truthy (get_optional payload "pull_request") = true
  ∧ (∃ action, get_optional payload "action" = Str action
               ∧ action ∈ actionable)
  ∧ (truthy (get_optional (get_optional payload "pull_request") "draft")
     = true →
     get_optional payload "action" = Str "synchronize").
Proof.
  intros Hrun Hchanged.
  destruct payload as [| | | | | |fields];
    try (simpl in Hrun; injection Hrun as <-; done); try done.
  rewrite handlePullRequest_object in Hrun.
  destruct (reviewable (Obj fields)) eqn:Hok; cycle 1.
  { injection Hrun as <-. exfalso. apply Hchanged.
    destruct (negb (truthy _)); [done|].
    by destruct (negb (is_actionable _)). }
  destruct (pr_key (Obj fields)) as [key|err]; [|done].
  cbn in Hrun. injection Hrun as <-.
  - clear Hchanged. unfold reviewable in Hok. simpl.
    apply andb_true_iff in Hok as [Hok Hdraft].
    apply andb_true_iff in Hok as [Hpr Hact].
    split_and!; [done | |].
    + unfold is_actionable in Hact. apply existsb_exists in Hact
        as (action & Hin%list_elem_of_In & Heq).
      exists action. split; [|done].
      unfold is_string in Heq. destruct (assoc "action" fields); try done.
      by apply bool_decide_eq_true in Heq as ->.
    + intros Hd. rewrite Hd in Hdraft. simpl in Hdraft.
      apply negb_true_iff, negb_false_iff in Hdraft.
      unfold is_string in Hdraft.
      destruct (assoc "action" fields); try done.
      by apply bool_decide_eq_true in Hdraft as ->.
Qed.

(** One review per pull request at a time: while the key built from the
    repository and the number is in flight, a further event for the same
    pull request, a [synchronize] for new commits included, leaves the
    pending list, the active map and the started bodies as they are. *)
Theorem handlePullRequest_in_flight payload key s s' :
  pr_key payload = Normal key →
  TaskQueue.isActive key (taskQueue s) = true
  ∨ TaskQueue.isPending key (taskQueue s) = true →
  handlePullRequest payload s = Normal s' →
  TaskQueue.queue (taskQueue s') = TaskQueue.queue (taskQueue s)
  ∧ TaskQueue.activeTasks (taskQueue s')
    = TaskQueue.activeTasks (taskQueue s)
  ∧ TaskQueue.started (taskQueue s') = TaskQueue.started (taskQueue s).
Proof.
  intros Hkey Hflight Hrun.
  destruct payload as [| | | | | |fields];
    try (simpl in Hrun; injection Hrun as <-; done); try done.
  rewrite handlePullRequest_object, Hkey in Hrun.
  destruct (reviewable (Obj fields)).
  - cbn in Hrun. injection Hrun as <-. simpl.
    by rewrite (TaskQueueFacts.enqueue_duplicate (review_task key fields)).
  - injection Hrun as <-. destruct (negb (truthy _)); [done|].
    by destruct (negb (is_actionable _)).
Qed.

(** A reviewable event puts one task on the queue, keyed
    [github-pr-<repo>-<number>], when the repository name and the number
    have a string form and the key is not in flight.  When one of the two
    has no string form the handler throws and nothing is enqueued. *)
Theorem handlePullRequest_admits payload s :
  reviewable payload = true →
  (∀ key, pr_key payload = Normal key →
     TaskQueue.isActive key (taskQueue s) = false →
     TaskQueue.isPending key (taskQueue s) = false →
     ∃ s' task,
       handlePullRequest payload s = Normal s'
       ∧ TaskQueue.id task = key
       ∧ TaskQueue.source task = "github"
       ∧ TaskQueue.started (taskQueue s') ++ TaskQueue.queue (taskQueue s')
         = TaskQueue.started (taskQueue s) ++ TaskQueue.queue (taskQueue s)
           ++ [task]
       ∧ (TaskQueue.isActive key (taskQueue s') = true
          ∨ TaskQueue.isPending key (taskQueue s') = true))
  ∧ (∀ err, pr_key payload = Throw err →
     handlePullRequest payload s = Throw err).
Proof.
  intros Hok. destruct payload as [| | | | | |fields]; try done.
  rewrite handlePullRequest_object, Hok. split.
  - intros key -> Ha Hp. cbn.
    exists {| taskQueue :=
                (TaskQueue.enqueue (review_task key fields) (taskQueue s)).2;
              logger := logger s |}, (review_task key fields).
    simpl. split_and!; [done..| |].
    + rewrite TaskQueueFacts.enqueue_order.
      by rewrite (TaskQueueFacts.enqueue_fresh (review_task key fields) _
                    Ha Hp).
    + apply (TaskQueueFacts.enqueue_in_flight (review_task key fields)).
  - by intros err ->.
Qed.
End facts.

Import Examples.

Lemma handlePullRequest_filters_witness :
  truthy (get_optional (pull_request_event "opened" false) "pull_request")
  = true
  ∧ (∃ action,
       get_optional (pull_request_event "opened" false) "action" = Str action
       ∧ action ∈ actionable).
Proof.
  destruct (handlePullRequest_filters show review
              (pull_request_event "opened" false) pr_handler
              {| taskQueue :=
                   (TaskQueue.enqueue
                      {| TaskQueue.id := "github-pr-acme/app-7";
                         TaskQueue.source := "github";
                         TaskQueue.execute :=
                           review (Str "acme/app") (Num 7)
                             (Str "Fix the parser") false |}
                      (TaskQueue.new 1)).2;
                 logger := [] |})
    as (Hpr & Haction & _).
  - vm_compute. reflexivity.
  - intros Hsame. apply (f_equal TaskQueue.started) in Hsame.
    vm_compute in Hsame. discriminate Hsame.
  - split; [exact Hpr | exact Haction].
Defined.

(** The review of pull request 7 is running when a [synchronize] event for
    it arrives. *)
Lemma handlePullRequest_in_flight_witness :
  ∃ s1 s2,
    handlePullRequest show review (pull_request_event "opened" false) pr_handler
    = Normal s1
    ∧ handlePullRequest show review (pull_request_event "synchronize" false)
        s1
      = Normal s2
    ∧ TaskQueue.started (taskQueue s2) = TaskQueue.started (taskQueue s1).
Proof.
  set (s1 :=
         {| taskQueue :=
              (TaskQueue.enqueue
                 {| TaskQueue.id := "github-pr-acme/app-7";
                    TaskQueue.source := "github";
                    TaskQueue.execute :=
                      review (Str "acme/app") (Num 7) (Str "Fix the parser")
                        false |}
                 (TaskQueue.new 1)).2;
            logger := [] |}).
  set (s2 :=
         {| taskQueue :=
              (TaskQueue.enqueue
                 {| TaskQueue.id := "github-pr-acme/app-7";
                    TaskQueue.source := "github";
                    TaskQueue.execute :=
                      review (Str "acme/app") (Num 7) (Str "Fix the parser")
                        true |}
                 (taskQueue s1)).2;
            logger := [] |}).
  exists s1, s2. split; [vm_compute; reflexivity|].
  split; [vm_compute; reflexivity|].
  destruct (handlePullRequest_in_flight show review
              (pull_request_event "synchronize" false) "github-pr-acme/app-7"
              s1 s2)
    as (_ & _ & Hstarted).
  - reflexivity.
  - left. vm_compute. reflexivity.
  - vm_compute. reflexivity.
  - exact Hstarted.
Defined.

Lemma handlePullRequest_admits_witness :
  (∃ s' task,
     handlePullRequest show review (pull_request_event "reopened" false)
       pr_handler
     = Normal s'
     ∧ TaskQueue.id task = "github-pr-acme/app-7"
     ∧ TaskQueue.started (taskQueue s') ++ TaskQueue.queue (taskQueue s')
       = [task])
  ∧ handlePullRequest show review masked_pull_request pr_handler
    = Throw "TypeError".
Proof.
  destruct (handlePullRequest_admits show review
              (pull_request_event "reopened" false) pr_handler)
    as [Hadmits _].
  { vm_compute. reflexivity. }
  destruct (Hadmits "github-pr-acme/app-7")
    as (s' & task & Hrun & Hid & _ & Horder & _).
  { reflexivity. }
  { vm_compute. reflexivity. }
  { vm_compute. reflexivity. }
  destruct (handlePullRequest_admits show review masked_pull_request
              pr_handler) as [_ Hthrows].
  { vm_compute. reflexivity. }
  split.
  - exists s', task. split; [exact Hrun|]. split; [exact Hid|exact Horder].
  - apply Hthrows. reflexivity.
Defined.
End GithubHandlerFacts.

(** * Properties of the heartbeat checks *)

Module HeartbeatChecksFacts.
Import Js HeartbeatChecks.

Section facts.
Context {Body : Type}.
Variable ToString : value → completion string.
Variable JSON_parse : string → option value.
Variable freescout_enabled : bool.
Variable freescout_mailboxId : string.
Variable freescout_channel : string.
Variable freescout_body : string → value → string → Body.
Variable planka_body : string → Body.
Variable github_channel : string.
Variable github_body : string → string → value → Body.

Implicit Types (p : t Body) (conv card : value) (now : Z).
Implicit Types (convs : list (value * Z)) (key convId cardId : string).

Local Abbreviation conversation_id :=
  (HeartbeatChecks.conversation_id ToString).
Local Abbreviation freescout_conversation :=
  (HeartbeatChecks.freescout_conversation ToString freescout_channel
     freescout_body).
Local Abbreviation freescout_loop :=
  (HeartbeatChecks.freescout_loop ToString freescout_channel freescout_body).
Local Abbreviation checkFreescoutTickets :=
  (HeartbeatChecks.checkFreescoutTickets ToString JSON_parse freescout_enabled
     freescout_mailboxId freescout_channel freescout_body).
Local Abbreviation keys_reached := (HeartbeatChecks.keys_reached ToString).
Local Abbreviation planka_card_guard :=
  (HeartbeatChecks.planka_card_guard (Body := Body) ToString).
Local Abbreviation planka_card_enqueue :=
  (HeartbeatChecks.planka_card_enqueue planka_body).
Local Abbreviation github_pr :=
  (HeartbeatChecks.github_pr ToString github_channel github_body).

(** Once one property of a value has been read, no read throws. *)
Lemma get_after_number v k w :
  get v "number" = Normal w → ∃ w', get v k = Normal w'.
Proof. destruct v; simpl; intros; by eexists. Qed.

(** ** One conversation *)

(** What the loop body does once the id has been read and converted. *)
Lemma freescout_conversation_read conv convId now p :
  conversation_id conv = Normal convId →
  freescout_conversation conv now p
  = Normal
      (if Heartbeat.isProcessed (freescout_item_key convId) (cache p)
       then p
       else
         let p1 :=
           set_cache
             (Heartbeat.markProcessed (freescout_item_key convId) now
                (cache p)) p in
         if bool_decide (freescout_channel = "") then p1
         else
           set_taskQueue
             (TaskQueue.enqueue
                {| TaskQueue.id := freescout_task_id convId;
                   TaskQueue.source := "heartbeat";
                   TaskQueue.execute :=
                     freescout_body freescout_channel conv convId |}
                (taskQueue p1)).2 p1).
Proof.
  unfold HeartbeatChecks.conversation_id,
    HeartbeatChecks.freescout_conversation.
  destruct (get conv "id") as [conv_id|]; cbn; [|done].
  intros ->. cbn. destruct (Heartbeat.isProcessed _ _); [done|].
  by case_bool_decide.
Qed.

(** An id that cannot be read or converted makes the loop body throw
    before it marks or enqueues anything. *)
Lemma freescout_conversation_throws conv err now p :
  conversation_id conv = Throw err →
  freescout_conversation conv now p = Throw err.
Proof.
  unfold HeartbeatChecks.conversation_id,
    HeartbeatChecks.freescout_conversation.
  destruct (get conv "id") as [conv_id|err']; cbn;
    [by intros -> | by intros [= ->]].
Qed.

Lemma markProcessed_keeps key key' now (c : Heartbeat.t) :
  Heartbeat.isProcessed key c = true →
  Heartbeat.isProcessed key (Heartbeat.markProcessed key' now c) = true.
Proof.
  rewrite !HeartbeatFacts.isProcessed_true. simpl.
  rewrite lookup_insert_is_Some. destruct (decide (key' = key)); auto.
Qed.

Lemma markProcessed_marks key now (c : Heartbeat.t) :
  Heartbeat.isProcessed key (Heartbeat.markProcessed key now c) = true.
Proof.
  rewrite HeartbeatFacts.isProcessed_true. simpl.
  rewrite lookup_insert_eq. by eexists.
Qed.

(** A conversation never unmarks anything, and its own key is marked
    afterwards. *)
Lemma freescout_conversation_marks conv convId now p p' :
  conversation_id conv = Normal convId →
  freescout_conversation conv now p = Normal p' →
  Heartbeat.isProcessed (freescout_item_key convId) (cache p') = true
  ∧ ∀ key, Heartbeat.isProcessed key (cache p) = true →
           Heartbeat.isProcessed key (cache p') = true.
Proof.
  intros Hid Hrun. rewrite (freescout_conversation_read _ _ _ _ Hid) in Hrun.
  injection Hrun as <-.
  destruct (Heartbeat.isProcessed _ (cache p)) eqn:Hseen; [done|].
  simpl. case_bool_decide; simpl;
    (split; [apply markProcessed_marks | intros key; apply markProcessed_keeps]).
Qed.

(** A conversation whose key is marked is skipped. *)
Lemma freescout_conversation_skips conv convId now p :
  conversation_id conv = Normal convId →
  Heartbeat.isProcessed (freescout_item_key convId) (cache p) = true →
  freescout_conversation conv now p = Normal p.
Proof.
  intros Hid Hseen. rewrite (freescout_conversation_read _ _ _ _ Hid).
  by rewrite Hseen.
Qed.

(** ** The loop *)

Lemma freescout_loop_marks convs p :
  (∀ key, key ∈ keys_reached convs →
          Heartbeat.isProcessed key (cache (freescout_loop convs p).1) = true)
  ∧ (∀ key, Heartbeat.isProcessed key (cache p) = true →
            Heartbeat.isProcessed key (cache (freescout_loop convs p).1)
            = true).
Proof.
  revert p. induction convs as [|[conv now] convs IH]; intros p; simpl.
  { split; [by intros key ?%elem_of_nil | done]. }
  destruct (conversation_id conv) as [convId|err] eqn:Hid.
  - destruct (freescout_conversation conv now p) as [p'|err] eqn:Hrun.
    + destruct (freescout_conversation_marks _ _ _ _ _ Hid Hrun)
        as [Hown Hkeeps].
      destruct (IH p') as [Hnew Hold]. split.
      * intros key [->|Hin]%elem_of_cons; [by apply Hold | by apply Hnew].
      * intros key Hseen. by apply Hold, Hkeeps.
    + by rewrite (freescout_conversation_read _ _ _ _ Hid) in Hrun.
  - rewrite (freescout_conversation_throws _ _ _ _ Hid). simpl.
    split; [by intros key ?%elem_of_nil | done].
Qed.

Lemma freescout_loop_skips convs p :
  (∀ key, key ∈ keys_reached convs →
          Heartbeat.isProcessed key (cache p) = true) →
  (freescout_loop convs p).1 = p.
Proof.
  revert p. induction convs as [|[conv now] convs IH]; intros p Hseen; simpl.
  { done. }
  simpl in Hseen.
  destruct (conversation_id conv) as [convId|err] eqn:Hid.
  - rewrite (freescout_conversation_skips _ _ _ _ Hid).
    + apply IH. intros key Hin. apply Hseen. by apply elem_of_cons; right.
    + apply Hseen. by apply elem_of_cons; left.
  - by rewrite (freescout_conversation_throws _ _ _ _ Hid).
Qed.

Lemma keys_reached_clock (items : list value) (clock clock' : nat → Z) :
  keys_reached (imap (λ i conv, (conv, clock i)) items)
  = keys_reached (imap (λ i conv, (conv, clock' i)) items).
Proof.
  revert clock clock'. induction items as [|conv items IH]; intros; simpl.
  { done. }
  destruct (conversation_id conv); [|done]. f_equal.
  apply (IH (clock ∘ S) (clock' ∘ S)).
Qed.

Lemma freescout_loop_queue_without_channel convs p :
  freescout_channel = "" →
  taskQueue (freescout_loop convs p).1 = taskQueue p.
Proof.
  intros Hnone. revert p.
  induction convs as [|[conv now] convs IH]; intros p; simpl; [done|].
  destruct (conversation_id conv) as [convId|err] eqn:Hid.
  - rewrite (freescout_conversation_read _ _ _ _ Hid).
    rewrite IH. destruct (Heartbeat.isProcessed _ _); [done|].
    simpl. by rewrite bool_decide_eq_true_2.
  - by rewrite (freescout_conversation_throws _ _ _ _ Hid).
Qed.

Lemma freescout_loop_app convs convs' p :
  freescout_loop (convs ++ convs') p
  = match freescout_loop convs p with
    | (p', None) => freescout_loop convs' p'
    | (p', Some err) => (p', Some err)
    end.
Proof.
  revert p. induction convs as [|[conv now] convs IH]; intros p; simpl.
  { done. }
  destruct (freescout_conversation conv now p); [apply IH | done].
Qed.

Lemma freescout_loop_readable convs p :
  Forall (λ c, ∃ convId, conversation_id c.1 = Normal convId) convs →
  (freescout_loop convs p).2 = None.
Proof.
  intros Hall. revert p.
  induction Hall as [|[conv now] convs [convId Hid] _ IH]; intros p; simpl.
  { done. }
  simpl in Hid. by rewrite (freescout_conversation_read _ _ _ _ Hid).
Qed.

(** ** The whole check *)

(** Polling a second time with the same answer of the command marks nothing
    and puts nothing on the queue, as long as the cache has not been swept
    in between; the state of the queue plays no part. *)
Theorem checkFreescoutTickets_again_is_silent outcome clock clock' p p' :
  cache p' = cache (checkFreescoutTickets outcome clock p) →
  cache (checkFreescoutTickets outcome clock' p') = cache p'
  ∧ taskQueue (checkFreescoutTickets outcome clock' p') = taskQueue p'.
Proof.
  unfold HeartbeatChecks.checkFreescoutTickets.
  destruct (negb freescout_enabled); [done|].
  case_bool_decide; [done|].
  destruct outcome as [result|]; simpl; [|done].
  case_bool_decide; [done|].
  destruct (JSON_parse result) as [conversations|]; [|done].
  set (items := match conversations with Arr items => items | _ => [] end).
  intros Hcache.
  assert (∀ key,
            key ∈ keys_reached (imap (λ i conv, (conv, clock' i)) items) →
            Heartbeat.isProcessed key (cache p') = true) as Hseen.
  { intros key Hin. rewrite Hcache.
    rewrite (keys_reached_clock _ clock' clock) in Hin.
    pose proof (proj1 (freescout_loop_marks
                         (imap (λ i conv, (conv, clock i)) items) p)
                  key Hin) as Hmarked.
    by destruct (freescout_loop _ p) as [p2 [err|]]. }
  pose proof (freescout_loop_skips _ _ Hseen) as Hsame.
  destruct (freescout_loop _ p') as [p2 [err|]]; simpl in Hsame;
    by subst p2.
Qed.

(** Without a Slack channel for FreeScout the check never touches the
    queue, but it marks every conversation it reaches all the same; the
    scan reaches the conversations listed before the first one whose id
    cannot be read or converted. *)
Theorem checkFreescoutTickets_without_channel result items clock p :
  freescout_channel = "" →
  freescout_enabled = true → freescout_mailboxId ≠ "" → result ≠ "" →
  JSON_parse result = Some (Arr items) →
  taskQueue (checkFreescoutTickets (Some result) clock p) = taskQueue p
  ∧ ∀ key,
      key ∈ keys_reached (imap (λ i conv, (conv, clock i)) items) →
      Heartbeat.isProcessed key
        (cache (checkFreescoutTickets (Some result) clock p)) = true.
Proof.
  intros Hnone Hon Hbox Hout Hparse.
  unfold HeartbeatChecks.checkFreescoutTickets.
  rewrite Hon. simpl.
  rewrite !bool_decide_eq_false_2 by done. rewrite Hparse.
  pose proof (freescout_loop_queue_without_channel
                (imap (λ i conv, (conv, clock i)) items) p Hnone) as Hqueue.
  pose proof (proj1 (freescout_loop_marks
                       (imap (λ i conv, (conv, clock i)) items) p))
    as Hmarked.
  by destruct (freescout_loop _ p) as [p2 [err|]].
Qed.

(** A conversation that is not marked, but whose task is still in flight,
    is marked again and gets no second task: the queue keeps its pending
    list, its active map and its record of started tasks. *)
Theorem freescout_conversation_in_flight conv convId now p :
  conversation_id conv = Normal convId →
  Heartbeat.isProcessed (freescout_item_key convId) (cache p) = false →
  TaskQueue.isActive (freescout_task_id convId) (taskQueue p) = true
  ∨ TaskQueue.isPending (freescout_task_id convId) (taskQueue p) = true →
  ∃ p',
    freescout_conversation conv now p = Normal p'
    ∧ Heartbeat.isProcessed (freescout_item_key convId) (cache p') = true
    ∧ TaskQueue.queue (taskQueue p') = TaskQueue.queue (taskQueue p)
    ∧ TaskQueue.activeTasks (taskQueue p')
      = TaskQueue.activeTasks (taskQueue p)
    ∧ TaskQueue.started (taskQueue p') = TaskQueue.started (taskQueue p).
Proof.
  intros Hid Hnew Hflight.
  rewrite (freescout_conversation_read _ _ _ _ Hid), Hnew.
  eexists. split; [done|]. simpl.
  case_bool_decide; simpl.
  - split; [apply markProcessed_marks | done].
  - split; [apply markProcessed_marks|].
    by rewrite TaskQueueFacts.enqueue_duplicate.
Qed.

(** A fresh conversation whose id has the string form [convId], with a
    channel configured, is marked at the time the loop reaches it and puts
    one task keyed [heartbeat-freescout-<id>] on the queue.  A conversation
    whose id cannot be read or converted makes the loop body throw: nothing
    is marked and nothing is enqueued for it. *)
Theorem freescout_conversation_admits conv now p :
  (∀ convId,
     conversation_id conv = Normal convId →
     freescout_channel ≠ "" →
     Heartbeat.isProcessed (freescout_item_key convId) (cache p) = false →
     TaskQueue.isActive (freescout_task_id convId) (taskQueue p) = false →
     TaskQueue.isPending (freescout_task_id convId) (taskQueue p) = false →
     ∃ p' task,
       freescout_conversation conv now p = Normal p'
       ∧ Heartbeat.processedItems (cache p') !! freescout_item_key convId
         = Some {| Heartbeat.timestamp := now |}
       ∧ TaskQueue.id task = freescout_task_id convId
       ∧ TaskQueue.source task = "heartbeat"
       ∧ TaskQueue.started (taskQueue p') ++ TaskQueue.queue (taskQueue p')
         = TaskQueue.started (taskQueue p) ++ TaskQueue.queue (taskQueue p)
           ++ [task])
  ∧ (∀ err, conversation_id conv = Throw err →
     freescout_conversation conv now p = Throw err).
Proof.
  split; [|intros err; apply freescout_conversation_throws].
  intros convId Hid Hchan Hnew Ha Hp.
  rewrite (freescout_conversation_read _ _ _ _ Hid), Hnew. simpl.
  rewrite bool_decide_eq_false_2 by done.
  set (task :=
         {| TaskQueue.id := freescout_task_id convId;
            TaskQueue.source := "heartbeat";
            TaskQueue.execute :=
              freescout_body freescout_channel conv convId |}).
  eexists _, task. split; [done|]. simpl.
  split; [by rewrite lookup_insert_eq|].
  split; [done|]. split; [done|].
  rewrite TaskQueueFacts.enqueue_order.
  by rewrite (TaskQueueFacts.enqueue_fresh task) by done.
Qed.

(** An entry whose id cannot be read or converted ([null], or an id that
    has no string form) ends the scan: the check logs one error, and the
    conversations listed after the entry are neither marked nor enqueued by
    it. *)
Theorem checkFreescoutTickets_stops_at_bad_entry
    result before bad after err clock p :
  freescout_enabled = true → freescout_mailboxId ≠ "" → result ≠ "" →
  JSON_parse result = Some (Arr (before ++ bad :: after)) →
  Forall (λ conv, ∃ convId, conversation_id conv = Normal convId) before →
  conversation_id bad = Throw err →
  checkFreescoutTickets (Some result) clock p
  = log (Error_checking_freescout err)
      (freescout_loop (imap (λ i conv, (conv, clock i)) before) p).1.
Proof.
  intros Hon Hbox Hout Hparse Hbefore Hbad.
  unfold HeartbeatChecks.checkFreescoutTickets.
  rewrite Hon. simpl.
  rewrite !bool_decide_eq_false_2 by done. rewrite Hparse.
  rewrite imap_app, freescout_loop_app.
  assert ((freescout_loop (imap (λ i conv, (conv, clock i)) before) p).2
          = None) as Hfine.
  { apply freescout_loop_readable. apply Forall_forall.
    intros [conv now] Hin. apply elem_of_lookup_imap in Hin
      as (i & conv' & [= -> ->] & Hlook).
    rewrite Forall_forall in Hbefore. apply Hbefore.
    by eapply list_elem_of_lookup_2. }
  destruct (freescout_loop _ p) as [p1 e]. simpl in Hfine. subst e.
  simpl. by rewrite (freescout_conversation_throws _ _ _ _ Hbad).
Qed.

(** ** Planka cards *)


Lemma planka_card_guard_skips_when card card_id cardId now p :
  get card "id" = Normal card_id →
  ToString card_id = Normal cardId →
  Heartbeat.isProcessed ("planka-card:" +:+ cardId) (cache p) = true
  ∨ TaskQueue.isActive ("planka-card-" +:+ cardId) (taskQueue p) = true →
  planka_card_guard card now p = Normal (None, p).
Proof.
  intros Hid Htext Hskip.
  unfold HeartbeatChecks.planka_card_guard. rewrite Hid. cbn.
  rewrite Htext. cbn.
  destruct (Heartbeat.isProcessed _ _); [done|].
  destruct Hskip as [?| ->]; done.
Qed.

(** ** Pull requests found by the heartbeat *)

(** The heartbeat keys its review of a pull request
    [heartbeat-github-pr-<repo>-<number>], the webhook keys its own
    [github-pr-<repo>-<number>], and the heartbeat does not ask the queue
    about the webhook's key: a pull request that the webhook's task is
    reviewing, or waiting to review, gets a second task from the
    heartbeat, and both are in flight afterwards. *)
Theorem github_pr_reviewed_by_both
    repo pr number number_text webhook_key now p :
  get pr "number" = Normal number →
  ToString number = Normal number_text →
  GithubHandler.pr_task_id ToString (Str repo) number = Normal webhook_key →
  github_channel ≠ "" →
  Heartbeat.isProcessed ("github-pr:" +:+ repo +:+ "/" +:+ number_text)
    (cache p) = false →
  TaskQueue.isActive webhook_key (taskQueue p) = true
  ∨ TaskQueue.isPending webhook_key (taskQueue p) = true →
  TaskQueue.isActive
    ("heartbeat-github-pr-" +:+ repo +:+ "-" +:+ number_text)
    (taskQueue p) = false →
  TaskQueue.isPending
    ("heartbeat-github-pr-" +:+ repo +:+ "-" +:+ number_text)
    (taskQueue p) = false →
  ∃ p' task,
    github_pr repo pr now p = Normal p'
    ∧ TaskQueue.id task
      = "heartbeat-github-pr-" +:+ repo +:+ "-" +:+ number_text
    ∧ TaskQueue.started (taskQueue p') ++ TaskQueue.queue (taskQueue p')
      = TaskQueue.started (taskQueue p) ++ TaskQueue.queue (taskQueue p)
        ++ [task]
    ∧ (TaskQueue.isActive webhook_key (taskQueue p') = true
       ∨ TaskQueue.isPending webhook_key (taskQueue p') = true)
    ∧ (TaskQueue.isActive (TaskQueue.id task) (taskQueue p') = true
       ∨ TaskQueue.isPending (TaskQueue.id task) (taskQueue p') = true).
Proof.
  intros Hnumber Htext _ Hchan Hnew Hflight Ha Hp.
  unfold HeartbeatChecks.github_pr. rewrite Hnumber. cbn.
  rewrite Htext. cbn. rewrite Hnew.
  destruct (get_after_number pr "title" number Hnumber) as [title ->]. cbn.
  rewrite bool_decide_eq_false_2 by done.
  set (task :=
         {| TaskQueue.id :=
              "heartbeat-github-pr-" +:+ repo +:+ "-" +:+ number_text;
            TaskQueue.source := "heartbeat";
            TaskQueue.execute := github_body github_channel repo pr |}).
  eexists _, task. split; [done|]. split; [done|]. simpl.
  split; [|split].
  - rewrite TaskQueueFacts.enqueue_order.
    by rewrite (TaskQueueFacts.enqueue_fresh task) by done.
  - by apply TaskQueueFacts.enqueue_keeps_in_flight.
  - apply (TaskQueueFacts.enqueue_in_flight task).
Qed.
End facts.

Import Examples.

(** Two polls, five minutes apart, that see the same two tickets. *)
Lemma checkFreescoutTickets_again_is_silent_witness :
  let first :=
    checkFreescoutTickets show parse_tickets true "3" "C0123" ticket_body
      (Some "inbox") (λ i, 1000 + Z.of_nat i) desk in
  let second :=
    checkFreescoutTickets show parse_tickets true "3" "C0123" ticket_body
      (Some "inbox") (λ i, 301000 + Z.of_nat i) first in
  TaskQueue.pendingCount (taskQueue first) = 1%nat
  ∧ cache second = cache first
  ∧ taskQueue second = taskQueue first.
Proof.
  intros first second. split; [vm_compute; reflexivity|].
  apply (checkFreescoutTickets_again_is_silent show parse_tickets true "3"
           "C0123" ticket_body (Some "inbox") (λ i, 1000 + Z.of_nat i)
           (λ i, 301000 + Z.of_nat i) desk first).
  reflexivity.
Defined.

(** In the output [masked] the id of the second of three tickets has no
    string form: the first ticket is marked, the third is not reached. *)
Lemma checkFreescoutTickets_without_channel_witness :
  taskQueue
    (checkFreescoutTickets show parse_tickets true "3" "" ticket_body
       (Some "inbox") (λ i, 1000 + Z.of_nat i) desk)
  = taskQueue desk
  ∧ Heartbeat.isProcessed "freescout:42"
      (cache
         (checkFreescoutTickets show parse_tickets true "3" "" ticket_body
            (Some "inbox") (λ i, 1000 + Z.of_nat i) desk))
    = true
  ∧ Heartbeat.isProcessed "freescout:41"
      (cache
         (checkFreescoutTickets show parse_tickets true "3" "" ticket_body
            (Some "masked") (λ i, 1000 + Z.of_nat i) desk))
    = true.
Proof.
  destruct (checkFreescoutTickets_without_channel show parse_tickets true "3"
              "" ticket_body "inbox" [ticket 41; ticket 42]
              (λ i, 1000 + Z.of_nat i) desk)
    as [Hqueue Hmarked]; [reflexivity | reflexivity | discriminate
                         | discriminate | vm_compute; reflexivity |].
  destruct (checkFreescoutTickets_without_channel show parse_tickets true "3"
              "" ticket_body "masked" [ticket 41; masked_ticket; ticket 42]
              (λ i, 1000 + Z.of_nat i) desk)
    as [_ Hmarked']; [reflexivity | reflexivity | discriminate
                     | discriminate | vm_compute; reflexivity |].
  split; [exact Hqueue|]. split.
  - apply Hmarked.
    vm_compute. apply list_elem_of_In. right. left. reflexivity.
  - apply Hmarked'.
    vm_compute. apply list_elem_of_In. left. reflexivity.
Defined.

(** Ticket 41 was marked at time 1000 and its task is still running when a
    sweep at 3700000 forgets the mark. *)
Lemma freescout_conversation_in_flight_witness :
  let first :=
    checkFreescoutTickets show parse_tickets true "3" "C0123" ticket_body
      (Some "inbox") (λ i, 1000 + Z.of_nat i) desk in
  let swept :=
    set_cache (Heartbeat.cleanupProcessedItems 3700000 (cache first)) first in
  Heartbeat.isProcessed "freescout:41" (cache swept) = false
  ∧ ∃ p',
      freescout_conversation show "C0123" ticket_body (ticket 41) 3700500
        swept
      = Normal p'
      ∧ TaskQueue.started (taskQueue p') = TaskQueue.started (taskQueue swept).
Proof.
  intros first swept. split; [vm_compute; reflexivity|].
  destruct (freescout_conversation_in_flight show "C0123" ticket_body
              (ticket 41) "41" 3700500 swept)
    as (p' & Hrun & _ & _ & _ & Hstarted).
  - reflexivity.
  - vm_compute. reflexivity.
  - left. vm_compute. reflexivity.
  - exists p'. split; [exact Hrun | exact Hstarted].
Defined.

Lemma freescout_conversation_admits_witness :
  (∃ p' task,
     freescout_conversation show "C0123" ticket_body (ticket 41) 1000 desk
     = Normal p'
     ∧ Heartbeat.processedItems (cache p') !! "freescout:41"
       = Some {| Heartbeat.timestamp := 1000 |}
     ∧ TaskQueue.id task = "heartbeat-freescout-41"
     ∧ TaskQueue.started (taskQueue p') ++ TaskQueue.queue (taskQueue p')
       = [task])
  ∧ freescout_conversation show "C0123" ticket_body masked_ticket 1000 desk
    = Throw "TypeError".
Proof.
  destruct (freescout_conversation_admits show "C0123" ticket_body
              (ticket 41) 1000 desk) as [Hadmits _].
  destruct (Hadmits "41") as (p' & task & Hrun & Hmark & Hid & _ & Horder).
  { reflexivity. }
  { discriminate. }
  { vm_compute. reflexivity. }
  { vm_compute. reflexivity. }
  { vm_compute. reflexivity. }
  destruct (freescout_conversation_admits show "C0123" ticket_body
              masked_ticket 1000 desk) as [_ Hthrows].
  split.
  - exists p', task. split; [exact Hrun|]. split; [exact Hmark|].
    split; [exact Hid | exact Horder].
  - apply Hthrows. reflexivity.
Defined.

(** The [null] between tickets 41 and 42 hides ticket 42, and so does a
    ticket whose id has no string form. *)
Lemma checkFreescoutTickets_stops_at_bad_entry_witness :
  logger
    (checkFreescoutTickets show parse_tickets true "3" "C0123" ticket_body
       (Some "broken") (λ i, 1000 + Z.of_nat i) desk)
  = [Error_checking_freescout "TypeError"]
  ∧ Heartbeat.isProcessed "freescout:42"
      (cache
         (checkFreescoutTickets show parse_tickets true "3" "C0123"
            ticket_body (Some "broken") (λ i, 1000 + Z.of_nat i) desk))
    = false
  ∧ Heartbeat.isProcessed "freescout:42"
      (cache
         (checkFreescoutTickets show parse_tickets true "3" "C0123"
            ticket_body (Some "masked") (λ i, 1000 + Z.of_nat i) desk))
    = false.
Proof.
  rewrite (checkFreescoutTickets_stops_at_bad_entry show parse_tickets true
             "3" "C0123" ticket_body "broken" [ticket 41] Null [ticket 42]
             "TypeError" (λ i, 1000 + Z.of_nat i) desk).
  - rewrite (checkFreescoutTickets_stops_at_bad_entry show parse_tickets
               true "3" "C0123" ticket_body "masked" [ticket 41]
               masked_ticket [ticket 42] "TypeError"
               (λ i, 1000 + Z.of_nat i) desk).
    + split_and!; vm_compute; reflexivity.
    + reflexivity.
    + discriminate.
    + discriminate.
    + vm_compute. reflexivity.
    + constructor; [by exists "41" | constructor].
    + reflexivity.
  - reflexivity.
  - discriminate.
  - discriminate.
  - vm_compute. reflexivity.
  - constructor; [by exists "41" | constructor].
  - reflexivity.
Defined.


Lemma github_pr_reviewed_by_both_witness :
  ∃ p',
    github_pr show "C0123" pr_body "acme/app"
      (Obj [("number", Num 7); ("title", Str "Fix the parser")]) 1000
      pr_under_review
    = Normal p'
    ∧ TaskQueue.id <$> TaskQueue.started (taskQueue p')
      = ["github-pr-acme/app-7"; "heartbeat-github-pr-acme/app-7"].
Proof.
  destruct (github_pr_reviewed_by_both show "C0123" pr_body "acme/app"
              (Obj [("number", Num 7); ("title", Str "Fix the parser")])
              (Num 7) "7" "github-pr-acme/app-7" 1000 pr_under_review)
    as (p' & task & Hrun & _).
  - reflexivity.
  - reflexivity.
  - reflexivity.
  - discriminate.
  - vm_compute. reflexivity.
  - left. vm_compute. reflexivity.
  - vm_compute. reflexivity.
  - vm_compute. reflexivity.
  - exists p'. split; [exact Hrun|].
    vm_compute in Hrun. injection Hrun as <-. vm_compute. reflexivity.
Defined.
End HeartbeatChecksFacts.

(** * Properties of the Planka handler *)

Module PlankaHandlerFacts.
Import Js PlankaHandler.

Section facts.
Context {Body : Type}.
Variable ToString : value → completion string.
Variable targetLists : list string.
Variable work_body : value → Body.

Implicit Types (s : t Body) (payload cardId : value) (text : string).

Local Abbreviation isCardMoveToTargetList :=
  (PlankaHandler.isCardMoveToTargetList ToString targetLists).
Local Abbreviation handleCardMove :=
  (PlankaHandler.handleCardMove ToString work_body).
Local Abbreviation handleCardAssignment :=
  (PlankaHandler.handleCardAssignment ToString work_body).
Local Abbreviation handle :=
  (PlankaHandler.handle ToString targetLists work_body).
Local Abbreviation enqueue_card :=
  (PlankaHandler.enqueue_card ToString work_body).
Local Abbreviation card_task := (PlankaHandler.card_task work_body).

(** Once one property of the payload has been read, no read throws. *)
Lemma get_after_get payload k k' v :
  get payload k = Normal v → ∃ v', get payload k' = Normal v'.
Proof. destruct payload; simpl; intros; by eexists. Qed.

Lemma get_event payload :
  (∃ err, get payload "type" = Throw err)
  ∨ ∃ eventType,
      (type ← get payload "type"; or_read type (get payload "event"))
      = Normal eventType.
Proof.
  destruct payload; simpl;
    try (left; by eexists); right; unfold or_read;
    try (by eexists).
  destruct (truthy _); by eexists.
Qed.

(** The end of both handlers, by what the conversion of the id gives. *)
Lemma enqueue_card_converted cardId text s :
  ToString cardId = Normal text →
  enqueue_card cardId s
  = Normal
      {| taskQueue :=
           (TaskQueue.enqueue (card_task text cardId) (taskQueue s)).2;
         logger := logger s |}.
Proof. intros Htext. unfold PlankaHandler.enqueue_card. by rewrite Htext. Qed.

Lemma enqueue_card_in_flight cardId s s' :
  enqueue_card cardId s = Normal s' →
  ∃ text,
    ToString cardId = Normal text
    ∧ (TaskQueue.isActive ("planka-card-" +:+ text) (taskQueue s') = true
       ∨ TaskQueue.isPending ("planka-card-" +:+ text) (taskQueue s') = true).
Proof.
  unfold PlankaHandler.enqueue_card.
  destruct (ToString cardId) as [text|err]; cbn; [|done].
  intros [= <-]. exists text. split; [done|].
  apply (TaskQueueFacts.enqueue_in_flight (card_task text cardId)).
Qed.

(** [handle] gives the card-move route precedence, and that route does not
    look under [cardMembership]: an event that names a target list and
    carries its card id there alone is dropped with a warning, although
    [handleCardAssignment] finds the id and, when the id has a string form,
    enqueues the card. *)
Theorem handle_move_route_misses_membership payload cardId nothing text s :
  isCardMoveToTargetList payload = Normal true →
  moved_card payload = Normal nothing → truthy nothing = false →
  assigned_card payload = Normal cardId → truthy cardId = true →
  ToString cardId = Normal text →
  (∃ eventType,
     handle payload s
     = Normal (log Warn_move_missing_card (log (Info_received eventType) s)))
  ∧ ∃ s',
      handleCardAssignment payload s = Normal s'
      ∧ taskQueue s'
        = (TaskQueue.enqueue (card_task text cardId) (taskQueue s)).2
      ∧ (TaskQueue.isActive ("planka-card-" +:+ text) (taskQueue s') = true
         ∨ TaskQueue.isPending ("planka-card-" +:+ text) (taskQueue s')
           = true).
Proof.
  intros Hmove Hnone Hfalsy Hcard Htruthy Htext. split.
  - unfold PlankaHandler.handle.
    destruct (get_event payload) as [[err Herr]|[eventType Hevent]].
    + destruct payload; try done.
    + destruct (get payload "type") as [type|err] eqn:Htype;
        [|by destruct payload].
      cbn in Hevent. cbn.
      exists eventType. rewrite Hevent. cbn. rewrite Hmove. cbn.
      unfold PlankaHandler.handleCardMove. rewrite Hnone. cbn.
      by rewrite Hfalsy.
  - unfold PlankaHandler.handleCardAssignment. rewrite Hcard. cbn.
    rewrite Htruthy. simpl. rewrite (enqueue_card_converted _ _ _ Htext).
    eexists. split; [done|]. split; [done|]. simpl.
    apply (TaskQueueFacts.enqueue_in_flight (card_task text cardId)).
Qed.

(** Whenever [handle] changes the queue, a card id was found and its key
    [planka-card-<id>] is in flight afterwards, whichever route was
    taken. *)
Theorem handle_enqueues_under_card_key payload s s' :
  handle payload s = Normal s' →
  taskQueue s' ≠ taskQueue s →
  ∃ cardId text,
    truthy cardId = true
    ∧ ToString cardId = Normal text
    ∧ (moved_card payload = Normal cardId
       ∨ assigned_card payload = Normal cardId)
    ∧ (TaskQueue.isActive ("planka-card-" +:+ text) (taskQueue s') = true
       ∨ TaskQueue.isPending ("planka-card-" +:+ text) (taskQueue s')
         = true).
Proof.
  unfold PlankaHandler.handle. intros Hrun Hchanged.
  destruct (get payload "type") as [type|err] eqn:Htype; [|done].
  cbn in Hrun.
  destruct (or_read type (get payload "event")) as [eventType|err]; [|done].
  cbn in Hrun.
  destruct (isCardMoveToTargetList payload) as [[|]|err]; [| |done];
    cbn in Hrun.
  - unfold PlankaHandler.handleCardMove in Hrun.
    destruct (moved_card payload) as [cardId|err] eqn:Hcard; [|done].
    cbn in Hrun. destruct (truthy cardId) eqn:Htruthy; simpl in Hrun;
      [|by injection Hrun as <-].
    destruct (enqueue_card_in_flight _ _ _ Hrun) as (text & Htext & Hflight).
    exists cardId, text. split_and!; [done | done | by left | done].
  - destruct (isCardAssignment payload) as [[|]|err]; [| |done];
      cbn in Hrun; [|by injection Hrun as <-].
    unfold PlankaHandler.handleCardAssignment in Hrun.
    destruct (assigned_card payload) as [cardId|err] eqn:Hcard; [|done].
    cbn in Hrun. destruct (truthy cardId) eqn:Htruthy; simpl in Hrun;
      [|by injection Hrun as <-].
    destruct (enqueue_card_in_flight _ _ _ Hrun) as (text & Htext & Hflight).
    exists cardId, text. split_and!; [done | done | by right | done].
Qed.

(** A card that the webhook enqueues on a queue with nothing waiting and a
    free slot is running when the call returns, so the heartbeat's guard
    skips that card without marking it. *)
Theorem card_enqueued_with_room_is_skipped
    cardId card card_id text now s s' (p : HeartbeatChecks.t Body) :
  TaskQueue.queue (taskQueue s) = [] →
  Z.of_nat (TaskQueue.activeCount (taskQueue s))
  < TaskQueue.maxConcurrent (taskQueue s) →
  enqueue_card cardId s = Normal s' →
  HeartbeatChecks.taskQueue p = taskQueue s' →
  get card "id" = Normal card_id →
  ToString card_id = Normal text → ToString cardId = Normal text →
  HeartbeatChecks.planka_card_guard ToString card now p = Normal (None, p).
Proof.
  intros Hempty Hroom Hrun Hqueue Hid Hcard Htext.
  apply (HeartbeatChecksFacts.planka_card_guard_skips_when
           _ _ _ _ _ _ Hid Hcard).
  right. rewrite Hqueue.
  rewrite (enqueue_card_converted _ _ _ Htext) in Hrun.
  injection Hrun as <-. simpl.
  by apply (TaskQueueFacts.enqueue_starts_when_free (card_task text cardId)).
Qed.
End facts.

Import Examples.

Lemma handle_move_route_misses_membership_witness :
  (∃ eventType,
     handle show ["doing"] card_work assignment_event planka_idle
     = Normal
         (log Warn_move_missing_card
            (log (Info_received eventType) planka_idle)))
  ∧ ∃ s',
      handleCardAssignment show card_work assignment_event planka_idle
      = Normal s'
      ∧ TaskQueue.id <$> TaskQueue.started (taskQueue s')
        = ["planka-card-7"].
Proof.
  destruct (handle_move_route_misses_membership show ["doing"] card_work
              assignment_event (Num 7) Undefined "7" planka_idle)
    as (Hhandle & s' & Hassign & Hqueue & _).
  - vm_compute. reflexivity.
  - reflexivity.
  - reflexivity.
  - reflexivity.
  - reflexivity.
  - reflexivity.
  - split; [exact Hhandle|]. exists s'. split; [exact Hassign|].
    rewrite Hqueue. vm_compute. reflexivity.
Defined.

Lemma handle_enqueues_under_card_key_witness :
  ∃ cardId,
    truthy cardId = true
    ∧ (moved_card move_event = Normal cardId
       ∨ assigned_card move_event = Normal cardId).
Proof.
  destruct (handle_enqueues_under_card_key show ["doing"] card_work
              move_event planka_idle
              {| taskQueue :=
                   (TaskQueue.enqueue (card_task card_work "7" (Num 7))
                      (TaskQueue.new 1)).2;
                 logger := [Info_received (Str "cardUpdate")] |})
    as (cardId & text & Htruthy & _ & Hfound & _).
  - vm_compute. reflexivity.
  - intros Hsame. apply (f_equal TaskQueue.started) in Hsame.
    vm_compute in Hsame. discriminate Hsame.
  - exists cardId. split; [exact Htruthy | exact Hfound].
Defined.

Lemma card_enqueued_with_room_is_skipped_witness :
  HeartbeatChecks.planka_card_guard show card 1000 card_enqueued
  = Normal (None, card_enqueued).
Proof.
  apply (card_enqueued_with_room_is_skipped show card_work (Num 7) card
           (Num 7) "7" 1000 planka_idle
           {| taskQueue :=
                (TaskQueue.enqueue (card_task card_work "7" (Num 7))
                   (taskQueue planka_idle)).2;
              logger := [] |}
           card_enqueued).
  - reflexivity.
  - vm_compute. reflexivity.
  - reflexivity.
  - reflexivity.
  - reflexivity.
  - reflexivity.
  - reflexivity.
Defined.

(** ** [slugify] *)

Section slug.
Variable toLowerCase : list N → list N.

Lemma replace_runs_units in_run text : slug_units (replace_runs in_run text).
Proof.
  revert in_run. induction text as [|c text IH]; intros in_run; simpl.
  { constructor. }
  destruct (is_slug_unit c) eqn:Hc.
  - constructor; [by left | apply IH].
  - destruct in_run; [apply IH|]. constructor; [by right | apply IH].
Qed.

Lemma replace_runs_spaced in_run text :
  spaced (replace_runs in_run text)
  ∧ (in_run = true → head (replace_runs in_run text) ≠ Some dash).
Proof.
  revert in_run. induction text as [|c text IH]; intros in_run; simpl.
  { split; [by intros i | done]. }
  destruct (is_slug_unit c) eqn:Hc.
  - destruct (IH false) as [Hspaced _]. split.
    + intros [|i]; simpl; [|apply Hspaced].
      intros [= ->]. done.
    + intros _ [= ->]. done.
  - destruct (IH true) as [Hspaced Hhead]. destruct in_run; [done|].
    split; [|done].
    intros [|i]; simpl; [|apply Hspaced].
    intros _. rewrite <- head_lookup. by apply Hhead.
Qed.

Lemma strip_last_prefix text : strip_last text `prefix_of` text.
Proof.
  induction text as [|c [|c' text] IH]; [done| |].
  - simpl. case_bool_decide; [apply prefix_nil | done].
  - change (strip_last (c :: c' :: text)) with (c :: strip_last (c' :: text)).
    by apply prefix_cons.
Qed.

Lemma prefix_shape text text' :
  text `prefix_of` text' →
  slug_units text' → head text' ≠ Some dash → spaced text' →
  slug_units text ∧ head text ≠ Some dash ∧ spaced text.
Proof.
  intros Hprefix Hunits Hhead Hspaced. split; [|split].
  - destruct Hprefix as [rest ->]. by apply Forall_app in Hunits as [? _].
  - rewrite head_lookup in *. intros Hdash. apply Hhead.
    by eapply prefix_lookup_Some.
  - intros i Hdash Hnext.
    apply (Hspaced i); by eapply prefix_lookup_Some.
Qed.

(** A slug has at most fifty units, each of them a lower-case letter, a
    digit or a dash; it does not start with a dash and holds no two dashes
    in a row.  This does not depend on what [toLowerCase] does. *)
Theorem slugify_shape text :
  (length (slugify toLowerCase text) ≤ 50)%nat
  ∧ slug_units (slugify toLowerCase text)
  ∧ head (slugify toLowerCase text) ≠ Some dash
  ∧ spaced (slugify toLowerCase text).
Proof.
  unfold slugify. split; [rewrite length_take; lia|].
  set (replaced := replace_runs false (toLowerCase text)).
  pose proof (replace_runs_units false (toLowerCase text)) as Hunits.
  destruct (replace_runs_spaced false (toLowerCase text)) as [Hspaced _].
  fold replaced in Hunits, Hspaced.
  assert (slug_units (strip_first replaced)
          ∧ head (strip_first replaced) ≠ Some dash
          ∧ spaced (strip_first replaced)) as (Hunits1 & Hhead1 & Hspaced1).
  { destruct replaced as [|c rest]; simpl.
    { split; [constructor|]. split; [done | by intros i]. }
    case_bool_decide as Hc.
    - subst c. split; [by apply Forall_cons in Hunits as [_ ?]|].
      split; [rewrite head_lookup; by apply (Hspaced 0%nat)|].
      intros i. apply (Hspaced (S i)).
    - split; [done|]. split; [by intros [= ->] | done]. }
  eapply prefix_shape; [apply prefix_take|..].
  all: eapply prefix_shape; [apply strip_last_prefix | done..].
Qed.
End slug.
End PlankaHandlerFacts.
